(** * Kata agent client ([virtcontainers/kata_agent.go]): a shallow embedding

    The host-side client of the in-guest agent is modelled function by
    function.  Go values are represented as follows.

    - [string] is a byte string ([Stdlib.Strings.String]); [len] is
      [String.length] and [s[:n]] is [substring 0 n s].
    - fixed-width integers are [Z] with the wrap-around written out
      ([wrap_u32], [wrap_u64], [wrap_s32], [wrap_s64]).
    - [error] is [option error]; [None] is Go's [nil].
    - a nil-able pointer field is an [option]; dereferencing [None] is a
      run-time panic, modelled by the function returning [None].
    - methods of [*kataAgent] that talk to the guest run in the [Agent]
      monad: a state monad over the session object and the log of I/O
      events, reading the outcome of each I/O action from an [Env]. *)

From Stdlib Require Import String Ascii List ZArith Lia Bool Arith.
From Stdlib Require Import DecimalString.
From Equations Require Import Equations.
Import ListNotations.

Local Open Scope string_scope.
Local Open Scope Z_scope.

(* ===================================================================== *)
(** ** Go runtime and standard library                                     *)
(* ===================================================================== *)

Definition wrap_u32 (x : Z) : Z := x mod 2 ^ 32.
Definition wrap_u64 (x : Z) : Z := x mod 2 ^ 64.
Definition wrap_s32 (x : Z) : Z := (x + 2 ^ 31) mod 2 ^ 32 - 2 ^ 31.
Definition wrap_s64 (x : Z) : Z := (x + 2 ^ 63) mod 2 ^ 64 - 2 ^ 63.

Definition maxInt64 : Z := 2 ^ 63 - 1.
Definition maxUint64 : Z := 2 ^ 64 - 1.

(** [len(s)] of a Go string or slice, as an [int]. *)
Definition len (s : string) : Z := Z.of_nat (String.length s).
Definition llen {A} (l : list A) : Z := Z.of_nat (List.length l).

(** gRPC status codes ([google.golang.org/grpc/codes]). *)
Inductive Code :=
| OK | Canceled | Unknown | InvalidArgument | DeadlineExceeded | NotFound
| AlreadyExists | PermissionDenied | ResourceExhausted | FailedPrecondition
| Aborted | OutOfRange | Unimplemented | Internal | Unavailable | DataLoss
| Unauthenticated.

Definition Code_eqb (a b : Code) : bool :=
  match a, b with
  | OK, OK | Canceled, Canceled | Unknown, Unknown
  | InvalidArgument, InvalidArgument | DeadlineExceeded, DeadlineExceeded
  | NotFound, NotFound | AlreadyExists, AlreadyExists
  | PermissionDenied, PermissionDenied
  | ResourceExhausted, ResourceExhausted
  | FailedPrecondition, FailedPrecondition | Aborted, Aborted
  | OutOfRange, OutOfRange | Unimplemented, Unimplemented
  | Internal, Internal | Unavailable, Unavailable | DataLoss, DataLoss
  | Unauthenticated, Unauthenticated => true
  | _, _ => false
  end.

(** Go error values.  [errorsNew] is [errors.New]; [fmtErrorf] keeps the
    format string and its rendered arguments; [statusError] is an error
    carrying a gRPC status; [numError] is [*strconv.NumError]. *)
Inductive NumErrKind := ErrSyntax | ErrRange.

Inductive error :=
| errorsNew (msg : string)
| fmtErrorf (format : string) (args : list string)
| statusError (c : Code) (msg : string)
| numError (func : string) (num : string) (kind : NumErrKind).

(** The digit of [strconv]'s [lowerhex] table. *)
Definition lowerhex (n : nat) : ascii :=
  nth n ["0"; "1"; "2"; "3"; "4"; "5"; "6"; "7"; "8"; "9";
         "a"; "b"; "c"; "d"; "e"; "f"]%char "0"%char.

(** One byte as [strconv.Quote] writes it: the double quote and the
    backslash behind a backslash, the control characters by their names
    or as [\xNN], every other byte as it is. *)
Definition quoteByte (c : ascii) : string :=
  let n := nat_of_ascii c in
  if (n =? 34)%nat then String "\" (String "034" EmptyString)
  else if (n =? 92)%nat then String "\" (String "\" EmptyString)
  else if (n =? 7)%nat then String "\" (String "a" EmptyString)
  else if (n =? 8)%nat then String "\" (String "b" EmptyString)
  else if (n =? 12)%nat then String "\" (String "f" EmptyString)
  else if (n =? 10)%nat then String "\" (String "n" EmptyString)
  else if (n =? 13)%nat then String "\" (String "r" EmptyString)
  else if (n =? 9)%nat then String "\" (String "t" EmptyString)
  else if (n =? 11)%nat then String "\" (String "v" EmptyString)
  else if ((n <? 32) || (n =? 127))%nat
       then String "\" (String "x" (String (lowerhex (n / 16))
                                      (String (lowerhex (n mod 16)) EmptyString)))
  else String c EmptyString.

(** [strconv.Quote], which is what the verb [%q] prints for a string.  The
    escapes are those of a string of ASCII bytes.  For bytes above 0x7f Go
    decodes UTF-8 and consults its Unicode tables, which are no part of
    this development: such bytes are copied, as Go does for printable
    text. *)
Fixpoint quoteBytes (s : string) : string :=
  match s with
  | EmptyString => EmptyString
  | String c rest => quoteByte c ++ quoteBytes rest
  end.

Definition strconv_Quote (s : string) : string :=
  String "034" (quoteBytes s ++ String "034" EmptyString).

(** [fmt.Sprintf] for the verbs used here ([%s], [%v], [%d], [%q]) and as
    many arguments as verbs, the arguments given as text: each verb is
    replaced by the next argument, [%q] by the argument quoted. *)
Fixpoint fmt_Sprintf (format : string) (args : list string) : string :=
  match format with
  | EmptyString => EmptyString
  | String c rest =>
      if Ascii.eqb c "%" then
        match rest, args with
        | String v rest', a :: args' =>
            (if Ascii.eqb v "q" then strconv_Quote a else a)
            ++ fmt_Sprintf rest' args'
        | _, _ => String c rest
        end
      else String c (fmt_Sprintf rest args)
  end.

(** The [Error()] method. *)
Definition Error (e : error) : string :=
  match e with
  | errorsNew m => m
  | fmtErrorf f args => fmt_Sprintf f args
  | statusError _ m => m
  | numError f n ErrSyntax =>
      "strconv." ++ f ++ ": parsing " ++ fmt_Sprintf "%q" [n] ++ ": invalid syntax"
  | numError f n ErrRange =>
      "strconv." ++ f ++ ": parsing " ++ fmt_Sprintf "%q" [n] ++ ": value out of range"
  end.

(** [grpcStatus.Convert(err).Code()]: an error that carries no status is
    reported as [Unknown]. *)
Definition Convert_Code (e : error) : Code :=
  match e with
  | statusError c _ => c
  | _ => Unknown
  end.

(** Results of fallible functions returning [(T, error)]. *)
Inductive result (A : Type) :=
| Ok (a : A)
| Err (e : error).
Arguments Ok {A} a.
Arguments Err {A} e.

(** *** [strings] *)

(** [strings.Split(s, string(sep))] for a one-byte separator. *)
Fixpoint strings_Split (sep : ascii) (s : string) : list string :=
  match s with
  | EmptyString => [EmptyString]
  | String c rest =>
      if Ascii.eqb c sep then EmptyString :: strings_Split sep rest
      else match strings_Split sep rest with
           | [] => [String c EmptyString]
           | f :: fs => String c f :: fs
           end
  end.

(** [strings.Join(elems, sep)]. *)
Definition strings_Join (elems : list string) (sep : string) : string :=
  String.concat sep elems.

(** [strings.HasPrefix(s, p)]. *)
Definition strings_HasPrefix (s p : string) : bool := String.prefix p s.

(** *** [strconv.ParseUint(s, 10, bitSize)] *)

Definition digit_of (c : ascii) : option Z :=
  let n := Z.of_nat (nat_of_ascii c) in
  if (48 <=? n) && (n <=? 57) then Some (n - 48) else None.

(** The digit loop: [n] is the accumulator, [cutoff] the smallest number
    with [cutoff * 10 > maxUint64], [maxVal] the largest value of the
    requested width. *)
Fixpoint parseDigits (s0 : string) (cutoff maxVal : Z) (s : string) (n : Z)
  : result Z :=
  match s with
  | EmptyString => Ok n
  | String c rest =>
      match digit_of c with
      | None => Err (numError "ParseUint" s0 ErrSyntax)
      | Some d =>
          if n >=? cutoff then Err (numError "ParseUint" s0 ErrRange)
          else
            let n' := wrap_u64 (n * 10) in
            let n1 := wrap_u64 (n' + d) in
            if (n1 <? n') || (n1 >? maxVal)
            then Err (numError "ParseUint" s0 ErrRange)
            else parseDigits s0 cutoff maxVal rest n1
      end
  end.

Definition strconv_ParseUint10 (s : string) (bitSize : Z) : result Z :=
  if (s =? "")%string then Err (numError "ParseUint" s ErrSyntax)
  else parseDigits s (maxUint64 / 10 + 1) (2 ^ bitSize - 1) s 0.

(** *** [path/filepath] (Unix) *)

(** The element loop of [filepath.Clean]: [out] is the stack of elements
    kept so far, most recent first. *)
Fixpoint cleanElems (rooted : bool) (out : list string) (elems : list string)
  : list string :=
  match elems with
  | [] => rev out
  | e :: es =>
      if (e =? "")%string then cleanElems rooted out es
      else if (e =? ".")%string then cleanElems rooted out es
      else if (e =? "..")%string then
        match out with
        | top :: out' =>
            if (top =? "..")%string then cleanElems rooted (".." :: out) es
            else cleanElems rooted out' es
        | [] =>
            if rooted then cleanElems rooted [] es
            else cleanElems rooted [".."] es
        end
      else cleanElems rooted (e :: out) es
  end.

Definition isRooted (p : string) : bool :=
  match p with
  | String c _ => Ascii.eqb c "/"
  | EmptyString => false
  end.

Definition filepath_Clean (p : string) : string :=
  if (p =? "")%string then "."
  else
    let rooted := isRooted p in
    let body := strings_Join (cleanElems rooted [] (strings_Split "/" p)) "/" in
    if rooted then "/" ++ body
    else if (body =? "")%string then "." else body.

(** [filepath.Join]: empty leading elements are skipped, the rest is joined
    with the separator and cleaned. *)
Fixpoint filepath_Join (elem : list string) : string :=
  match elem with
  | [] => ""
  | e :: es =>
      if (e =? "")%string then filepath_Join es
      else filepath_Clean (strings_Join elem "/")
  end.

(** [filepath.Base]: the last element of the path, trailing separators
    removed. *)
Definition filepath_Base (p : string) : string :=
  if (p =? "")%string then "."
  else
    match rev (filter (fun e => negb (e =? "")%string) (strings_Split "/" p)) with
    | [] => "/"
    | e :: _ => e
    end.

(* ===================================================================== *)
(** ** Wire and host data types                                            *)
(* ===================================================================== *)

Definition time_Second : Z := 1000000000.

Definition checkRequestTimeout : Z := 30 * time_Second.
Definition defaultRequestTimeout : Z := 60 * time_Second.
Definition grpcMaxDataSize : Z := wrap_s64 (1024 * 1024).
Definition maxHostnameLen : Z := 64.
Definition vfioPath : string := "/dev/vfio/".
Definition defaultKataGuestSandboxDir : string := "/run/kata-containers/sandbox/".

Definition GuestDNSFile : string := "/etc/resolv.conf".

Definition errorMissingProxy : error := errorsNew "Missing proxy pointer".

Definition grpcCheckRequest := "grpc.CheckRequest".
Definition grpcExecProcessRequest := "grpc.ExecProcessRequest".
Definition grpcCreateSandboxRequest := "grpc.CreateSandboxRequest".
Definition grpcDestroySandboxRequest := "grpc.DestroySandboxRequest".
Definition grpcCreateContainerRequest := "grpc.CreateContainerRequest".
Definition grpcStartContainerRequest := "grpc.StartContainerRequest".
Definition grpcRemoveContainerRequest := "grpc.RemoveContainerRequest".
Definition grpcSignalProcessRequest := "grpc.SignalProcessRequest".
Definition grpcUpdateRoutesRequest := "grpc.UpdateRoutesRequest".
Definition grpcUpdateInterfaceRequest := "grpc.UpdateInterfaceRequest".
Definition grpcListInterfacesRequest := "grpc.ListInterfacesRequest".
Definition grpcListRoutesRequest := "grpc.ListRoutesRequest".
Definition grpcAddARPNeighborsRequest := "grpc.AddARPNeighborsRequest".
Definition grpcOnlineCPUMemRequest := "grpc.OnlineCPUMemRequest".
Definition grpcListProcessesRequest := "grpc.ListProcessesRequest".
Definition grpcUpdateContainerRequest := "grpc.UpdateContainerRequest".
Definition grpcWaitProcessRequest := "grpc.WaitProcessRequest".
Definition grpcTtyWinResizeRequest := "grpc.TtyWinResizeRequest".
Definition grpcWriteStreamRequest := "grpc.WriteStreamRequest".
Definition grpcCloseStdinRequest := "grpc.CloseStdinRequest".
Definition grpcStatsContainerRequest := "grpc.StatsContainerRequest".
Definition grpcPauseContainerRequest := "grpc.PauseContainerRequest".
Definition grpcResumeContainerRequest := "grpc.ResumeContainerRequest".
Definition grpcReseedRandomDevRequest := "grpc.ReseedRandomDevRequest".
Definition grpcGuestDetailsRequest := "grpc.GuestDetailsRequest".
Definition grpcMemHotplugByProbeRequest := "grpc.MemHotplugByProbeRequest".
Definition grpcCopyFileRequest := "grpc.CopyFileRequest".
Definition grpcSetGuestDateTimeRequest := "grpc.SetGuestDateTimeRequest".
Definition grpcStartTracingRequest := "grpc.StartTracingRequest".
Definition grpcStopTracingRequest := "grpc.StopTracingRequest".
Definition grpcGetOOMEventRequest := "grpc.GetOOMEventRequest".

(** Network descriptors, host side ([vcTypes]) and wire side ([aTypes]). *)
Record IPAddress := { ipFamily : Z; ipAddress : string; ipMask : string }.

Record vcInterface := {
  ifDevice : string; ifName : string; ifIPAddresses : list (option IPAddress);
  ifMtu : Z; ifRawFlags : Z; ifHwAddr : string; ifPciPath : string }.

Record aInterface := {
  aifDevice : string; aifName : string; aifIPAddresses : list IPAddress;
  aifMtu : Z; aifRawFlags : Z; aifHwAddr : string; aifPciPath : string }.

Record Route := {
  rtDest : string; rtGateway : string; rtDevice : string; rtSource : string;
  rtScope : Z }.

Record vcARPNeighbor := {
  ToIPAddress : option IPAddress; nbDevice : string; nbState : Z;
  LLAddr : string }.

Record aARPNeighbor := {
  aToIPAddress : option IPAddress; aDevice : string; aState : Z;
  aLladdr : string }.

(** Storage descriptor ([grpc.Storage]) and spec mount ([specs.Mount]). *)
Record Storage := {
  Driver : string; stSource : string; MountPoint : string; Fstype : string;
  stOptions : list string }.

Record Mount := {
  Destination : string; mType : string; Source : string;
  mOptions : list string }.

Record KernelModule := { kmName : string; kmParameters : list string }.

Record CreateSandboxReq := {
  Hostname : string; Dns : list string; Storages : list Storage;
  SandboxPidns : bool; SandboxId : string; GuestHookPath : string;
  KernelModules : list KernelModule }.

Record CopyFileReq := {
  cfPath : string; DirMode : Z; FileMode : Z; FileSize : Z;
  Uid : Z; Gid : Z; Data : list Byte.byte; Offset : Z }.

(** The closed set of abstract requests.  Kinds whose payload plays no part
    in this development carry none. *)
Inductive Request :=
| CheckRequest
| ExecProcessRequest
| CreateSandboxRequest (r : CreateSandboxReq)
| DestroySandboxRequest
| CreateContainerRequest
| StartContainerRequest
| RemoveContainerRequest
| SignalProcessRequest
| UpdateRoutesRequest (routes : list Route)
| UpdateInterfaceRequest (ifc : option aInterface)
| ListInterfacesRequest
| ListRoutesRequest
| AddARPNeighborsRequest (neighbors : list aARPNeighbor)
| OnlineCPUMemRequest
| ListProcessesRequest
| UpdateContainerRequest
| WaitProcessRequest
| TtyWinResizeRequest
| WriteStreamRequest
| CloseStdinRequest
| StatsContainerRequest
| PauseContainerRequest
| ResumeContainerRequest
| ReseedRandomDevRequest
| GuestDetailsRequest
| MemHotplugByProbeRequest (MemHotplugProbeAddr : list Z)
| CopyFileRequest (r : CopyFileReq)
| SetGuestDateTimeRequest
| StartTracingRequest
| StopTracingRequest
| GetOOMEventRequest.

(** [proto.MessageName]. *)
Definition MessageName (r : Request) : string :=
  match r with
  | CheckRequest => grpcCheckRequest
  | ExecProcessRequest => grpcExecProcessRequest
  | CreateSandboxRequest _ => grpcCreateSandboxRequest
  | DestroySandboxRequest => grpcDestroySandboxRequest
  | CreateContainerRequest => grpcCreateContainerRequest
  | StartContainerRequest => grpcStartContainerRequest
  | RemoveContainerRequest => grpcRemoveContainerRequest
  | SignalProcessRequest => grpcSignalProcessRequest
  | UpdateRoutesRequest _ => grpcUpdateRoutesRequest
  | UpdateInterfaceRequest _ => grpcUpdateInterfaceRequest
  | ListInterfacesRequest => grpcListInterfacesRequest
  | ListRoutesRequest => grpcListRoutesRequest
  | AddARPNeighborsRequest _ => grpcAddARPNeighborsRequest
  | OnlineCPUMemRequest => grpcOnlineCPUMemRequest
  | ListProcessesRequest => grpcListProcessesRequest
  | UpdateContainerRequest => grpcUpdateContainerRequest
  | WaitProcessRequest => grpcWaitProcessRequest
  | TtyWinResizeRequest => grpcTtyWinResizeRequest
  | WriteStreamRequest => grpcWriteStreamRequest
  | CloseStdinRequest => grpcCloseStdinRequest
  | StatsContainerRequest => grpcStatsContainerRequest
  | PauseContainerRequest => grpcPauseContainerRequest
  | ResumeContainerRequest => grpcResumeContainerRequest
  | ReseedRandomDevRequest => grpcReseedRandomDevRequest
  | GuestDetailsRequest => grpcGuestDetailsRequest
  | MemHotplugByProbeRequest _ => grpcMemHotplugByProbeRequest
  | CopyFileRequest _ => grpcCopyFileRequest
  | SetGuestDateTimeRequest => grpcSetGuestDateTimeRequest
  | StartTracingRequest => grpcStartTracingRequest
  | StopTracingRequest => grpcStopTracingRequest
  | GetOOMEventRequest => grpcGetOOMEventRequest
  end.

(** The keys [installReqFunc] registers in [k.reqHandlers]. *)
Definition registeredRequests : list string :=
  [ grpcCheckRequest; grpcExecProcessRequest; grpcCreateSandboxRequest;
    grpcDestroySandboxRequest; grpcCreateContainerRequest;
    grpcStartContainerRequest; grpcRemoveContainerRequest;
    grpcSignalProcessRequest; grpcUpdateRoutesRequest;
    grpcUpdateInterfaceRequest; grpcListInterfacesRequest;
    grpcListRoutesRequest; grpcAddARPNeighborsRequest;
    grpcOnlineCPUMemRequest; grpcListProcessesRequest;
    grpcUpdateContainerRequest; grpcWaitProcessRequest;
    grpcTtyWinResizeRequest; grpcWriteStreamRequest; grpcCloseStdinRequest;
    grpcStatsContainerRequest; grpcPauseContainerRequest;
    grpcResumeContainerRequest; grpcReseedRandomDevRequest;
    grpcGuestDetailsRequest; grpcMemHotplugByProbeRequest;
    grpcCopyFileRequest; grpcSetGuestDateTimeRequest;
    grpcStartTracingRequest; grpcStopTracingRequest;
    grpcGetOOMEventRequest ].

(** Responses, as far as callers inspect them. *)
Inductive Response :=
| EmptyResponse
| InterfaceResponse (ifc : vcInterface)
| RoutesResponse (routes : list Route)
| OtherResponse (kind : string).

(* ===================================================================== *)
(** ** The session object and the [Agent] monad                            *)
(* ===================================================================== *)

(** Handle of an open RPC channel ([*kataclient.AgentClient]). *)
Definition AgentClient := nat.

Record KataAgentState := { ProxyPid : Z; URL : string }.

(** [type kataAgent struct].  [proxy] is [true] when the proxy pointer is
    set; [reqHandlers] is [None] for the nil map and otherwise lists the
    registered keys. *)
Record kataAgent := mkAgent {
  proxy : bool;
  client : option AgentClient;
  reqHandlers : option (list string);
  state : KataAgentState;
  keepConn : bool;
  proxyBuiltIn : bool;
  dynamicTracing : bool;
  dead : bool;
  kmodules : list string }.

Definition set_client (c : option AgentClient) (k : kataAgent) : kataAgent :=
  mkAgent (proxy k) c (reqHandlers k) (state k) (keepConn k) (proxyBuiltIn k)
          (dynamicTracing k) (dead k) (kmodules k).
Definition set_reqHandlers (h : option (list string)) (k : kataAgent) : kataAgent :=
  mkAgent (proxy k) (client k) h (state k) (keepConn k) (proxyBuiltIn k)
          (dynamicTracing k) (dead k) (kmodules k).
Definition set_state (s : KataAgentState) (k : kataAgent) : kataAgent :=
  mkAgent (proxy k) (client k) (reqHandlers k) s (keepConn k) (proxyBuiltIn k)
          (dynamicTracing k) (dead k) (kmodules k).
Definition set_dead (d : bool) (k : kataAgent) : kataAgent :=
  mkAgent (proxy k) (client k) (reqHandlers k) (state k) (keepConn k)
          (proxyBuiltIn k) (dynamicTracing k) d (kmodules k).
Definition set_proxy (p : bool) (k : kataAgent) : kataAgent :=
  mkAgent p (client k) (reqHandlers k) (state k) (keepConn k)
          (proxyBuiltIn k) (dynamicTracing k) (dead k) (kmodules k).
Definition set_keepConn (b : bool) (k : kataAgent) : kataAgent :=
  mkAgent (proxy k) (client k) (reqHandlers k) (state k) b
          (proxyBuiltIn k) (dynamicTracing k) (dead k) (kmodules k).
Definition set_proxyBuiltIn (b : bool) (k : kataAgent) : kataAgent :=
  mkAgent (proxy k) (client k) (reqHandlers k) (state k) (keepConn k)
          b (dynamicTracing k) (dead k) (kmodules k).
Definition set_dynamicTracing (b : bool) (k : kataAgent) : kataAgent :=
  mkAgent (proxy k) (client k) (reqHandlers k) (state k) (keepConn k)
          (proxyBuiltIn k) b (dead k) (kmodules k).
Definition set_kmodules (m : list string) (k : kataAgent) : kataAgent :=
  mkAgent (proxy k) (client k) (reqHandlers k) (state k) (keepConn k)
          (proxyBuiltIn k) (dynamicTracing k) (dead k) m.

(** I/O actions observable outside the process. *)
Inductive Event :=
| EvKill (pid : Z)                                   (* syscall.Kill(pid, 0) *)
| EvDial (url : string) (builtin : bool)             (* kataclient.NewAgentClient *)
| EvClose (c : AgentClient)                          (* client.Close *)
| EvCall (c : AgentClient) (timeout : option Z) (req : Request)
| EvProxyStart (agentURL consoleURL : string)        (* proxy.start *)
| EvProxyStop (pid : Z).                             (* proxy.stop *)

(** File metadata read by [unix.Stat]. *)
Record Stat_t := { st_Mode : Z; st_Uid : Z; st_Gid : Z }.

(** Network state of a sandbox as [generateVCNetworkStructures] returns it. *)
Record NetworkStructures := {
  nsInterfaces : list (option vcInterface);
  nsRoutes : option (list (option Route));
  nsNeighs : option (list (option vcARPNeighbor)) }.

(** The parts of [*Sandbox] the agent client reads.  [sbOCIMounts] is the
    mount list of [GetPatchedOCISpec()], [None] when there is no spec. *)
Record Sandbox := {
  sbId : string;
  sbHostname : string;
  sbSharePidNs : bool;
  sbGuestHookPath : string;
  sbOCIMounts : option (list Mount) }.

(** Outcomes of the actions the agent client does not decide itself.  Each
    I/O outcome may depend on everything that happened before (the log). *)
Record Env := {
  sys_Kill : list Event -> Z -> option error;
  NewAgentClient : list Event -> string -> bool -> result AgentClient;
  client_Close : list Event -> AgentClient -> option error;
  client_Call : list Event -> AgentClient -> option Z -> Request -> result Response;
  proxy_consoleWatched : list Event -> bool;
  proxy_start : list Event -> string -> string -> result (Z * string);
  proxy_stop : list Event -> Z -> option error;
  agentURL : result string;
  getSandboxConsole : string -> result string;
  unix_Stat : string -> result Stat_t;
  ioutil_ReadFile : string -> result (list Byte.byte);
  generateVCNetworkStructures : Sandbox -> result NetworkStructures;
  setupStorages : Sandbox -> list Storage;
  setupKernelModules : list string -> list KernelModule;
  cfg_DirMode : Z }.

Record World := { agent : kataAgent; log : list Event }.

Definition Agent (A : Type) : Type := Env -> World -> A * World.

Definition ret {A} (a : A) : Agent A := fun _ w => (a, w).

Definition bind {A B} (m : Agent A) (f : A -> Agent B) : Agent B :=
  fun env w => let (a, w') := m env w in f a env w'.

Declare Scope agent_scope.
Delimit Scope agent_scope with agent.
Notation "x <- m ;; k" := (bind m (fun x => k))
  (at level 61, m at next level, right associativity) : agent_scope.
Notation "m ;;; k" := (bind m (fun _ => k))
  (at level 61, right associativity) : agent_scope.
Local Open Scope agent_scope.

Definition getAgent : Agent kataAgent := fun _ w => (agent w, w).
Definition getEnv : Agent Env := fun env w => (env, w).
Definition modify (f : kataAgent -> kataAgent) : Agent unit :=
  fun _ w => (tt, {| agent := f (agent w); log := log w |}).

(** An I/O action: its outcome is read from the environment at the current
    log, and the action is appended to the log. *)
Definition io {A} (outcome : Env -> list Event -> A) (e : Event) : Agent A :=
  fun env w => (outcome env (log w), {| agent := agent w; log := log w ++ [e] |}).

(** Run an action and return its result and the events it appended. *)
Definition run {A} (m : Agent A) (env : Env) (k : kataAgent) : A * World :=
  m env {| agent := k; log := [] |}.

(* ===================================================================== *)
(** ** Connection manager                                                  *)
(* ===================================================================== *)

Definition installReqFunc : Agent unit :=
  modify (set_reqHandlers (Some registeredRequests)).

Definition connect : Agent (option error) :=
  k <- getAgent ;;
  if dead k then ret (Some (errorsNew "Dead agent"))
  else
    (* lockless quick pass, then the same test under the lock *)
    match client k with
    | Some _ => ret None
    | None =>
        probe <- (if ProxyPid (state k) >? 0
                  then io (fun env l => sys_Kill env l (ProxyPid (state k)))
                          (EvKill (ProxyPid (state k)))
                  else ret None) ;;
        match probe with
        | Some _ => ret (Some (errorsNew "Proxy is not running"))
        | None =>
            r <- io (fun env l => NewAgentClient env l (URL (state k)) (proxyBuiltIn k))
                    (EvDial (URL (state k)) (proxyBuiltIn k)) ;;
            match r with
            | Err err => modify (set_dead true) ;;; ret (Some err)
            | Ok c =>
                installReqFunc ;;;
                modify (set_client (Some c)) ;;;
                ret None
            end
        end
    end.

Definition disconnect : Agent (option error) :=
  k <- getAgent ;;
  match client k with
  | None => ret None
  | Some c =>
      cerr <- io (fun env l => client_Close env l c) (EvClose c) ;;
      match cerr with
      | Some err =>
          if negb (Code_eqb (Convert_Code err) Canceled) then ret (Some err)
          else modify (set_client None) ;;;
               modify (set_reqHandlers None) ;;;
               ret None
      | None =>
          modify (set_client None) ;;;
          modify (set_reqHandlers None) ;;;
          ret None
      end
  end.

Definition markDead : Agent unit :=
  modify (set_dead true) ;;;
  disconnect ;;;
  ret tt.

(* ===================================================================== *)
(** ** Request dispatcher                                                  *)
(* ===================================================================== *)

(** [getReqContext]: [None] is a context without deadline (and a nil
    cancel function), [Some d] a context with timeout [d]. *)
Definition getReqContext (reqName : string) : option Z :=
  if (reqName =? grpcWaitProcessRequest)%string
     || (reqName =? grpcGetOOMEventRequest)%string then None
  else if (reqName =? grpcCheckRequest)%string then Some checkRequestTimeout
  else Some defaultRequestTimeout.

Definition hasHandler (handlers : option (list string)) (msgName : string) : bool :=
  match handlers with
  | None => false
  | Some keys => existsb (String.eqb msgName) keys
  end.

(** The registered handler for a request: the RPC on [k.client].  The nil
    client branch is not reachable from [sendReq], which calls the handler
    only after [connect] has succeeded. *)
Definition handler (ctx : option Z) (request : Request) : Agent (result Response) :=
  k <- getAgent ;;
  match client k with
  | Some c => io (fun env l => client_Call env l c ctx request) (EvCall c ctx request)
  | None => ret (Err (errorsNew "nil client"))
  end.

Definition sendReq (request : Request) : Agent (result Response) :=
  cerr <- connect ;;
  match cerr with
  | Some err => ret (Err err)
  | None =>
      k <- getAgent ;;
      let msgName := MessageName request in
      r <- (k' <- getAgent ;;
            if (msgName =? "")%string || negb (hasHandler (reqHandlers k') msgName)
            then ret (Err (errorsNew "Invalid request type"))
            else handler (getReqContext msgName) request) ;;
      (* deferred when the session is not kept alive *)
      (if negb (keepConn k) then disconnect ;;; ret tt else ret tt) ;;;
      ret r
  end.

Definition check : Agent (option error) :=
  r <- sendReq CheckRequest ;;
  match r with
  | Err err =>
      ret (Some (fmtErrorf "Failed to check if grpc server is working: %s" [Error err]))
  | Ok _ => ret None
  end.

(* ===================================================================== *)
(** ** Network configuration                                               *)
(* ===================================================================== *)

Definition FAMILY_V4 : Z := 2.
Definition FAMILY_V6 : Z := 10.
Definition IPFamily_v4 : Z := 0.
Definition IPFamily_v6 : Z := 1.

Definition convertToKataAgentIPFamily (ipFamily : Z) : Z :=
  if ipFamily =? FAMILY_V4 then IPFamily_v4
  else if ipFamily =? FAMILY_V6 then IPFamily_v6
  else IPFamily_v4.

Definition convertToKataAgentIPAddress (ipAddr : option IPAddress)
  : option IPAddress :=
  match ipAddr with
  | None => None
  | Some a =>
      Some {| ipFamily := convertToKataAgentIPFamily (ipFamily a);
              ipAddress := ipAddress a; ipMask := ipMask a |}
  end.

Fixpoint convertToKataAgentIPAddresses (ipAddrs : list (option IPAddress))
  : list IPAddress :=
  match ipAddrs with
  | [] => []
  | None :: rest => convertToKataAgentIPAddresses rest
  | Some a :: rest =>
      match convertToKataAgentIPAddress (Some a) with
      | Some a' => a' :: convertToKataAgentIPAddresses rest
      | None => convertToKataAgentIPAddresses rest
      end
  end.

Definition convertToKataAgentInterface (iface : option vcInterface)
  : option aInterface :=
  match iface with
  | None => None
  | Some i =>
      Some {| aifDevice := ifDevice i; aifName := ifName i;
              aifIPAddresses := convertToKataAgentIPAddresses (ifIPAddresses i);
              aifMtu := ifMtu i; aifRawFlags := ifRawFlags i;
              aifHwAddr := ifHwAddr i; aifPciPath := ifPciPath i |}
  end.

Definition updateInterface (ifc : option vcInterface)
  : Agent (option vcInterface * option error) :=
  r <- sendReq (UpdateInterfaceRequest (convertToKataAgentInterface ifc)) ;;
  match r with
  | Ok (InterfaceResponse i) => ret (Some i, None)
  | Ok _ => ret (None, None)
  | Err err => ret (None, Some err)
  end.

Fixpoint updateInterfaces (interfaces : list (option vcInterface))
  : Agent (option error) :=
  match interfaces with
  | [] => ret None
  | ifc :: rest =>
      r <- updateInterface ifc ;;
      match snd r with
      | Some err => ret (Some err)
      | None => updateInterfaces rest
      end
  end.

Fixpoint convertToKataAgentRoutes (routes : list (option Route)) : list Route :=
  match routes with
  | [] => []
  | None :: rest => convertToKataAgentRoutes rest
  | Some route :: rest => route :: convertToKataAgentRoutes rest
  end.

Definition updateRoutes (routes : option (list (option Route)))
  : Agent (option (list Route) * option error) :=
  match routes with
  | Some rs =>
      r <- sendReq (UpdateRoutesRequest (convertToKataAgentRoutes rs)) ;;
      match r with
      | Ok (RoutesResponse resulting) => ret (Some resulting, None)
      | Ok _ => ret (None, None)
      | Err err => ret (None, Some err)
      end
  | None => ret (None, None)
  end.

Fixpoint convertToKataAgentNeighbors (neighs : list (option vcARPNeighbor))
  : list aARPNeighbor :=
  match neighs with
  | [] => []
  | None :: rest => convertToKataAgentNeighbors rest
  | Some neigh :: rest =>
      {| aToIPAddress := convertToKataAgentIPAddress (ToIPAddress neigh);
         aDevice := nbDevice neigh;
         aState := wrap_s32 (nbState neigh); aLladdr := LLAddr neigh |}
      :: convertToKataAgentNeighbors rest
  end.

Definition addARPNeighbors (neighs : option (list (option vcARPNeighbor)))
  : Agent (option error) :=
  match neighs with
  | Some ns =>
      r <- sendReq (AddARPNeighborsRequest (convertToKataAgentNeighbors ns)) ;;
      match r with
      | Err err =>
          if Code_eqb (Convert_Code err) Unimplemented
          then ret None          (* warning logged: old agent *)
          else ret (Some err)    (* error logged *)
      | Ok _ => ret None
      end
  | None => ret None
  end.

(* ===================================================================== *)
(** ** Sandbox orchestration                                               *)
(* ===================================================================== *)

Definition proxyStop (pid : Z) : Agent (option error) :=
  io (fun env l => proxy_stop env l pid) (EvProxyStop pid).

Definition setProxy (pid : Z) (url : string) : Agent (option error) :=
  env <- getEnv ;;
  match (if (url =? "")%string then agentURL env else Ok url) with
  | Err err => ret (Some err)
  | Ok url' =>
      k <- getAgent ;;
      (if proxy k && negb (URL (state k) =? "")%string
          && negb (URL (state k) =? url')%string
       then proxyStop (ProxyPid (state k)) ;;; ret tt
       else ret tt) ;;;
      modify (set_proxy true) ;;;
      modify (set_state {| ProxyPid := pid; URL := url' |}) ;;;
      ret None
  end.

Definition setProxyFromGrpc (pid : Z) (url : string) : Agent unit :=
  modify (set_proxy true) ;;;
  modify (set_state {| ProxyPid := pid; URL := url |}).

Definition startProxy (sandbox : Sandbox) : Agent (option error) :=
  k <- getAgent ;;
  env <- getEnv ;;
  if negb (proxy k) then ret (Some errorMissingProxy)
  else
    watched <- (fun env w => (proxy_consoleWatched env (log w), w)) ;;
    if watched then ret None
    else
      let endpoint :=
        if negb (URL (state k) =? "")%string
        then (if keepConn k then Some (Ok (URL (state k))) else None)
        else Some (agentURL env) in
      match endpoint with
      | None => ret None                      (* proxy already started *)
      | Some (Err err) => ret (Some err)
      | Some (Ok agentURL) =>
          match getSandboxConsole env (sbId sandbox) with
          | Err err => ret (Some err)
          | Ok consoleURL =>
              started <- io (fun env l => proxy_start env l agentURL consoleURL)
                            (EvProxyStart agentURL consoleURL) ;;
              match started with
              | Err err => ret (Some err)
              | Ok (pid, uri) =>
                  serr <- setProxy pid uri ;;
                  match serr with
                  | Some err => proxyStop pid ;;; ret (Some err)
                  | None => ret None
                  end
              end
          end
      end.

Fixpoint findDNSMount (mounts : list Mount) : option Mount :=
  match mounts with
  | [] => None
  | m :: rest =>
      if (Destination m =? GuestDNSFile)%string then Some m
      else findDNSMount rest
  end.

(** [getDNS]: [Ok None] is the nil slice (DNS left unset). *)
Definition getDNS (sandbox : Sandbox) : Agent (result (option (list string))) :=
  env <- getEnv ;;
  match sbOCIMounts sandbox with
  | None => ret (Ok None)
  | Some ociMounts =>
      match findDNSMount ociMounts with
      | Some m =>
          match ioutil_ReadFile env (Source m) with
          | Err err =>
              ret (Err (fmtErrorf "Could not read file %s: %s" [Source m; Error err]))
          | Ok content =>
              ret (Ok (Some (strings_Split "010" (string_of_list_byte content))))
          end
      | None => ret (Ok None)
      end
  end.

(** [hostname[:maxHostnameLen]] when the hostname is longer than the
    maximum, the hostname itself otherwise. *)
Definition truncateHostname (hostname : string) : string :=
  if len hostname >? maxHostnameLen
  then substring 0 (Z.to_nat maxHostnameLen) hostname
  else hostname.

Definition startSandbox (sandbox : Sandbox) : Agent (option error) :=
  perr <- startProxy sandbox ;;
  match perr with
  | Some err => ret (Some err)
  | None =>
      err <-
        (let hostname := truncateHostname (sbHostname sandbox) in
         dns <- getDNS sandbox ;;
         match dns with
         | Err err => ret (Some err)
         | Ok dns =>
         cerr <- check ;;
         match cerr with
         | Some err => ret (Some err)
         | None =>
         env <- getEnv ;;
         match generateVCNetworkStructures env sandbox with
         | Err err => ret (Some err)
         | Ok net =>
         ierr <- updateInterfaces (nsInterfaces net) ;;
         match ierr with
         | Some err => ret (Some err)
         | None =>
         rres <- updateRoutes (nsRoutes net) ;;
         match snd rres with
         | Some err => ret (Some err)
         | None =>
         nerr <- addARPNeighbors (nsNeighs net) ;;
         match nerr with
         | Some err => ret (Some err)
         | None =>
         k <- getAgent ;;
         let storages := setupStorages env sandbox in
         let kmodules := setupKernelModules env (kmodules k) in
         let req := {| Hostname := hostname;
                       Dns := match dns with Some d => d | None => [] end;
                       Storages := storages;
                       SandboxPidns := sbSharePidNs sandbox;
                       SandboxId := sbId sandbox;
                       GuestHookPath := sbGuestHookPath sandbox;
                       KernelModules := kmodules |} in
         r <- sendReq (CreateSandboxRequest req) ;;
         match r with
         | Err err => ret (Some err)
         | Ok _ =>
             k' <- getAgent ;;
             if dynamicTracing k' then
               t <- sendReq StartTracingRequest ;;
               match t with
               | Err err => ret (Some err)
               | Ok _ => ret None
               end
             else ret None
         end end end end end end end) ;;
      (* deferred: stop the proxy when the function leaves with an error *)
      match err with
      | Some e =>
          k <- getAgent ;;
          proxyStop (ProxyPid (state k)) ;;; ret (Some e)
      | None => ret None
      end
  end.

(* ===================================================================== *)
(** ** Resource hot-add and file transfer                                  *)
(* ===================================================================== *)

(** The address loop of [memHotplugByProbe].  [index] stays below
    [numSection], itself a converted [uint32], so [index++] cannot wrap. *)
#[local] Unset Equations With Funext.

Equations? probeLoop (addr memorySectionSizeMB numSection index : Z)
  (addrList : list Z) : list Z by wf (Z.to_nat (numSection - index)) lt :=
  probeLoop addr memorySectionSizeMB numSection index addrList
    with Z_lt_dec index numSection => {
    | left _ :=
        probeLoop addr memorySectionSizeMB numSection (index + 1)
          (addrList ++
             [wrap_u64 (addr + wrap_u64 (Z.shiftl (wrap_u64 (index * memorySectionSizeMB)) 20))]);
    | right _ := addrList }.
Proof. lia. Qed.

Definition memHotplugByProbe (addr sizeMB memorySectionSizeMB : Z)
  : Agent (option error) :=
  if memorySectionSizeMB =? 0
  then ret (Some (fmtErrorf "memorySectionSizeMB couldn't be zero" []))
  else
    let numSection := sizeMB / memorySectionSizeMB in
    let addrList := probeLoop addr memorySectionSizeMB numSection 0 [] in
    r <- sendReq (MemHotplugByProbeRequest addrList) ;;
    match r with
    | Err err => ret (Some err)
    | Ok _ => ret None
    end.

Definition set_Data_Offset (data : list Byte.byte) (offset : Z) (r : CopyFileReq)
  : CopyFileReq :=
  {| cfPath := cfPath r; DirMode := DirMode r; FileMode := FileMode r;
     FileSize := FileSize r; Uid := Uid r; Gid := Gid r;
     Data := data; Offset := offset |}.

(** The chunk loop of [copyFile].  [maxDataSize] is the value of the
    package variable [grpcMaxDataSize]; the result is [None] when [fuel]
    iterations did not end the loop. *)
Fixpoint copyLoop (fuel : nat) (maxDataSize : Z) (cpReq : CopyFileReq)
  (b : list Byte.byte) (remainingBytes offset : Z)
  : Agent (option (option error)) :=
  match fuel with
  | O => ret None
  | S fuel' =>
      if remainingBytes >? 0 then
        let bytesToCopy := llen b in
        let bytesToCopy :=
          if bytesToCopy >? maxDataSize then maxDataSize else bytesToCopy in
        let cpReq' :=
          set_Data_Offset (firstn (Z.to_nat bytesToCopy) b) offset cpReq in
        r <- sendReq (CopyFileRequest cpReq') ;;
        match r with
        | Err err =>
            ret (Some (Some (fmtErrorf "Could not send CopyFile request: %v" [Error err])))
        | Ok _ =>
            copyLoop fuel' maxDataSize cpReq'
              (skipn (Z.to_nat bytesToCopy) b)
              (wrap_s64 (remainingBytes - bytesToCopy))
              (wrap_s64 (offset + maxDataSize))
        end
      else ret (Some None)
  end.

Definition copyFileWith (maxDataSize : Z) (fuel : nat) (src dst : string)
  : Agent (option (option error)) :=
  env <- getEnv ;;
  match unix_Stat env src with
  | Err err =>
      ret (Some (Some (fmtErrorf "Could not get file %s information: %v" [src; Error err])))
  | Ok st =>
      match ioutil_ReadFile env src with
      | Err err =>
          ret (Some (Some (fmtErrorf "Could not read file %s: %v" [src; Error err])))
      | Ok b =>
          let fileSize := llen b in
          let cpReq :=
            {| cfPath := dst; DirMode := wrap_u32 (cfg_DirMode env);
               FileMode := st_Mode st; FileSize := fileSize;
               Uid := wrap_s32 (st_Uid st); Gid := wrap_s32 (st_Gid st);
               Data := []; Offset := 0 |} in
          if fileSize =? 0 then
            r <- sendReq (CopyFileRequest cpReq) ;;
            match r with
            | Err err => ret (Some (Some err))
            | Ok _ => ret (Some None)
            end
          else copyLoop fuel maxDataSize cpReq b fileSize 0
      end
  end.

Definition copyFile : nat -> string -> string -> Agent (option (option error)) :=
  copyFileWith grpcMaxDataSize.

(* ===================================================================== *)
(** ** Type translator: command to wire process                            *)
(* ===================================================================== *)

Record EnvVar := { Var : string; Value : string }.

Record Cmd := {
  Args : list string; Envs : list EnvVar; User : string;
  PrimaryGroup : string; SupplementaryGroups : list string;
  WorkDir : string; Interactive : bool }.

Record grpcUser := { UID : Z; GID : Z; AdditionalGids : list Z }.

Record Process := {
  Terminal : bool; pUser : grpcUser; pArgs : list string; pEnv : list string;
  Cwd : string; SelinuxLabel : string }.

Definition grpcUserBits : Z := 32.

Definition cmdEnvsToStringSlice (ev : list EnvVar) : list string :=
  map (fun e => strings_Join [Var e; Value e] "=") ev.

Fixpoint parseExtraGids (groups : list string) (extraGids : list Z)
  : result (list Z) :=
  match groups with
  | [] => Ok extraGids
  | g :: rest =>
      match strconv_ParseUint10 g grpcUserBits with
      | Err err => Err err
      | Ok extraGid => parseExtraGids rest (extraGids ++ [wrap_u32 extraGid])
      end
  end.

Definition cmdToKataProcess (cmd : Cmd) : result Process :=
  let parsedUser := strings_Split ":" (User cmd) in
  if llen parsedUser >? 2
  then Err (fmtErrorf "cmd.User %q format is wrong" [User cmd])
  else
    match strconv_ParseUint10 (nth 0 parsedUser "") grpcUserBits with
    | Err err => Err err
    | Ok i =>
        let uid := wrap_u32 i in
        match (if llen parsedUser >? 1
               then match strconv_ParseUint10 (nth 1 parsedUser "") grpcUserBits with
                    | Err err => Err err
                    | Ok i => Ok (wrap_u32 i)
                    end
               else Ok 0) with
        | Err err => Err err
        | Ok gid =>
            match (if negb (PrimaryGroup cmd =? "")%string
                   then match strconv_ParseUint10 (PrimaryGroup cmd) grpcUserBits with
                        | Err err => Err err
                        | Ok i => Ok (wrap_u32 i)
                        end
                   else Ok gid) with
            | Err err => Err err
            | Ok gid =>
                match parseExtraGids (SupplementaryGroups cmd) [] with
                | Err err => Err err
                | Ok extraGids =>
                    Ok {| Terminal := Interactive cmd;
                          pUser := {| UID := uid; GID := gid;
                                      AdditionalGids := extraGids |};
                          pArgs := Args cmd;
                          pEnv := cmdEnvsToStringSlice (Envs cmd);
                          Cwd := WorkDir cmd;
                          SelinuxLabel := "" |}
                end
            end
        end
    end.

(* ===================================================================== *)
(** ** Mount resolver: block volumes                                       *)
(* ===================================================================== *)

Definition kataGuestSandboxStorageDir : string :=
  filepath_Join [defaultKataGuestSandboxDir; "storage"].

Definition set_Source (src : string) (m : Mount) : Mount :=
  {| Destination := Destination m; mType := mType m; Source := src;
     mOptions := mOptions m |}.

Definition set_MountPoint (mp : string) (v : Storage) : Storage :=
  {| Driver := Driver v; stSource := stSource v; MountPoint := mp;
     Fstype := Fstype v; stOptions := stOptions v |}.

Section ReplaceOCIMounts.

(** [uuid.Generate().String()]: the [n]-th identifier handed out. *)
Variable uuid_Generate : nat -> string.

(** The inner [for index, m = range ociMounts] of
    [replaceOCIMountsForStorages], from position [j] on.  [index] is the
    current value of the variable declared outside the loop; the result
    is its value when the loop is left, the temporary path when a mount
    matched, and the mounts after the body ran. *)
Fixpoint rangeOCIMounts (uuid : string) (mountPoint : string)
  (ociMounts : list Mount) (j : Z) (index : Z)
  : Z * option string * list Mount :=
  match ociMounts with
  | [] => (index, None, [])
  | m :: rest =>
      if negb (Destination m =? mountPoint)%string then
        let '(index', found, rest') :=
          rangeOCIMounts uuid mountPoint rest (j + 1) j in
        (index', found, m :: rest')
      else
        let filename := uuid ++ "-" ++ filepath_Base (Destination m) in
        let path := filepath_Join [kataGuestSandboxStorageDir; filename] in
        (j, Some path, set_Source path m :: rest)
  end.

(** The outer loop over [volumeStorages]; [n] counts the identifiers
    generated so far.  Both slices are updated in place, so their state
    is part of the result also when an error is returned. *)
Fixpoint replaceLoop (ociMounts : list Mount) (volumeStorages : list Storage)
  (index : Z) (n : nat) : option error * list Mount * list Storage :=
  match volumeStorages with
  | [] => (None, ociMounts, [])
  | v :: vs =>
      let '(index', found, ociMounts') :=
        rangeOCIMounts (uuid_Generate n) (MountPoint v) ociMounts 0 index in
      let v' := match found with
                | Some path => set_MountPoint path v
                | None => v
                end in
      let n' := match found with Some _ => S n | None => n end in
      if index' =? llen ociMounts' then
        (Some (fmtErrorf "OCI mount not found for block volume %s" [MountPoint v']),
         ociMounts', v' :: vs)
      else
        let '(err, ms, vs') := replaceLoop ociMounts' vs index' n' in
        (err, ms, v' :: vs')
  end.

Definition replaceOCIMountsForStorages (specMounts : list Mount)
  (volumeStorages : list Storage)
  : option error * list Mount * list Storage :=
  replaceLoop specMounts volumeStorages 0 0%nat.

(** The block-volume step of [createContainer]: the storages appended to
    the container's storage list, or the error the step returns. *)
Definition createContainer_blockVolumes (specMounts : list Mount)
  (ctrStorages volumeStorages : list Storage)
  : result (list Mount * list Storage) :=
  match replaceOCIMountsForStorages specMounts volumeStorages with
  | (Some err, _, _) => Err err
  | (None, mounts', volumeStorages') =>
      Ok (mounts', (ctrStorages ++ volumeStorages')%list)
  end.

End ReplaceOCIMounts.

(* ===================================================================== *)
(** ** Spec constrainer and PID namespace                                  *)
(* ===================================================================== *)

Definition PIDNamespace : string := "pid".
Definition NetworkNamespace : string := "network".
Definition CgroupNamespace : string := "cgroup".

Record LinuxNamespace := { nsType : string; nsPath : string }.

Record LinuxDevice := { devPath : string; devType : string }.

Record LinuxCPU := {
  Shares : Z; Quota : Z; Period : Z; Cpus : string; Mems : string }.

(** Resource subtrees other than the CPU one are kept as opaque values. *)
Record LinuxResources := {
  resDevices : list string; Memory : option string; CPU : option LinuxCPU;
  Pids : option string; BlockIO : option string;
  HugepageLimits : list string; Network : option string }.

Record Linux := {
  Resources : option LinuxResources; CgroupsPath : string;
  Namespaces : list LinuxNamespace; Devices : list LinuxDevice;
  Seccomp : option string }.

Record Spec := {
  spProcess : option Process; Hooks : option string; spLinux : option Linux }.

Definition clearCpuset (c : LinuxCPU) : LinuxCPU :=
  {| Shares := Shares c; Quota := Quota c; Period := Period c;
     Cpus := ""; Mems := "" |}.

Definition constrainResources (r : LinuxResources) : LinuxResources :=
  {| resDevices := []; Memory := Memory r; CPU := option_map clearCpuset (CPU r);
     Pids := None; BlockIO := None; HugepageLimits := []; Network := None |}.

Fixpoint constrainNamespaces (namespaces tmpNamespaces : list LinuxNamespace)
  : list LinuxNamespace :=
  match namespaces with
  | [] => tmpNamespaces
  | ns :: rest =>
      if (nsType ns =? CgroupNamespace)%string then constrainNamespaces rest tmpNamespaces
      else if (nsType ns =? NetworkNamespace)%string then constrainNamespaces rest tmpNamespaces
      else constrainNamespaces rest
             (tmpNamespaces ++ [{| nsType := nsType ns; nsPath := "" |}])
  end.

Fixpoint constrainDevices (devices linuxDevices : list LinuxDevice)
  : list LinuxDevice :=
  match devices with
  | [] => linuxDevices
  | dev :: rest =>
      if (devType dev =? "c")%string && strings_HasPrefix (devPath dev) vfioPath
      then constrainDevices rest linuxDevices
      else constrainDevices rest (linuxDevices ++ [dev])
  end.

Definition set_SelinuxLabel (l : string) (p : Process) : Process :=
  {| Terminal := Terminal p; pUser := pUser p; pArgs := pArgs p;
     pEnv := pEnv p; Cwd := Cwd p; SelinuxLabel := l |}.

Section Constrainer.

(** [vccgroups.IsSystemdCgroup], declared in [pkg/cgroups]. *)
Variable IsSystemdCgroup : string -> bool.

(** The cgroups path sent to the guest; [None] when indexing the split
    path panics. *)
Definition constrainCgroupsPath (cgroupsPath : string) : option string :=
  if IsSystemdCgroup cgroupsPath then
    let slice := strings_Split ":" cgroupsPath in
    match nth_error slice 1, nth_error slice 2 with
    | Some prefix, Some name => Some (filepath_Join ["/"; prefix; name])
    | _, _ => None
    end
  else Some cgroupsPath.

(** [constraintGRPCSpec]; [None] when a nil [Process], [Linux] or
    [Linux.Resources] is dereferenced, or the split path is indexed out
    of range. *)
Definition constraintGRPCSpec (grpcSpec : Spec) (passSeccomp : bool) : option Spec :=
  match spLinux grpcSpec, spProcess grpcSpec with
  | Some linux, Some process =>
      match Resources linux with
      | Some resources =>
          match constrainCgroupsPath (CgroupsPath linux) with
          | Some cgroupsPath =>
              Some {| spProcess :=
                        Some (if negb (SelinuxLabel process =? "")%string
                              then set_SelinuxLabel "" process else process);
                      Hooks := None;
                      spLinux :=
                        Some {| Resources := Some (constrainResources resources);
                                CgroupsPath := cgroupsPath;
                                Namespaces := constrainNamespaces (Namespaces linux) [];
                                Devices := constrainDevices (Devices linux) [];
                                Seccomp := if negb passSeccomp then None
                                           else Seccomp linux |} |}
          | None => None
          end
      | None => None
      end
  | _, _ => None
  end.

End Constrainer.

(** The search loop of [handlePidNamespace] from position [i] on: the
    values of [pidIndex] and [sharedPidNs] when the loop is left. *)
Fixpoint findPidNamespace (namespaces : list LinuxNamespace) (i : Z) : Z * bool :=
  match namespaces with
  | [] => (-1, false)
  | ns :: rest =>
      if negb (nsType ns =? PIDNamespace)%string then findPidNamespace rest (i + 1)
      else (i, negb (nsPath ns =? "")%string)
  end.

Definition set_Namespaces (n : list LinuxNamespace) (l : Linux) : Linux :=
  {| Resources := Resources l; CgroupsPath := CgroupsPath l; Namespaces := n;
     Devices := Devices l; Seccomp := Seccomp l |}.

Definition set_spLinux (l : option Linux) (s : Spec) : Spec :=
  {| spProcess := spProcess s; Hooks := Hooks s; spLinux := l |}.

(** [handlePidNamespace]: the returned flag and the spec after the call;
    [None] when [grpcSpec.Linux] is nil. *)
Definition handlePidNamespace (grpcSpec : Spec) : option (bool * Spec) :=
  match spLinux grpcSpec with
  | None => None
  | Some linux =>
      let '(pidIndex, sharedPidNs) := findPidNamespace (Namespaces linux) 0 in
      if pidIndex >=? 0 then
        let namespaces :=
          (firstn (Z.to_nat pidIndex) (Namespaces linux)
           ++ skipn (Z.to_nat (pidIndex + 1)) (Namespaces linux))%list in
        Some (sharedPidNs, set_spLinux (Some (set_Namespaces namespaces linux)) grpcSpec)
      else Some (sharedPidNs, grpcSpec)
  end.

(* ===================================================================== *)
(** ** Session set-up, reuse and teardown                                  *)
(* ===================================================================== *)

Record KataAgentConfig := {
  LongLiveConn : bool; Trace : bool; TraceMode : string;
  cfgKernelModules : list string }.

Definition agentTraceModeDynamic : string := "dynamic".
Definition agentTraceModeStatic : string := "static".

Definition handleTraceSettings (config : KataAgentConfig) : Agent bool :=
  if negb (Trace config) then ret false
  else if (TraceMode config =? agentTraceModeStatic)%string then ret true
  else if (TraceMode config =? agentTraceModeDynamic)%string
       then modify (set_dynamicTracing true) ;;; ret false
  else ret false.

(** [init] for a configuration of type [KataAgentConfig].  The outcomes of
    [newProxy] and [newShim], the built-in flag of the proxy type and the
    state found in the old store are given by the caller. *)
Definition init (config : KataAgentConfig) (newProxy newShim : option error)
  (builtin : bool) (stored : option KataAgentState)
  : Agent (bool * option error) :=
  disableVMShutdown <- handleTraceSettings config ;;
  modify (set_keepConn (LongLiveConn config)) ;;;
  modify (set_kmodules (cfgKernelModules config)) ;;;
  match newProxy with
  | Some err => modify (set_proxy false) ;;; ret (false, Some err)
  | None =>
      modify (set_proxy true) ;;;
      match newShim with
      | Some err => ret (false, Some err)
      | None =>
          modify (set_proxyBuiltIn builtin) ;;;
          match stored with
          | Some s => modify (set_state s)
          | None => ret tt
          end ;;;
          ret (disableVMShutdown, None)
      end
  end.

(** [internalConfigure]; [generateSocket] is the outcome of the
    hypervisor's socket generation. *)
Definition internalConfigure (generateSocket : option error) (builtin : bool)
  (config : option KataAgentConfig) : Agent (option error) :=
  cerr <- match config with
          | Some c =>
              match generateSocket with
              | Some err => ret (Some err)
              | None => modify (set_keepConn (LongLiveConn c)) ;;; ret None
              end
          | None => ret None
          end ;;
  match cerr with
  | Some err => ret (Some err)
  | None =>
      (if builtin then modify (set_proxyBuiltIn true) else ret tt) ;;;
      ret None
  end.

Definition reuseAgent (a : kataAgent) : Agent (option error) :=
  installReqFunc ;;;
  modify (set_client (client a)) ;;;
  ret None.

Definition load (s : KataAgentState) : Agent unit :=
  modify (set_state s).

Definition stopSandbox : Agent (option error) :=
  k <- getAgent ;;
  if negb (proxy k) then ret (Some errorMissingProxy)
  else
    r <- sendReq DestroySandboxRequest ;;
    match r with
    | Err err => ret (Some err)
    | Ok _ =>
        terr <- (if dynamicTracing k then
                   t <- sendReq StopTracingRequest ;;
                   match t with
                   | Err err => ret (Some err)
                   | Ok _ => ret None
                   end
                 else ret None) ;;
        match terr with
        | Some err => ret (Some err)
        | None =>
            k' <- getAgent ;;
            perr <- proxyStop (ProxyPid (state k')) ;;
            match perr with
            | Some err => ret (Some err)
            | None =>
                (* clean up agent state *)
                modify (set_state {| ProxyPid := -1; URL := "" |}) ;;;
                ret None
            end
        end
    end.

(** The methods of [*kataAgent] that write to the session object or reach
    one that does, as operations a caller can issue in any order. *)
Inductive AgentOp :=
| OpInit (config : KataAgentConfig) (newProxy newShim : option error)
         (builtin : bool) (stored : option KataAgentState)
| OpInternalConfigure (generateSocket : option error) (builtin : bool)
                      (config : option KataAgentConfig)
| OpReuseAgent (a : kataAgent)
| OpSetProxy (pid : Z) (url : string)
| OpSetProxyFromGrpc (pid : Z) (url : string)
| OpLoad (s : KataAgentState)
| OpStartProxy (sandbox : Sandbox)
| OpStartSandbox (sandbox : Sandbox)
| OpStopSandbox
| OpConnect
| OpDisconnect
| OpMarkDead
| OpCheck
| OpSendReq (r : Request)
| OpUpdateInterfaces (interfaces : list (option vcInterface))
| OpUpdateRoutes (routes : option (list (option Route)))
| OpAddARPNeighbors (neighs : option (list (option vcARPNeighbor)))
| OpMemHotplugByProbe (addr sizeMB memorySectionSizeMB : Z)
| OpCopyFile (fuel : nat) (src dst : string).

Definition discard {A} (m : Agent A) : Agent unit := m ;;; ret tt.

Definition runOp (op : AgentOp) : Agent unit :=
  match op with
  | OpInit config newProxy newShim builtin stored =>
      discard (init config newProxy newShim builtin stored)
  | OpInternalConfigure generateSocket builtin config =>
      discard (internalConfigure generateSocket builtin config)
  | OpReuseAgent a => discard (reuseAgent a)
  | OpSetProxy pid url => discard (setProxy pid url)
  | OpSetProxyFromGrpc pid url => setProxyFromGrpc pid url
  | OpLoad s => load s
  | OpStartProxy sandbox => discard (startProxy sandbox)
  | OpStartSandbox sandbox => discard (startSandbox sandbox)
  | OpStopSandbox => discard stopSandbox
  | OpConnect => discard connect
  | OpDisconnect => discard disconnect
  | OpMarkDead => markDead
  | OpCheck => discard check
  | OpSendReq r => discard (sendReq r)
  | OpUpdateInterfaces interfaces => discard (updateInterfaces interfaces)
  | OpUpdateRoutes routes => discard (updateRoutes routes)
  | OpAddARPNeighbors neighs => discard (addARPNeighbors neighs)
  | OpMemHotplugByProbe addr sizeMB memorySectionSizeMB =>
      discard (memHotplugByProbe addr sizeMB memorySectionSizeMB)
  | OpCopyFile fuel src dst => discard (copyFile fuel src dst)
  end.

Fixpoint runOps (ops : list AgentOp) : Agent unit :=
  match ops with
  | [] => ret tt
  | op :: rest => runOp op ;;; runOps rest
  end.

(* ===================================================================== *)
(** ** Observations on runs                                                *)
(* ===================================================================== *)

(** The RPCs among a list of events, with the timeout each was given. *)
Fixpoint calls (evs : list Event) : list (option Z * Request) :=
  match evs with
  | [] => []
  | EvCall _ t r :: rest => (t, r) :: calls rest
  | _ :: rest => calls rest
  end.

(** [preserves I m]: running [m] keeps the invariant [I] of the world. *)
Definition preserves {A} (I : World -> Prop) (m : Agent A) : Prop :=
  forall env w, I w -> I (snd (m env w)).

(** The session is quarantined. *)
Definition isDead (w : World) : Prop := dead (agent w) = true.

(** Every event logged so far satisfies [P]. *)
Definition logged (P : Event -> Prop) (w : World) : Prop := Forall P (log w).

(** Every sandbox-creation request logged carries the hostname [h]. *)
Definition carriesHostname (h : string) (e : Event) : Prop :=
  match e with
  | EvCall _ _ (CreateSandboxRequest r) => Hostname r = h
  | _ => True
  end.

(** The sandbox-creation requests among a list of events. *)
Fixpoint createSandboxCalls (evs : list Event) : list CreateSandboxReq :=
  match evs with
  | [] => []
  | EvCall _ _ (CreateSandboxRequest r) :: rest => r :: createSandboxCalls rest
  | _ :: rest => createSandboxCalls rest
  end.

Definition longHostname : string :=
  "kata-sandbox-0123456789-0123456789-0123456789-0123456789-0123456789-x".

(** A sandbox as the orchestrator receives it. *)
Definition sampleSandbox (hostname : string) : Sandbox := {|
  sbId := "sb"; sbHostname := hostname; sbSharePidNs := false;
  sbGuestHookPath := ""; sbOCIMounts := None |}.

(** The address the loop body of [probeLoop] computes for section [index]. *)
Definition sectionAddr (addr memorySectionSizeMB index : Z) : Z :=
  wrap_u64 (addr + wrap_u64 (Z.shiftl (wrap_u64 (index * memorySectionSizeMB)) 20)).

(** A command run as [user] with primary group [group]. *)
Definition sampleCmd (user group : string) : Cmd := {|
  Args := ["sh"]; Envs := [{| Var := "PATH"; Value := "/bin" |}];
  User := user; PrimaryGroup := group; SupplementaryGroups := ["7"];
  WorkDir := "/"; Interactive := false |}.

(** A guest-bound spec whose PID namespace entry has path [pidPath], and
    the same spec without that entry. *)
Definition sampleLinuxWith (namespaces : list LinuxNamespace) : Linux := {|
  Resources :=
    Some {| resDevices := ["c 1:3 rwm"]; Memory := Some "limit=512MiB";
            CPU := Some {| Shares := 1024; Quota := 50000; Period := 100000;
                           Cpus := "0-3"; Mems := "0" |};
            Pids := Some "limit=100"; BlockIO := None;
            HugepageLimits := []; Network := None |};
  CgroupsPath := "system.slice:docker:abc123";
  Namespaces := namespaces;
  Devices := [{| devPath := "/dev/vfio/12"; devType := "c" |};
              {| devPath := "/dev/null"; devType := "c" |}];
  Seccomp := Some "default" |}.

Definition sampleLinux (pidPath : string) : Linux :=
  sampleLinuxWith [{| nsType := "mount"; nsPath := "" |};
                   {| nsType := "pid"; nsPath := pidPath |};
                   {| nsType := "network"; nsPath := "/var/run/netns/cni-1" |}].

Definition sampleProcess : Process := {|
  Terminal := false;
  pUser := {| UID := 0; GID := 0; AdditionalGids := [] |};
  pArgs := ["sh"]; pEnv := []; Cwd := "/";
  SelinuxLabel := "system_u:system_r:container_t:s0" |}.

Definition sampleSpec (pidPath : string) : Spec := {|
  spProcess := Some sampleProcess; Hooks := Some "prestart";
  spLinux := Some (sampleLinux pidPath) |}.

Definition sampleSpecWithout : Spec := {|
  spProcess := Some sampleProcess; Hooks := Some "prestart";
  spLinux :=
    Some (sampleLinuxWith
            [{| nsType := "mount"; nsPath := "" |};
             {| nsType := "network"; nsPath := "/var/run/netns/cni-1" |}]) |}.

(** The byte [c] occurs in [s]. *)
Fixpoint hasChar (c : ascii) (s : string) : bool :=
  match s with
  | EmptyString => false
  | String c' rest => Ascii.eqb c' c || hasChar c rest
  end.

(** A field of a colon-separated cgroups path. *)
Definition isField (s : string) : bool := negb (hasChar ":" s).

(** A field that is also a path element naming something: not empty, not
    one of the special elements [.] and [..], and free of separators. *)
Definition isName (s : string) : bool :=
  isField s && negb (s =? "")%string && negb (s =? ".")%string
  && negb (s =? "..")%string && negb (hasChar "/" s).

(** Modelled from the spec: [vccgroups.IsSystemdCgroup], which is declared
    in [virtcontainers/pkg/cgroups] and not in [kata_agent.go].  The spec
    describes systemd-slice naming as [slice:prefix:name]: three non-empty
    fields separated by colons. *)
Definition IsSystemdCgroup_model (cgroupPath : string) : bool :=
  match strings_Split ":" cgroupPath with
  | [slice; prefix; name] =>
      negb (slice =? "")%string && negb (prefix =? "")%string
      && negb (name =? "")%string
  | _ => false
  end.

(** A bind mount of the spec and a block-backed volume storage. *)
Definition sampleMount (destination source : string) : Mount := {|
  Destination := destination; mType := "bind"; Source := source;
  mOptions := ["rbind"] |}.

Definition sampleVolume (mountPoint : string) : Storage := {|
  Driver := "blk"; stSource := "/dev/vdb"; MountPoint := mountPoint;
  Fstype := "ext4"; stOptions := [] |}.

(** The chunks of a file transfer in closed form: chunk [i] carries the
    bytes from position [i * maxDataSize] on, at most [maxDataSize] of
    them, at offset [offset + i * maxDataSize]. *)
Definition copyChunk (maxDataSize : Z) (cpReq : CopyFileReq)
  (b : list Byte.byte) (offset : Z) (i : nat) : CopyFileReq :=
  set_Data_Offset
    (firstn (Z.to_nat maxDataSize) (skipn (i * Z.to_nat maxDataSize) b))
    (offset + Z.of_nat i * maxDataSize) cpReq.

(** [ceil(n / maxDataSize)] in integer arithmetic. *)
Definition chunkCount (maxDataSize n : Z) : Z :=
  (n + maxDataSize - 1) / maxDataSize.

Definition copyChunks (maxDataSize : Z) (cpReq : CopyFileReq)
  (b : list Byte.byte) (offset : Z) : list CopyFileReq :=
  map (copyChunk maxDataSize cpReq b offset)
      (seq 0 (Z.to_nat (chunkCount maxDataSize (llen b)))).

(** A [CopyFile] RPC as it appears on the channel. *)
Definition copyCall (r : CopyFileReq) : option Z * Request :=
  (Some defaultRequestTimeout, CopyFileRequest r).

(** The request [copyFile] prepares before any data is attached. *)
Definition copyFileHeader (env : Env) (dst : string) (st : Stat_t)
  (b : list Byte.byte) : CopyFileReq :=
  {| cfPath := dst; DirMode := wrap_u32 (cfg_DirMode env);
     FileMode := st_Mode st; FileSize := llen b;
     Uid := wrap_s32 (st_Uid st); Gid := wrap_s32 (st_Gid st);
     Data := []; Offset := 0 |}.

(* ===================================================================== *)
(** ** Sample environments and sessions                                    *)
(* ===================================================================== *)

(** A guest that accepts the connection and answers every call. *)
Definition cooperativeEnv : Env := {|
  sys_Kill := fun _ _ => None;
  NewAgentClient := fun _ _ _ => Ok 1%nat;
  client_Close := fun _ _ => None;
  client_Call := fun _ _ _ _ => Ok EmptyResponse;
  proxy_consoleWatched := fun _ => false;
  proxy_start := fun _ _ _ => Ok (42, "unix:///run/vc/sbs/sb/proxy.sock");
  proxy_stop := fun _ _ => None;
  agentURL := Ok "unix:///run/vc/vm/sb/kata.sock";
  getSandboxConsole := fun _ => Ok "/run/vc/vm/sb/console.sock";
  unix_Stat := fun _ => Ok {| st_Mode := 420; st_Uid := 0; st_Gid := 0 |};
  ioutil_ReadFile := fun _ => Ok [Byte.x6b; Byte.x61; Byte.x74; Byte.x61; Byte.x0a];
  generateVCNetworkStructures :=
    fun _ => Ok {| nsInterfaces := []; nsRoutes := None; nsNeighs := None |};
  setupStorages := fun _ => [];
  setupKernelModules := fun _ => [];
  cfg_DirMode := 2147484136 |}.

(** A guest whose channel cannot be dialled. *)
Definition unreachableEnv : Env := {|
  sys_Kill := fun _ _ => None;
  NewAgentClient := fun _ _ _ => Err (statusError Unavailable "connection refused");
  client_Close := fun _ _ => None;
  client_Call := fun _ _ _ _ => Ok EmptyResponse;
  proxy_consoleWatched := fun _ => false;
  proxy_start := fun _ _ _ => Ok (42, "unix:///run/vc/sbs/sb/proxy.sock");
  proxy_stop := fun _ _ => None;
  agentURL := Ok "unix:///run/vc/vm/sb/kata.sock";
  getSandboxConsole := fun _ => Ok "/run/vc/vm/sb/console.sock";
  unix_Stat := fun _ => Ok {| st_Mode := 420; st_Uid := 0; st_Gid := 0 |};
  ioutil_ReadFile := fun _ => Ok [];
  generateVCNetworkStructures :=
    fun _ => Ok {| nsInterfaces := []; nsRoutes := None; nsNeighs := None |};
  setupStorages := fun _ => [];
  setupKernelModules := fun _ => [];
  cfg_DirMode := 2147484136 |}.

(** A guest that accepts the connection and answers each call as [answer]
    says. *)
Definition guestEnv (answer : Request -> result Response) : Env := {|
  sys_Kill := fun _ _ => None;
  NewAgentClient := fun _ _ _ => Ok 1%nat;
  client_Close := fun _ _ => None;
  client_Call := fun _ _ _ r => answer r;
  proxy_consoleWatched := fun _ => false;
  proxy_start := fun _ _ _ => Ok (42, "unix:///run/vc/sbs/sb/proxy.sock");
  proxy_stop := fun _ _ => None;
  agentURL := Ok "unix:///run/vc/vm/sb/kata.sock";
  getSandboxConsole := fun _ => Ok "/run/vc/vm/sb/console.sock";
  unix_Stat := fun _ => Ok {| st_Mode := 420; st_Uid := 0; st_Gid := 0 |};
  ioutil_ReadFile := fun _ => Ok [];
  generateVCNetworkStructures :=
    fun _ => Ok {| nsInterfaces := []; nsRoutes := None; nsNeighs := None |};
  setupStorages := fun _ => [];
  setupKernelModules := fun _ => [];
  cfg_DirMode := 2147484136 |}.

(** A session right after [init]: proxy set, nothing connected. *)
Definition freshAgent : kataAgent :=
  mkAgent true None None {| ProxyPid := 0; URL := "" |} false false false false [].

Definition freshWorld : World := {| agent := freshAgent; log := [] |}.

(* ===================================================================== *)
(** ** Guest paths                                                         *)
(* ===================================================================== *)

(** [%d] of [fmt.Sprintf] and [strconv.FormatUint(n, 10)]. *)
Definition fmt_d (n : Z) : string := NilZero.string_of_int (Z.to_int n).

Definition defaultKataGuestSharedDir : string :=
  "/run/kata-containers/shared/containers/".
Definition KataEphemeralDevType : string := "ephemeral".
Definition kataEphemeralDevType : string := "ephemeral".
Definition KataLocalDevType : string := "local".
Definition shmDir : string := "shm".
Definition localDirOptions : list string := ["mode=0777"].
Definition defaultEphemeralPath : string :=
  filepath_Join [defaultKataGuestSandboxDir; kataEphemeralDevType].

(** [rootless.IsRootless()] and [rootless.GetRootlessDir()]: [Some dir] in
    rootless mode. *)
Definition kataGuestSharedDir (rootless : option string) : string :=
  match rootless with
  | Some dir => filepath_Join [dir; defaultKataGuestSharedDir] ++ "/"
  | None => defaultKataGuestSharedDir
  end.

Definition kataGuestSandboxDir (rootless : option string) : string :=
  match rootless with
  | Some dir => filepath_Join [dir; defaultKataGuestSandboxDir] ++ "/"
  | None => defaultKataGuestSandboxDir
  end.

Definition ephemeralPath (rootless : option string) : string :=
  match rootless with
  | Some _ => filepath_Join [kataGuestSandboxDir rootless; kataEphemeralDevType]
  | None => defaultEphemeralPath
  end.

(* ===================================================================== *)
(** ** Mount resolver: spec mounts                                         *)
(* ===================================================================== *)

(** [virtcontainers.Mount], as far as the agent client reads it. *)
Record vcMount := {
  vmSource : string; vmDestination : string; vmType : string;
  vmOptions : list string; BlockDeviceID : string }.

(** The loop of [removeIgnoredOCIMount]; [mounts] is the list built so
    far. *)
Fixpoint removeIgnoredLoop (ignoredMounts : string -> option vcMount)
  (specMounts mounts : list Mount) : list Mount :=
  match specMounts with
  | [] => mounts
  | m :: rest =>
      match ignoredMounts (Source m) with
      | Some _ => removeIgnoredLoop ignoredMounts rest mounts
      | None => removeIgnoredLoop ignoredMounts rest (mounts ++ [m])
      end
  end.

Definition removeIgnoredOCIMount (ignoredMounts : string -> option vcMount)
  (specMounts : list Mount) : list Mount :=
  removeIgnoredLoop ignoredMounts specMounts [].

(** [handleShm]: the mounts after the call.  [shmSize] is the sandbox's
    shared-memory size, [DefaultShmSize] the constant of that name. *)
Fixpoint handleShm (rootless : option string) (shmSize DefaultShmSize : Z)
  (mounts : list Mount) : list Mount :=
  match mounts with
  | [] => []
  | mnt :: rest =>
      (if negb (Destination mnt =? "/dev/shm")%string then mnt
       else if (mType mnt =? KataEphemeralDevType)%string then mnt
       else if shmSize >? 0 then
         {| Destination := Destination mnt; mType := "bind";
            Source := filepath_Join [kataGuestSandboxDir rootless; shmDir];
            mOptions := ["rbind"] |}
       else
         {| Destination := Destination mnt; mType := "tmpfs";
            Source := "shm";
            mOptions := ["noexec"; "nosuid"; "nodev"; "mode=1777";
                         "size=" ++ fmt_d DefaultShmSize] |})
      :: handleShm rootless shmSize DefaultShmSize rest
  end.

(** [handleEphemeralStorage]: the mounts after the call and the storages
    returned; [epheStorages] is the list built so far. *)
Fixpoint ephemeralLoop (rootless : option string) (mounts : list Mount)
  (epheStorages : list Storage) : list Mount * list Storage :=
  match mounts with
  | [] => ([], epheStorages)
  | mnt :: rest =>
      if (mType mnt =? KataEphemeralDevType)%string then
        let source := filepath_Join [ephemeralPath rootless;
                                     filepath_Base (Source mnt)] in
        let mnt' := {| Destination := Destination mnt; mType := "bind";
                       Source := source; mOptions := mOptions mnt |} in
        let epheStorage := {| Driver := KataEphemeralDevType;
                              stSource := "tmpfs"; MountPoint := source;
                              Fstype := "tmpfs"; stOptions := [] |} in
        let '(rest', storages) :=
          ephemeralLoop rootless rest (epheStorages ++ [epheStorage]) in
        (mnt' :: rest', storages)
      else
        let '(rest', storages) := ephemeralLoop rootless rest epheStorages in
        (mnt :: rest', storages)
  end.

Definition handleEphemeralStorage (rootless : option string)
  (mounts : list Mount) : list Mount * list Storage :=
  ephemeralLoop rootless mounts [].

(** [handleLocalStorage], in the same way. *)
Fixpoint localLoop (rootless : option string) (sandboxID rootfsSuffix : string)
  (mounts : list Mount) (localStorages : list Storage)
  : list Mount * list Storage :=
  match mounts with
  | [] => ([], localStorages)
  | mnt :: rest =>
      if (mType mnt =? KataLocalDevType)%string then
        let source := filepath_Join [kataGuestSharedDir rootless; sandboxID;
                                     rootfsSuffix; KataLocalDevType;
                                     filepath_Base (Source mnt)] in
        let mnt' := set_Source source mnt in
        let localStorage := {| Driver := KataLocalDevType;
                               stSource := KataLocalDevType;
                               MountPoint := source;
                               Fstype := KataLocalDevType;
                               stOptions := localDirOptions |} in
        let '(rest', storages) :=
          localLoop rootless sandboxID rootfsSuffix rest
            (localStorages ++ [localStorage]) in
        (mnt' :: rest', storages)
      else
        let '(rest', storages) :=
          localLoop rootless sandboxID rootfsSuffix rest localStorages in
        (mnt :: rest', storages)
  end.

Definition handleLocalStorage (rootless : option string)
  (sandboxID rootfsSuffix : string) (mounts : list Mount)
  : list Mount * list Storage :=
  localLoop rootless sandboxID rootfsSuffix mounts [].

(** *** Notions used to state what the mount passes do *)

Definition keptMount (ignoredMounts : string -> option vcMount) (m : Mount) : bool :=
  match ignoredMounts (Source m) with
  | Some _ => false
  | None => true
  end.

Definition isEphemeral (m : Mount) : bool :=
  (mType m =? KataEphemeralDevType)%string.

Definition isLocal (m : Mount) : bool := (mType m =? KataLocalDevType)%string.

Definition isShmMount (m : Mount) : bool := (Destination m =? "/dev/shm")%string.

(** The guest path of an ephemeral or local volume. *)
Definition ephemeralSource (rootless : option string) (m : Mount) : string :=
  filepath_Join [ephemeralPath rootless; filepath_Base (Source m)].

Definition localSource (rootless : option string)
  (sandboxID rootfsSuffix : string) (m : Mount) : string :=
  filepath_Join [kataGuestSharedDir rootless; sandboxID; rootfsSuffix;
                 KataLocalDevType; filepath_Base (Source m)].

Definition ephemeralStorageAt (mountPoint : string) : Storage :=
  {| Driver := "ephemeral"; stSource := "tmpfs"; MountPoint := mountPoint;
     Fstype := "tmpfs"; stOptions := [] |}.

Definition localStorageAt (mountPoint : string) : Storage :=
  {| Driver := "local"; stSource := "local"; MountPoint := mountPoint;
     Fstype := "local"; stOptions := ["mode=0777"] |}.

(** *** Notions used to state what the spec constrainer does *)

(** A namespace the guest is told of: neither the network nor the cgroup
    namespace. *)
Definition guestNamespace (ns : LinuxNamespace) : bool :=
  negb (nsType ns =? "cgroup")%string && negb (nsType ns =? "network")%string.

(** A character device below the VFIO directory. *)
Definition isVfioCharDevice (dev : LinuxDevice) : bool :=
  (devType dev =? "c")%string && String.prefix "/dev/vfio/" (devPath dev).

(** The sample spec after the constrainer has run. *)
Definition sampleConstrainedSpec : Spec := {|
  spProcess := Some (set_SelinuxLabel "" sampleProcess);
  Hooks := None;
  spLinux :=
    Some {| Resources :=
              Some {| resDevices := []; Memory := Some "limit=512MiB";
                      CPU := Some {| Shares := 1024; Quota := 50000;
                                     Period := 100000;
                                     Cpus := ""; Mems := "" |};
                      Pids := None; BlockIO := None;
                      HugepageLimits := []; Network := None |};
            CgroupsPath := "/docker/abc123";
            Namespaces := [{| nsType := "mount"; nsPath := "" |};
                           {| nsType := "pid"; nsPath := "" |}];
            Devices := [{| devPath := "/dev/null"; devType := "c" |}];
            Seccomp := None |} |}.

(** The two passes [createContainer] runs over the converted spec, in the
    order of the source: [handlePidNamespace] first, whose flag goes into
    the request, then [constraintGRPCSpec]. *)
Definition createContainer_grpcSpec (IsSystemdCgroup : string -> bool)
  (grpcSpec : Spec) (passSeccomp : bool) : option (bool * Spec) :=
  match handlePidNamespace grpcSpec with
  | None => None
  | Some (sharedPidNs, spec1) =>
      match constraintGRPCSpec IsSystemdCgroup spec1 passSeccomp with
      | None => None
      | Some spec2 => Some (sharedPidNs, spec2)
      end
  end.

(** The handler map is installed whenever the client pointer is set. *)
Definition wired (w : World) : Prop :=
  client (agent w) <> None -> reqHandlers (agent w) = Some registeredRequests.

(** The sample spec as [createContainer] sends it: the PID namespace taken
    out, then constrained. *)
Definition sampleConstrainedWithout : Spec :=
  set_spLinux
    (option_map (set_Namespaces [{| nsType := "mount"; nsPath := "" |}])
                (spLinux sampleConstrainedSpec))
    sampleConstrainedSpec.

(** The session after [disconnect] has dropped the channel. *)
Definition dropped (k : kataAgent) : kataAgent :=
  set_reqHandlers None (set_client None k).

(** The session after [client.Close] on a set client returned [cerr]. *)
Definition afterClose (cerr : option error) (k : kataAgent) : kataAgent :=
  match cerr with
  | Some err =>
      if Code_eqb (Convert_Code err) Canceled then dropped k else k
  | None => dropped k
  end.

(** The session after [connect] has dialled and obtained the client [c]. *)
Definition connected (c : AgentClient) (k : kataAgent) : kataAgent :=
  set_client (Some c) (set_reqHandlers (Some registeredRequests) k).

(** Sample sessions and environments: a long-lived connection, a recorded
    proxy pid, a proxy that is gone, and channels whose close fails. *)
Definition longLivedAgent : kataAgent := set_keepConn true freshAgent.

Definition proxiedAgent : kataAgent :=
  set_state {| ProxyPid := 42; URL := "unix:///run/vc/sbs/sb/proxy.sock" |}
            freshAgent.

Definition withKill (outcome : option error) (env : Env) : Env := {|
  sys_Kill := fun _ _ => outcome;
  NewAgentClient := NewAgentClient env;
  client_Close := client_Close env;
  client_Call := client_Call env;
  proxy_consoleWatched := proxy_consoleWatched env;
  proxy_start := proxy_start env;
  proxy_stop := proxy_stop env;
  agentURL := agentURL env;
  getSandboxConsole := getSandboxConsole env;
  unix_Stat := unix_Stat env;
  ioutil_ReadFile := ioutil_ReadFile env;
  generateVCNetworkStructures := generateVCNetworkStructures env;
  setupStorages := setupStorages env;
  setupKernelModules := setupKernelModules env;
  cfg_DirMode := cfg_DirMode env |}.

Definition withClose (outcome : option error) (env : Env) : Env := {|
  sys_Kill := sys_Kill env;
  NewAgentClient := NewAgentClient env;
  client_Close := fun _ _ => outcome;
  client_Call := client_Call env;
  proxy_consoleWatched := proxy_consoleWatched env;
  proxy_start := proxy_start env;
  proxy_stop := proxy_stop env;
  agentURL := agentURL env;
  getSandboxConsole := getSandboxConsole env;
  unix_Stat := unix_Stat env;
  ioutil_ReadFile := ioutil_ReadFile env;
  generateVCNetworkStructures := generateVCNetworkStructures env;
  setupStorages := setupStorages env;
  setupKernelModules := setupKernelModules env;
  cfg_DirMode := cfg_DirMode env |}.

(** The calls [startSandbox] puts on the channel, as (timeout, request)
    pairs. *)
Definition checkCall : option Z * Request :=
  (Some checkRequestTimeout, CheckRequest).

Definition interfaceCall (ifc : option vcInterface) : option Z * Request :=
  (Some defaultRequestTimeout,
   UpdateInterfaceRequest (convertToKataAgentInterface ifc)).

Definition routesCalls (routes : option (list (option Route)))
  : list (option Z * Request) :=
  match routes with
  | Some rs =>
      [(Some defaultRequestTimeout,
        UpdateRoutesRequest (convertToKataAgentRoutes rs))]
  | None => []
  end.

Definition neighborsCalls (neighs : option (list (option vcARPNeighbor)))
  : list (option Z * Request) :=
  match neighs with
  | Some ns =>
      [(Some defaultRequestTimeout,
        AddARPNeighborsRequest (convertToKataAgentNeighbors ns))]
  | None => []
  end.

Definition tracingCalls (dynamic : bool) (r : Request)
  : list (option Z * Request) :=
  if dynamic then [(Some defaultRequestTimeout, r)] else [].

(** The value of the dynamic-tracing flag of the session is [b]. *)
Definition tracingIs (b : bool) (w : World) : Prop :=
  dynamicTracing (agent w) = b.

(** The persisted state of the session is [s]. *)
Definition stateIs (s : KataAgentState) (w : World) : Prop :=
  state (agent w) = s.

(** The log of the world extends [l0]. *)
Definition extends (l0 : list Event) (w : World) : Prop :=
  exists evs, log w = (l0 ++ evs)%list.

(** A sample network and an environment that reports it. *)
Definition sampleInterface : vcInterface := {|
  ifDevice := "eth0"; ifName := "eth0";
  ifIPAddresses := [Some {| ipFamily := 2; ipAddress := "10.0.0.2"; ipMask := "24" |}];
  ifMtu := 1500; ifRawFlags := 0; ifHwAddr := "02:42:0a:00:00:02";
  ifPciPath := "" |}.

Definition sampleNetwork : NetworkStructures := {|
  nsInterfaces := [Some sampleInterface; Some sampleInterface];
  nsRoutes := Some [];
  nsNeighs := None |}.

Definition withNetwork (net : NetworkStructures) (env : Env) : Env := {|
  sys_Kill := sys_Kill env;
  NewAgentClient := NewAgentClient env;
  client_Close := client_Close env;
  client_Call := client_Call env;
  proxy_consoleWatched := proxy_consoleWatched env;
  proxy_start := proxy_start env;
  proxy_stop := proxy_stop env;
  agentURL := agentURL env;
  getSandboxConsole := getSandboxConsole env;
  unix_Stat := unix_Stat env;
  ioutil_ReadFile := ioutil_ReadFile env;
  generateVCNetworkStructures := fun _ => Ok net;
  setupStorages := setupStorages env;
  setupKernelModules := setupKernelModules env;
  cfg_DirMode := cfg_DirMode env |}.

(** A guest that refuses interface updates. *)
Definition refusesInterfaces (r : Request) : result Response :=
  match r with
  | UpdateInterfaceRequest _ => Err (statusError Internal "no such device")
  | _ => Ok EmptyResponse
  end.

(** A guest that refuses the update of a nil interface. *)
Definition refusesNilInterface (r : Request) : result Response :=
  match r with
  | UpdateInterfaceRequest None => Err (statusError Internal "no such device")
  | _ => Ok EmptyResponse
  end.

(** *** Notions used to state what the numeric fields of a command mean *)

(** The number a string of decimal digits denotes, continuing from [n];
    [None] when a character is not a digit. *)
Fixpoint decimalFrom (s : string) (n : Z) : option Z :=
  match s with
  | EmptyString => Some n
  | String c rest =>
      match digit_of c with
      | Some d => decimalFrom rest (n * 10 + d)
      | None => None
      end
  end.

Definition decimalValue (s : string) : option Z :=
  if (s =? "")%string then None else decimalFrom s 0.

(** [s] is the decimal notation of [n], and [n] fits 32 bits. *)
Definition isUint32 (s : string) (n : Z) : Prop :=
  decimalValue s = Some n /\ n < 2 ^ 32.

(** A command with a uid, a gid and supplementary groups up to the largest
    32-bit value. *)
Definition numericCmd : Cmd := {|
  Args := ["sh"]; Envs := []; User := "1000:100";
  PrimaryGroup := ""; SupplementaryGroups := ["10"; "4294967295"];
  WorkDir := "/"; Interactive := false |}.

(* ===================================================================== *)
(** ** Agent configuration: tracing options and kernel parameters          *)
(* ===================================================================== *)

Definition agentTraceTypeIsolated : string := "isolated".
Definition agentTraceTypeCollated : string := "collated".
Definition defaultAgentTraceMode : string := agentTraceModeDynamic.
Definition defaultAgentTraceType : string := agentTraceTypeIsolated.

(** The fields of the Go struct [KataAgentConfig] that the record of that
    name above leaves out; a configuration is the pair of both. *)
Record KataAgentConfigRest := {
  UseVSock : bool; Debug : bool; ContainerPipeSize : Z; TraceType : string }.

Definition set_TraceMode (m : string) (c : KataAgentConfig) : KataAgentConfig :=
  {| LongLiveConn := LongLiveConn c; Trace := Trace c; TraceMode := m;
     cfgKernelModules := cfgKernelModules c |}.

Definition set_TraceType (t : string) (r : KataAgentConfigRest)
  : KataAgentConfigRest :=
  {| UseVSock := UseVSock r; Debug := Debug r;
     ContainerPipeSize := ContainerPipeSize r; TraceType := t |}.

(** [KataAgentSetDefaultTraceConfigOptions]: the configuration after the
    call and the error returned. *)
Definition KataAgentSetDefaultTraceConfigOptions
  (config : KataAgentConfig * KataAgentConfigRest)
  : (KataAgentConfig * KataAgentConfigRest) * option error :=
  let '(c, r) := config in
  if negb (Trace c) then (config, None)
  else
    match (if (TraceMode c =? agentTraceModeDynamic)%string then Ok c
           else if (TraceMode c =? agentTraceModeStatic)%string then Ok c
           else if (TraceMode c =? "")%string
                then Ok (set_TraceMode defaultAgentTraceMode c)
           else Err (fmtErrorf
                       "invalid kata agent trace mode: %q (need %q or %q)"
                       [TraceMode c; agentTraceModeDynamic;
                        agentTraceModeStatic])) with
    | Err err => (config, Some err)
    | Ok c' =>
        if (TraceType r =? agentTraceTypeIsolated)%string then ((c', r), None)
        else if (TraceType r =? agentTraceTypeCollated)%string then ((c', r), None)
        else if (TraceType r =? "")%string
             then ((c', set_TraceType defaultAgentTraceType r), None)
        else ((c', r),
              Some (fmtErrorf
                      "invalid kata agent trace type: %q (need %q or %q)"
                      [TraceType r; agentTraceTypeIsolated;
                       agentTraceTypeCollated]))
    end.

Record Param := { Key : string; pValue : string }.

(** [KataAgentKernelParams]; the name of the pipe-size parameter is a
    constant of another package. *)
Definition KataAgentKernelParams (ContainerPipeSizeKernelParam : string)
  (config : KataAgentConfig * KataAgentConfigRest) : list Param :=
  let '(c, r) := config in
  let params := [] in
  let params :=
    if Debug r then (params ++ [{| Key := "agent.log"; pValue := "debug" |}])%list
    else params in
  let params :=
    if Trace c && (TraceMode c =? agentTraceModeStatic)%string
    then (params ++ [{| Key := "agent.trace"; pValue := TraceType r |}])%list
    else params in
  let params :=
    if ContainerPipeSize r >? 0
    then (params ++ [{| Key := ContainerPipeSizeKernelParam;
                        pValue := fmt_d (wrap_u64 (ContainerPipeSize r)) |}])%list
    else params in
  params.

(** A trace mode and a trace type the agent knows. *)
Definition knownTraceMode (m : string) : Prop :=
  m = agentTraceModeDynamic \/ m = agentTraceModeStatic.

Definition knownTraceType (t : string) : Prop :=
  t = agentTraceTypeIsolated \/ t = agentTraceTypeCollated.

(** A configuration that asks for tracing without saying how. *)
Definition tracingConfig (mode type : string)
  : KataAgentConfig * KataAgentConfigRest :=
  ({| LongLiveConn := false; Trace := true; TraceMode := mode;
      cfgKernelModules := [] |},
   {| UseVSock := false; Debug := true; ContainerPipeSize := 0;
      TraceType := type |}).

(* ===================================================================== *)
(** ** Sharing the PID namespace with the agent                            *)
(* ===================================================================== *)

Definition agentPidEnv : string := "KATA_AGENT_PIDNS".

(** [strconv.ParseBool]. *)
Definition strconv_ParseBool (str : string) : result bool :=
  if existsb (String.eqb str) ["1"; "t"; "T"; "true"; "TRUE"; "True"] then Ok true
  else if existsb (String.eqb str) ["0"; "f"; "F"; "false"; "FALSE"; "False"]
       then Ok false
  else Err (numError "ParseBool" str ErrSyntax).

(** The loop of [checkAgentPidNs]; [agentPidNs] is the value so far. *)
Fixpoint checkAgentPidNsLoop (envs : list EnvVar) (agentPidNs : bool) : bool :=
  match envs with
  | [] => agentPidNs
  | env :: rest =>
      if (Var env =? agentPidEnv)%string then
        match strconv_ParseBool (Value env) with
        | Ok val => checkAgentPidNsLoop rest val
        | Err _ => checkAgentPidNsLoop rest agentPidNs
        end
      else checkAgentPidNsLoop rest agentPidNs
  end.

Definition checkAgentPidNs (cmd : Cmd) : bool :=
  checkAgentPidNsLoop (Envs cmd) false.

(** The value [createContainer] puts into [AgentPidns]. *)
Definition createContainer_agentPidNs (EnableAgentPidNs : bool) (cmd : Cmd)
  : bool :=
  let agentPidNs := checkAgentPidNs cmd in
  if agentPidNs then
    if negb EnableAgentPidNs then false else agentPidNs
  else agentPidNs.

(** The environment entry sets the agent PID-namespace variable to a value
    [strconv.ParseBool] reads as [b]. *)
Definition setsAgentPidNs (b : bool) (e : EnvVar) : Prop :=
  Var e = agentPidEnv /\ strconv_ParseBool (Value e) = Ok b.

(** The entry leaves the value alone: another variable, or a value that
    does not parse. *)
Definition ignoredForPidNs (e : EnvVar) : Prop :=
  forall b, ~ setsAgentPidNs b e.

Definition envCmd (envs : list EnvVar) : Cmd := {|
  Args := ["sh"]; Envs := envs; User := "0"; PrimaryGroup := "";
  SupplementaryGroups := []; WorkDir := "/"; Interactive := false |}.

(* ===================================================================== *)
(** ** Devices, block volumes and the block-based rootfs                   *)
(* ===================================================================== *)

Definition kataMmioBlkDevType : string := "mmioblk".
Definition kataBlkDevType : string := "blk".
Definition kataBlkCCWDevType : string := "blk-ccw".
Definition kataSCSIDevType : string := "scsi".
Definition kataNvdimmDevType : string := "nvdimm".

(** [config.BlockDrive], as far as it is read here.  [PCIPath_String] and
    [PCIPath_IsNil] are the results of the two methods of its PCI path. *)
Record BlockDrive := {
  Pmem : bool; NvdimmID : string; Format : string; DevNo : string;
  PCIPath_String : string; PCIPath_IsNil : bool;
  VirtPath : string; SCSIAddr : string }.

Record VhostUserDeviceAttrs := { vuPCIPath_String : string }.

(** The dynamic type of [device.GetDeviceInfo()]; a typed pointer may be
    nil. *)
Inductive DeviceInfo :=
| InfoBlockDrive (d : option BlockDrive)
| InfoVhostUser (d : option VhostUserDeviceAttrs)
| InfoOther.

(** [device.DeviceType()], as far as the switches tell the values apart. *)
Inductive DeviceType := DeviceBlock | VhostUserBlk | DeviceOtherType.

Record apiDevice := { DeviceType_of : DeviceType; GetDeviceInfo : DeviceInfo }.

(** [HypervisorConfig.BlockDeviceDriver], as far as the switches tell the
    values apart (the five constants of the switch in [appendBlockDevice]
    are pairwise distinct, or the switch would not compile). *)
Inductive BlockDeviceDriver :=
| VirtioMmio | VirtioBlockCCW | VirtioBlock | VirtioSCSI | Nvdimm
| OtherDriver (name : string).

Record ContainerDevice := { cdID : string; cdContainerPath : string }.

(** [grpc.Device]. *)
Record grpcDevice := {
  dId : string; dType : string; dVmPath : string; dContainerPath : string }.

Section Devices.

(** [c.sandbox.devManager.GetDeviceByID], the configured block driver and
    the string it is printed as. *)
Variable GetDeviceByID : string -> option apiDevice.
Variable driver : BlockDeviceDriver.
Variable driverName : string.

(** [appendBlockDevice]: [None] is a panic (a method called on a nil
    device), [Some None] the nil result. *)
Definition appendBlockDevice (dev : ContainerDevice) : option (option grpcDevice) :=
  match GetDeviceByID (cdID dev) with
  | None => None
  | Some device =>
      match GetDeviceInfo device with
      | InfoBlockDrive (Some d) =>
          if Pmem d then Some None
          else
            Some (Some
              match driver with
              | VirtioMmio =>
                  {| dId := VirtPath d; dType := kataMmioBlkDevType;
                     dVmPath := VirtPath d;
                     dContainerPath := cdContainerPath dev |}
              | VirtioBlockCCW =>
                  {| dId := DevNo d; dType := kataBlkCCWDevType; dVmPath := "";
                     dContainerPath := cdContainerPath dev |}
              | VirtioBlock =>
                  {| dId := PCIPath_String d; dType := kataBlkDevType;
                     dVmPath := VirtPath d;
                     dContainerPath := cdContainerPath dev |}
              | VirtioSCSI =>
                  {| dId := SCSIAddr d; dType := kataSCSIDevType; dVmPath := "";
                     dContainerPath := cdContainerPath dev |}
              | Nvdimm =>
                  {| dId := ""; dType := kataNvdimmDevType;
                     dVmPath := fmt_Sprintf "/dev/pmem%s" [NvdimmID d];
                     dContainerPath := cdContainerPath dev |}
              | OtherDriver _ =>
                  {| dId := ""; dType := ""; dVmPath := "";
                     dContainerPath := cdContainerPath dev |}
              end)
      | _ => Some None
      end
  end.

Definition appendVhostUserBlkDevice (dev : ContainerDevice)
  : option (option grpcDevice) :=
  match GetDeviceByID (cdID dev) with
  | None => None
  | Some device =>
      match GetDeviceInfo device with
      | InfoVhostUser (Some d) =>
          Some (Some {| dId := vuPCIPath_String d; dType := kataBlkDevType;
                        dVmPath := "";
                        dContainerPath := cdContainerPath dev |})
      | _ => Some None
      end
  end.

(** The loop of [appendDevices].  [kataDevice] is the variable of that
    name, declared before the loop and so carried from one iteration to
    the next.  [None] is a panic; the nil slice is the empty list. *)
Fixpoint appendDevicesLoop (devices : list ContainerDevice)
  (kataDevice : option grpcDevice) (deviceList : list grpcDevice)
  : option (list grpcDevice) :=
  match devices with
  | [] => Some deviceList
  | dev :: rest =>
      match GetDeviceByID (cdID dev) with
      | None => Some []
      | Some device =>
          match (match DeviceType_of device with
                 | DeviceBlock => appendBlockDevice dev
                 | VhostUserBlk => appendVhostUserBlkDevice dev
                 | DeviceOtherType => Some kataDevice
                 end) with
          | None => None
          | Some None => appendDevicesLoop rest None deviceList
          | Some (Some kd) =>
              appendDevicesLoop rest (Some kd) (deviceList ++ [kd])
          end
      end
  end.

Definition appendDevices (deviceList : list grpcDevice)
  (devices : list ContainerDevice) : option (list grpcDevice) :=
  appendDevicesLoop devices None deviceList.

(** The driver and source a block drive gets in a storage, shared by the
    rootfs and the volume code; [None] for a driver neither knows. *)
Definition set_vol (driver0 source : string) (vol : Storage) : Storage :=
  {| Driver := driver0; stSource := source; MountPoint := MountPoint vol;
     Fstype := Fstype vol; stOptions := stOptions vol |}.

Definition emptyStorage : Storage :=
  {| Driver := ""; stSource := ""; MountPoint := ""; Fstype := "";
     stOptions := [] |}.

(** [handleDeviceBlockVolume]. *)
Definition handleDeviceBlockVolume (m : vcMount) (device : apiDevice)
  : result Storage :=
  match GetDeviceInfo device with
  | InfoBlockDrive (Some blockDrive) =>
      match
        (if Pmem blockDrive then
           Ok {| Driver := kataNvdimmDevType;
                 stSource := fmt_Sprintf "/dev/pmem%s" [NvdimmID blockDrive];
                 MountPoint := ""; Fstype := Format blockDrive;
                 stOptions := ["dax"] |}
         else
           match driver with
           | VirtioBlockCCW => Ok (set_vol kataBlkCCWDevType (DevNo blockDrive)
                                           emptyStorage)
           | VirtioBlock =>
               Ok (set_vol kataBlkDevType
                     (if PCIPath_IsNil blockDrive then VirtPath blockDrive
                      else PCIPath_String blockDrive) emptyStorage)
           | VirtioMmio => Ok (set_vol kataMmioBlkDevType (VirtPath blockDrive)
                                       emptyStorage)
           | VirtioSCSI => Ok (set_vol kataSCSIDevType (SCSIAddr blockDrive)
                                       emptyStorage)
           | _ => Err (fmtErrorf "Unknown block device driver: %s"
                                 [driverName])
           end) with
      | Err err => Err err
      | Ok vol =>
          Ok {| Driver := Driver vol; stSource := stSource vol;
                MountPoint := vmDestination m;
                Fstype := if (Fstype vol =? "")%string then vmType m
                          else Fstype vol;
                stOptions := if llen (stOptions vol) =? 0 then vmOptions m
                             else stOptions vol |}
      end
  | _ => Err (fmtErrorf "malformed block drive" [])
  end.




(** The block-device branch of [buildContainerRootfs], up to the creation
    of the mount directory: the storage of a rootfs on the block device
    [BlockDeviceID] with file system [fsType]. *)
Definition buildContainerRootfs_block (fsType blockDeviceID rootPathParent : string)
  : result Storage :=
  match GetDeviceByID blockDeviceID with
  | None => Err (fmtErrorf "failed to find device by id %q" [blockDeviceID])
  | Some device =>
      match GetDeviceInfo device with
      | InfoBlockDrive (Some blockDrive) =>
          match
            (match driver with
             | VirtioMmio => Ok (kataMmioBlkDevType, VirtPath blockDrive)
             | VirtioBlockCCW => Ok (kataBlkCCWDevType, DevNo blockDrive)
             | VirtioBlock =>
                 Ok (kataBlkDevType,
                     if PCIPath_IsNil blockDrive then VirtPath blockDrive
                     else PCIPath_String blockDrive)
             | VirtioSCSI => Ok (kataSCSIDevType, SCSIAddr blockDrive)
             | _ => Err (fmtErrorf "Unknown block device driver: %s"
                                   [driverName])
             end) with
          | Err err => Err err
          | Ok (drv, src) =>
              Ok {| Driver := drv; stSource := src;
                    MountPoint := rootPathParent; Fstype := fsType;
                    stOptions := if (fsType =? "xfs")%string then ["nouuid"]
                                 else [] |}
          end
      | _ => Err (fmtErrorf "malformed block drive" [])
      end
  end.

End Devices.

(** *** Notions used to state what the device passes do *)

(** What one container device contributes to the device list when its
    type is one the loop converts. *)
Definition convertedDevice (GetDeviceByID : string -> option apiDevice)
  (driver : BlockDeviceDriver) (dev : ContainerDevice) : list grpcDevice :=
  match GetDeviceByID (cdID dev) with
  | Some device =>
      match (match DeviceType_of device with
             | DeviceBlock => appendBlockDevice GetDeviceByID driver dev
             | VhostUserBlk => appendVhostUserBlkDevice GetDeviceByID dev
             | DeviceOtherType => Some None
             end) with
      | Some (Some kd) => [kd]
      | _ => []
      end
  | None => []
  end.

(** The device is known and of a type the loop converts. *)
Definition convertible (GetDeviceByID : string -> option apiDevice)
  (dev : ContainerDevice) : Prop :=
  exists device,
    GetDeviceByID (cdID dev) = Some device
    /\ DeviceType_of device <> DeviceOtherType.




(** Sample devices: a block drive, a persistent-memory drive, a VFIO
    device. *)
Definition sampleDrive (pmem : bool) : BlockDrive := {|
  Pmem := pmem; NvdimmID := "0"; Format := "ext4"; DevNo := "0.0.0001";
  PCIPath_String := "02"; PCIPath_IsNil := false;
  VirtPath := "/dev/vda"; SCSIAddr := "0:0" |}.

Definition sampleDevManager (id : string) : option apiDevice :=
  if (id =? "blk0")%string
  then Some {| DeviceType_of := DeviceBlock;
               GetDeviceInfo := InfoBlockDrive (Some (sampleDrive false)) |}
  else if (id =? "pmem0")%string
  then Some {| DeviceType_of := DeviceBlock;
               GetDeviceInfo := InfoBlockDrive (Some (sampleDrive true)) |}
  else if (id =? "vfio0")%string
  then Some {| DeviceType_of := DeviceOtherType; GetDeviceInfo := InfoOther |}
  else None.


(* ===================================================================== *)
(** ** Sandbox storages                                                    *)
(* ===================================================================== *)

Definition mountGuestTag : string := "kataShared".
Definition type9pFs : string := "9p".
Definition typeVirtioFS : string := "virtiofs".
Definition typeVirtioFSNoCache : string := "none".
Definition kata9pDevType : string := "9p".
Definition kataVirtioFSDevType : string := "virtio-fs".
Definition sharedDirVirtioFSDaxOptions : string := "dax".

(** The package-level option slices, which [setupStorages] appends to. *)
Record Globals := {
  sharedDir9pOptions : list string;
  sharedDirVirtioFSOptions : list string }.

(** Their values when the package is initialised. *)
Definition initialGlobals : Globals := {|
  sharedDir9pOptions := ["trans=virtio,version=9p2000.L,cache=mmap"; "nodev"];
  sharedDirVirtioFSOptions := [] |}.

(** What [setupStorages] reads of the sandbox: the hypervisor's
    file-sharing capability, whether the shared file system is virtio-fs,
    and the sizes. *)
Record StorageConfig := {
  IsFsSharingSupported : bool;
  SharedFS_isVirtioFS : bool;
  VirtioFSCache : string;
  VirtioFSCacheSize : Z;
  Msize9p : Z;
  shmSize : Z }.

(** The function [setupStorages] of the source (the field of that name in
    [Env] stands for it in [startSandbox]): the storages returned and the
    package-level slices after the call. *)
Definition setupStorages_run (rootless : option string) (sandbox : StorageConfig)
  (g : Globals) : list Storage * Globals :=
  let '(storages, g) :=
    if IsFsSharingSupported sandbox then
      if SharedFS_isVirtioFS sandbox then
        let g' :=
          if negb (VirtioFSCache sandbox =? typeVirtioFSNoCache)%string
          then if negb (VirtioFSCacheSize sandbox =? 0)
               then {| sharedDir9pOptions := sharedDir9pOptions g;
                       sharedDirVirtioFSOptions :=
                         (sharedDirVirtioFSOptions g
                          ++ [sharedDirVirtioFSDaxOptions])%list |}
               else g
          else g in
        ([{| Driver := kataVirtioFSDevType; stSource := mountGuestTag;
             MountPoint := kataGuestSharedDir rootless; Fstype := typeVirtioFS;
             stOptions := sharedDirVirtioFSOptions g' |}], g')
      else
        let g' := {| sharedDir9pOptions :=
                       (sharedDir9pOptions g
                        ++ [fmt_Sprintf "msize=%d" [fmt_d (Msize9p sandbox)]])%list;
                     sharedDirVirtioFSOptions := sharedDirVirtioFSOptions g |} in
        ([{| Driver := kata9pDevType; stSource := mountGuestTag;
             MountPoint := kataGuestSharedDir rootless; Fstype := type9pFs;
             stOptions := sharedDir9pOptions g' |}], g')
    else ([], g) in
  if shmSize sandbox >? 0 then
    ((storages
      ++ [{| Driver := KataEphemeralDevType; stSource := "shm";
             MountPoint := filepath_Join [kataGuestSandboxDir rootless; shmDir];
             Fstype := "tmpfs";
             stOptions := ["noexec"; "nosuid"; "nodev"; "mode=1777";
                           fmt_Sprintf "size=%d" [fmt_d (shmSize sandbox)]] |}])%list,
     g)
  else (storages, g).

(** [setupStorages] for one sandbox after another in the same process. *)
Fixpoint setupStorages_each (rootless : option string)
  (sandboxes : list StorageConfig) (g : Globals) : list (list Storage) :=
  match sandboxes with
  | [] => []
  | sandbox :: rest =>
      let '(storages, g') := setupStorages_run rootless sandbox g in
      storages :: setupStorages_each rootless rest g'
  end.

Definition shares9p (sandbox : StorageConfig) : bool :=
  IsFsSharingSupported sandbox && negb (SharedFS_isVirtioFS sandbox).

Definition msizeOption (sandbox : StorageConfig) : string :=
  fmt_Sprintf "msize=%d" [fmt_d (Msize9p sandbox)].

Definition sandbox9p (msize : Z) : StorageConfig := {|
  IsFsSharingSupported := true; SharedFS_isVirtioFS := false;
  VirtioFSCache := ""; VirtioFSCacheSize := 0; Msize9p := msize;
  shmSize := 67108864 |}.

(* ===================================================================== *)
(** ** Type translator: from the agent's network types back                *)
(* ===================================================================== *)

Definition convertToIPFamily (ipFamily : Z) : Z :=
  if ipFamily =? IPFamily_v4 then FAMILY_V4
  else if ipFamily =? IPFamily_v6 then FAMILY_V6
  else FAMILY_V4.

Fixpoint convertToIPAddresses (aIPAddrs : list (option IPAddress))
  : list IPAddress :=
  match aIPAddrs with
  | [] => []
  | None :: rest => convertToIPAddresses rest
  | Some a :: rest =>
      {| ipFamily := convertToIPFamily (ipFamily a);
         ipAddress := ipAddress a; ipMask := ipMask a |}
      :: convertToIPAddresses rest
  end.

Fixpoint convertToRoutes (aRoutes : list (option Route)) : list Route :=
  match aRoutes with
  | [] => []
  | None :: rest => convertToRoutes rest
  | Some aRoute :: rest => aRoute :: convertToRoutes rest
  end.

(** The non-nil entries of a slice of pointers. *)
Fixpoint present {A} (l : list (option A)) : list A :=
  match l with
  | [] => []
  | None :: rest => present rest
  | Some a :: rest => a :: present rest
  end.

(** An address whose family is one of the two the translation knows. *)
Definition knownFamily (a : IPAddress) : Prop :=
  ipFamily a = FAMILY_V4 \/ ipFamily a = FAMILY_V6.

Definition asV4 (a : IPAddress) : IPAddress :=
  {| ipFamily := FAMILY_V4; ipAddress := ipAddress a; ipMask := ipMask a |}.

(* ===================================================================== *)
(** ** Notions used to state what [replaceOCIMountsForStorages] does       *)
(* ===================================================================== *)

(** The source of the first mount at [destination]. *)
Definition sourceAt (destination : string) (mounts : list Mount) : option string :=
  option_map Source
    (find (fun m => (Destination m =? destination)%string) mounts).

(** The temporary guest path a block volume is mounted at. *)
Definition guestVolumePath (uuid mountPoint : string) : string :=
  filepath_Join [kataGuestSandboxStorageDir;
                 uuid ++ "-" ++ filepath_Base mountPoint].

(** How [replaceOCIMountsForStorages] leaves a volume: as it was when no
    mount of [before] is at its mount point, and otherwise at a temporary
    path which the first mount at its former mount point has, in [after],
    as its source. *)
Definition volumeReplaced (uuid_Generate : nat -> string)
  (before after : list Mount) (v v' : Storage) : Prop :=
  match sourceAt (MountPoint v) before with
  | None => v' = v
  | Some _ =>
      exists n,
        v' = set_MountPoint (guestVolumePath (uuid_Generate n) (MountPoint v)) v
        /\ sourceAt (MountPoint v) after = Some (MountPoint v')
  end.

(** A sandbox whose spec mounts a resolver file, and an environment in
    which that file cannot be read. *)
Definition dnsSandbox : Sandbox := {|
  sbId := "sb"; sbHostname := "kata"; sbSharePidNs := false;
  sbGuestHookPath := "";
  sbOCIMounts := Some [sampleMount "/etc/hosts" "/host/hosts";
                       sampleMount "/etc/resolv.conf" "/host/resolv.conf"] |}.

Definition withReadFile (outcome : result (list Byte.byte)) (env : Env) : Env := {|
  sys_Kill := sys_Kill env;
  NewAgentClient := NewAgentClient env;
  client_Close := client_Close env;
  client_Call := client_Call env;
  proxy_consoleWatched := proxy_consoleWatched env;
  proxy_start := proxy_start env;
  proxy_stop := proxy_stop env;
  agentURL := agentURL env;
  getSandboxConsole := getSandboxConsole env;
  unix_Stat := unix_Stat env;
  ioutil_ReadFile := fun _ => outcome;
  generateVCNetworkStructures := generateVCNetworkStructures env;
  setupStorages := setupStorages env;
  setupKernelModules := setupKernelModules env;
  cfg_DirMode := cfg_DirMode env |}.

(* ===================================================================== *)
(** ** Notions used to state when requests go through                      *)
(* ===================================================================== *)

(** A guest that is there and answers: the probe of the proxy finds the
    process, the channel can be dialled, and every call returns a
    response. *)
Definition alwaysAnswers (env : Env) : Prop :=
  (forall l pid, sys_Kill env l pid = None)
  /\ (forall l url builtin, exists c, NewAgentClient env l url builtin = Ok c)
  /\ (forall l c ctx r, exists resp, client_Call env l c ctx r = Ok resp).

(** A file of two full chunks and five bytes. *)
Definition threeChunkFile : list Byte.byte :=
  repeat Byte.x2e (2 * 1024 * 1024 + 5)%nat.

(** [sendReq] after its [connect] has returned nil: the handler lookup and
    the call of the handler.  No lock is held here. *)
Definition sendReq_dispatch (request : Request) : Agent (result Response) :=
  k' <- getAgent ;;
  let msgName := MessageName request in
  if (msgName =? "")%string || negb (hasHandler (reqHandlers k') msgName)
  then ret (Err (errorsNew "Invalid request type"))
  else handler (getReqContext msgName) request.

(** The [disconnect] that [sendReq] defers when the connection is not
    kept. *)
Definition sendReq_deferred (keep : bool) : Agent unit :=
  if negb keep then disconnect ;;; ret tt else ret tt.

(** Two callers of [sendReq] on one session, in this schedule: the first
    caller connects; the second caller's request runs from its start to
    its end; then the first caller looks its handler up.  The result is
    what the first caller gets and, when its [connect] returned nil, what
    the second caller gets. *)
Definition sendReq_interleaved (first second : Request)
  : Agent (result Response * option (result Response)) :=
  cerr <- connect ;;
  match cerr with
  | Some err => ret (Err err, None)
  | None =>
      k <- getAgent ;;
      other <- sendReq second ;;
      mine <- sendReq_dispatch first ;;
      sendReq_deferred (keepConn k) ;;;
      ret (mine, Some other)
  end.

(* ===================================================================== *)
(** ** Proofs: library facts                                               *)
(* ===================================================================== *)

Lemma calls_app (a b : list Event) : calls (a ++ b) = (calls a ++ calls b)%list.
Proof.
  induction a as [|e a IH]; simpl; [reflexivity|].
  destruct e; simpl; rewrite IH; reflexivity.
Qed.

Ltac agent_unfold :=
  unfold bind, ret, io, modify, getAgent, getEnv in *; simpl in *.

Section Preserves.

Context (I : World -> Prop).

Lemma preserves_ret {A} (a : A) : preserves I (ret a).
Proof. intros env w H; exact H. Qed.

Lemma preserves_bind {A B} (m : Agent A) (f : A -> Agent B) :
  preserves I m -> (forall a, preserves I (f a)) -> preserves I (bind m f).
Proof.
  intros Hm Hf env w H. unfold bind.
  specialize (Hm env w H). destruct (m env w) as [a w']. simpl in Hm.
  apply Hf, Hm.
Qed.

Lemma preserves_getAgent : preserves I getAgent.
Proof. intros env w H; exact H. Qed.

Lemma preserves_getEnv : preserves I getEnv.
Proof. intros env w H; exact H. Qed.

Lemma preserves_read {A} (f : Env -> World -> A) :
  preserves I (fun env w => (f env w, w)).
Proof. intros env w H; exact H. Qed.

End Preserves.

Create HintDb preserves.
#[local] Hint Resolve preserves_ret preserves_getAgent preserves_getEnv
  preserves_read : preserves.

(** One step of a proof that an action preserves an invariant: follow the
    structure of the action. *)
Ltac preserves_step :=
  match goal with
  | |- preserves _ (bind _ _) => apply preserves_bind; [| intros ?]
  | |- preserves _ (match ?x with _ => _ end) => destruct x
  | |- preserves _ (let _ := _ in _) => cbv zeta
  | |- preserves _ _ => solve [eauto with preserves]
  end.

Ltac preserves_auto := repeat preserves_step.

(** *** The dead flag *)

Lemma preserves_dead_io {A} (f : Env -> list Event -> A) (e : Event) :
  preserves isDead (io f e).
Proof. intros env w H; exact H. Qed.

Lemma preserves_dead_modify (f : kataAgent -> kataAgent) :
  (forall k, dead k = true -> dead (f k) = true) ->
  preserves isDead (modify f).
Proof. intros Hf env w H. apply Hf, H. Qed.

#[local] Hint Resolve preserves_dead_io : preserves.
#[local] Hint Extern 1 (preserves isDead (modify _)) =>
  (apply preserves_dead_modify; intros [] ?; simpl in *; congruence) : preserves.

Lemma connect_preserves_dead : preserves isDead connect.
Proof. unfold connect, installReqFunc. preserves_auto. Qed.

Lemma disconnect_preserves_dead : preserves isDead disconnect.
Proof. unfold disconnect. preserves_auto. Qed.

Lemma markDead_preserves_dead : preserves isDead markDead.
Proof.
  unfold markDead. pose proof disconnect_preserves_dead. preserves_auto.
Qed.

Lemma handler_preserves_dead ctx r : preserves isDead (handler ctx r).
Proof. unfold handler. preserves_auto. Qed.

#[local] Hint Resolve connect_preserves_dead disconnect_preserves_dead
  markDead_preserves_dead handler_preserves_dead : preserves.

Lemma sendReq_preserves_dead r : preserves isDead (sendReq r).
Proof. unfold sendReq. preserves_auto. Qed.

#[local] Hint Resolve sendReq_preserves_dead : preserves.

(** *** What one [sendReq] does on the channel *)

Ltac destruct_head_match :=
  match goal with
  | |- context [match ?x with _ => _ end] =>
      lazymatch x with
      | context [match _ with _ => _ end] => fail
      | _ => destruct x eqn:?
      end
  end.

Ltac log_suffix :=
  simpl; rewrite <- ?app_assoc;
  first [reflexivity | symmetry; apply app_nil_r].

Lemma sendReq_calls (r : Request) env w :
  exists evs,
    log (snd (sendReq r env w)) = (log w ++ evs)%list
    /\ (calls evs = [] \/ calls evs = [(getReqContext (MessageName r), r)])
    /\ (forall resp, fst (sendReq r env w) = Ok resp ->
        calls evs = [(getReqContext (MessageName r), r)]).
Proof.
  unfold sendReq, connect, disconnect, handler, installReqFunc.
  agent_unfold.
  repeat (destruct_head_match; simpl);
    (eexists; split; [log_suffix | simpl; split; [auto | intros; try discriminate; auto]]).
Qed.

(** After a successful [connect] the client pointer is set, so the handler
    [sendReq] calls next finds it. *)
Lemma connect_ok_client env w :
  fst (connect env w) = None -> client (agent (snd (connect env w))) <> None.
Proof.
  unfold connect, installReqFunc. agent_unfold.
  repeat (destruct_head_match; simpl); intros H; congruence.
Qed.

Example getReqContext_names :
  map getReqContext
      ["grpc.CheckRequest"; "grpc.WaitProcessRequest"; "grpc.GetOOMEventRequest";
       "grpc.CreateSandboxRequest"; "grpc.Unregistered"]
  = [Some 30000000000; None; None; Some 60000000000; Some 60000000000].
Proof. reflexivity. Qed.

(* ===================================================================== *)
(** ** Request dispatcher: timeout policy                                  *)
(* ===================================================================== *)

Lemma getReqContext_default (reqName : string) :
  reqName <> grpcCheckRequest ->
  reqName <> grpcWaitProcessRequest ->
  reqName <> grpcGetOOMEventRequest ->
  getReqContext reqName = Some defaultRequestTimeout.
Proof.
  intros Hc Hw Ho. unfold getReqContext.
  apply String.eqb_neq in Hc, Hw, Ho. rewrite Hc, Hw, Ho. reflexivity.
Qed.

(** C7. The health-check request gets the 30 s timeout, wait-process and
    OOM-event requests get no timeout, and every other request gets the
    60 s timeout: this holds of [getReqContext] on every request name, of
    every request kind, and of every RPC [sendReq] puts on the channel. *)
Theorem getReqContext_timeout_policy :
  getReqContext grpcCheckRequest = Some (30 * 1000000000)
  /\ getReqContext grpcWaitProcessRequest = None
  /\ getReqContext grpcGetOOMEventRequest = None
  /\ (forall reqName : string,
        reqName <> grpcCheckRequest ->
        reqName <> grpcWaitProcessRequest ->
        reqName <> grpcGetOOMEventRequest ->
        getReqContext reqName = Some (60 * 1000000000))
  /\ (forall r : Request,
        getReqContext (MessageName r) =
        match r with
        | CheckRequest => Some (30 * 1000000000)
        | WaitProcessRequest | GetOOMEventRequest => None
        | _ => Some (60 * 1000000000)
        end)
  /\ (forall (r : Request) env w,
        exists evs,
          log (snd (sendReq r env w)) = (log w ++ evs)%list
          /\ forall t r', In (t, r') (calls evs) ->
               r' = r /\ t = getReqContext (MessageName r)).
Proof.
  split; [reflexivity|]. split; [reflexivity|]. split; [reflexivity|].
  split; [exact getReqContext_default|].
  split; [intros []; reflexivity|].
  intros r env w.
  destruct (sendReq_calls r env w) as (evs & Hlog & Hcalls & _).
  exists evs. split; [exact Hlog|].
  intros t r' Hin.
  destruct Hcalls as [H | H]; rewrite H in Hin; simpl in Hin.
  - contradiction.
  - destruct Hin as [Heq | []]. inversion Heq; subst. auto.
Qed.

Lemma getReqContext_timeout_policy_witness :
  "grpc.CopyFileRequest" <> grpcCheckRequest
  /\ "grpc.CopyFileRequest" <> grpcWaitProcessRequest
  /\ "grpc.CopyFileRequest" <> grpcGetOOMEventRequest
  /\ getReqContext "grpc.CopyFileRequest" = Some (60 * 1000000000).
Proof.
  assert (H1 : "grpc.CopyFileRequest" <> grpcCheckRequest) by discriminate.
  assert (H2 : "grpc.CopyFileRequest" <> grpcWaitProcessRequest) by discriminate.
  assert (H3 : "grpc.CopyFileRequest" <> grpcGetOOMEventRequest) by discriminate.
  split; [exact H1|]. split; [exact H2|]. split; [exact H3|].
  exact (proj1 (proj2 (proj2 (proj2 getReqContext_timeout_policy)))
           "grpc.CopyFileRequest" H1 H2 H3).
Defined.

(* ===================================================================== *)
(** ** Connection manager: the dead flag                                   *)
(* ===================================================================== *)

Lemma check_preserves_dead : preserves isDead check.
Proof. unfold check. preserves_auto. Qed.

Lemma updateInterfaces_preserves_dead l : preserves isDead (updateInterfaces l).
Proof.
  induction l as [|ifc l IH]; simpl; [auto with preserves|].
  unfold updateInterface. preserves_auto.
Qed.

Lemma updateRoutes_preserves_dead r : preserves isDead (updateRoutes r).
Proof. unfold updateRoutes. preserves_auto. Qed.

Lemma addARPNeighbors_preserves_dead n : preserves isDead (addARPNeighbors n).
Proof. unfold addARPNeighbors. preserves_auto. Qed.

Lemma setProxy_preserves_dead pid url : preserves isDead (setProxy pid url).
Proof. unfold setProxy, proxyStop. preserves_auto. Qed.

#[local] Hint Resolve check_preserves_dead updateInterfaces_preserves_dead
  updateRoutes_preserves_dead addARPNeighbors_preserves_dead
  setProxy_preserves_dead : preserves.

Lemma startProxy_preserves_dead sb : preserves isDead (startProxy sb).
Proof. unfold startProxy, proxyStop. preserves_auto. Qed.

Lemma getDNS_preserves_dead sb : preserves isDead (getDNS sb).
Proof. unfold getDNS. preserves_auto. Qed.

#[local] Hint Resolve startProxy_preserves_dead getDNS_preserves_dead : preserves.

Lemma startSandbox_preserves_dead sb : preserves isDead (startSandbox sb).
Proof. unfold startSandbox, proxyStop. preserves_auto. Qed.

Lemma stopSandbox_preserves_dead : preserves isDead stopSandbox.
Proof. unfold stopSandbox, proxyStop. preserves_auto. Qed.

Lemma memHotplugByProbe_preserves_dead a s m :
  preserves isDead (memHotplugByProbe a s m).
Proof. unfold memHotplugByProbe. preserves_auto. Qed.

Lemma copyLoop_preserves_dead fuel chunk cpReq b rem off :
  preserves isDead (copyLoop fuel chunk cpReq b rem off).
Proof.
  revert cpReq b rem off.
  induction fuel as [|fuel IH]; intros; simpl; [auto with preserves|].
  preserves_auto.
Qed.

#[local] Hint Resolve copyLoop_preserves_dead : preserves.

Lemma copyFile_preserves_dead fuel src dst :
  preserves isDead (copyFile fuel src dst).
Proof. unfold copyFile, copyFileWith. preserves_auto. Qed.

Lemma init_preserves_dead c p s b st : preserves isDead (init c p s b st).
Proof. unfold init, handleTraceSettings. preserves_auto. Qed.

Lemma internalConfigure_preserves_dead g b c :
  preserves isDead (internalConfigure g b c).
Proof. unfold internalConfigure. preserves_auto. Qed.

Lemma reuseAgent_preserves_dead a : preserves isDead (reuseAgent a).
Proof. unfold reuseAgent, installReqFunc. preserves_auto. Qed.

#[local] Hint Resolve startSandbox_preserves_dead stopSandbox_preserves_dead
  memHotplugByProbe_preserves_dead copyFile_preserves_dead
  init_preserves_dead internalConfigure_preserves_dead
  reuseAgent_preserves_dead : preserves.

Lemma runOp_preserves_dead op : preserves isDead (runOp op).
Proof.
  destruct op; unfold runOp, discard, setProxyFromGrpc, load; preserves_auto.
Qed.

Lemma runOps_preserves_dead ops : preserves isDead (runOps ops).
Proof.
  induction ops as [|op ops IH]; simpl; [auto with preserves|].
  pose proof (runOp_preserves_dead op). preserves_auto.
Qed.

Lemma connect_dead_no_io env w :
  dead (agent w) = true ->
  connect env w = (Some (errorsNew "Dead agent"), w).
Proof.
  intros H. unfold connect. agent_unfold. rewrite H. reflexivity.
Qed.

(** [connect] dials at the log extended by the liveness probe of the
    companion proxy when a proxy pid is recorded. *)
Lemma connect_dial_failure env w e :
  dead (agent w) = false ->
  client (agent w) = None ->
  (ProxyPid (state (agent w)) > 0 ->
   sys_Kill env (log w) (ProxyPid (state (agent w))) = None) ->
  NewAgentClient env
    (if ProxyPid (state (agent w)) >? 0
     then log w ++ [EvKill (ProxyPid (state (agent w)))] else log w)%list
    (URL (state (agent w))) (proxyBuiltIn (agent w)) = Err e ->
  fst (connect env w) = Some e
  /\ dead (agent (snd (connect env w))) = true.
Proof.
  intros Hd Hc Hk Hdial. unfold connect. agent_unfold.
  rewrite Hd, Hc.
  destruct (ProxyPid (state (agent w)) >? 0) eqn:Hp; simpl.
  - rewrite Hk by lia. simpl. rewrite Hdial. simpl. auto.
  - rewrite Hdial. simpl. auto.
Qed.

(** C4. A dial failure in [connect] marks the session dead; on a dead
    session [connect] returns the "Dead agent" error leaving the session
    and the log of I/O events untouched (no liveness probe, no dial); and
    no sequence of operations on the session clears the flag. *)
Theorem connect_dead_quarantine :
  (forall env w e,
      dead (agent w) = false ->
      client (agent w) = None ->
      (ProxyPid (state (agent w)) > 0 ->
       sys_Kill env (log w) (ProxyPid (state (agent w))) = None) ->
      NewAgentClient env
        (if ProxyPid (state (agent w)) >? 0
         then log w ++ [EvKill (ProxyPid (state (agent w)))] else log w)%list
        (URL (state (agent w))) (proxyBuiltIn (agent w)) = Err e ->
      fst (connect env w) = Some e
      /\ dead (agent (snd (connect env w))) = true)
  /\ (forall env w,
        dead (agent w) = true ->
        fst (connect env w) = Some (errorsNew "Dead agent")
        /\ log (snd (connect env w)) = log w
        /\ agent (snd (connect env w)) = agent w)
  /\ (forall (ops : list AgentOp) env w,
        dead (agent w) = true ->
        dead (agent (snd (runOps ops env w))) = true).
Proof.
  split; [exact connect_dial_failure|]. split.
  - intros env w H. rewrite (connect_dead_no_io env w H). auto.
  - intros ops env w H. exact (runOps_preserves_dead ops env w H).
Qed.

Lemma connect_dead_quarantine_witness :
  dead (agent (snd (connect unreachableEnv freshWorld))) = true
  /\ connect unreachableEnv (snd (connect unreachableEnv freshWorld))
     = (Some (errorsNew "Dead agent"), snd (connect unreachableEnv freshWorld))
  /\ dead (agent (snd (runOps [OpDisconnect; OpLoad {| ProxyPid := 9; URL := "u" |};
                                OpConnect; OpSendReq CheckRequest]
                               cooperativeEnv
                               (snd (connect unreachableEnv freshWorld))))) = true.
Proof.
  pose proof (proj1 connect_dead_quarantine unreachableEnv freshWorld
                (statusError Unavailable "connection refused")
                eq_refl eq_refl (fun _ => eq_refl) eq_refl) as [_ Hdead].
  split; [exact Hdead|]. split.
  - apply connect_dead_no_io. exact Hdead.
  - apply (proj2 (proj2 connect_dead_quarantine)). exact Hdead.
Defined.

(* ===================================================================== *)
(** ** Network configuration: ARP neighbours                               *)
(* ===================================================================== *)

(** On a live, connected session [sendReq] returns what the guest answers
    to that call. *)
Lemma registered_hasHandler (r : Request) :
  (MessageName r =? "")%string
  || negb (hasHandler (Some registeredRequests) (MessageName r)) = false.
Proof. destruct r; reflexivity. Qed.

Lemma sendReq_connected (r : Request) env w c :
  dead (agent w) = false ->
  client (agent w) = Some c ->
  reqHandlers (agent w) = Some registeredRequests ->
  fst (sendReq r env w) =
  client_Call env (log w) c (getReqContext (MessageName r)) r.
Proof.
  intros Hd Hc Hh. unfold sendReq, connect, handler, disconnect.
  unfold bind, ret, io, modify, getAgent, getEnv.
  repeat (cbv beta iota; cbn [agent log];
          rewrite ?Hd, ?Hc, ?Hh, ?registered_hasHandler).
  destruct (keepConn (agent w)); cbn [negb fst]; [reflexivity|].
  repeat (cbv beta iota; cbn [agent log]; rewrite ?Hc).
  destruct (client_Close _ _ _); cbv beta iota; [|reflexivity].
  destruct (negb _); reflexivity.
Qed.

Lemma addARPNeighbors_result ns env w :
  fst (addARPNeighbors (Some ns) env w) =
  match fst (sendReq (AddARPNeighborsRequest (convertToKataAgentNeighbors ns)) env w) with
  | Ok _ => None
  | Err err =>
      if Code_eqb (Convert_Code err) Unimplemented then None else Some err
  end.
Proof.
  unfold addARPNeighbors. agent_unfold.
  destruct (sendReq _ env w) as [[resp | err] w']; simpl; [reflexivity|].
  destruct (Code_eqb _ _); reflexivity.
Qed.

Lemma Code_eqb_eq (a b : Code) : Code_eqb a b = true <-> a = b.
Proof. destruct a, b; simpl; split; intros H; congruence. Qed.

(** C6. For a non-nil neighbour list, [addARPNeighbors] returns nil when
    the request fails with the "unimplemented" status and returns the
    error itself for every other failure; in particular, on a connected
    session, whatever failure the guest reports for the ARP-neighbour-add
    call is returned unless its code is "unimplemented". *)
Theorem addARPNeighbors_unimplemented_tolerated
  (neighs : list (option vcARPNeighbor)) (env : Env) (w : World) :
  let req := AddARPNeighborsRequest (convertToKataAgentNeighbors neighs) in
  (forall err,
      fst (sendReq req env w) = Err err ->
      Convert_Code err = Unimplemented ->
      fst (addARPNeighbors (Some neighs) env w) = None)
  /\ (forall err,
        fst (sendReq req env w) = Err err ->
        Convert_Code err <> Unimplemented ->
        fst (addARPNeighbors (Some neighs) env w) = Some err)
  /\ (forall c code msg,
        dead (agent w) = false ->
        client (agent w) = Some c ->
        reqHandlers (agent w) = Some registeredRequests ->
        client_Call env (log w) c (Some defaultRequestTimeout) req
        = Err (statusError code msg) ->
        fst (addARPNeighbors (Some neighs) env w) =
        match code with
        | Unimplemented => None
        | _ => Some (statusError code msg)
        end).
Proof.
  intros req. split; [|split].
  - intros err Hs Hc. rewrite addARPNeighbors_result. fold req. rewrite Hs.
    apply Code_eqb_eq in Hc. rewrite Hc. reflexivity.
  - intros err Hs Hc. rewrite addARPNeighbors_result. fold req. rewrite Hs.
    destruct (Code_eqb (Convert_Code err) Unimplemented) eqn:E; [|reflexivity].
    apply Code_eqb_eq in E. contradiction.
  - intros c code msg Hd Hc Hh Hcall.
    rewrite addARPNeighbors_result. fold req.
    rewrite (sendReq_connected req env w c Hd Hc Hh).
    change (getReqContext (MessageName req)) with (Some defaultRequestTimeout).
    rewrite Hcall. destruct code; reflexivity.
Qed.

Lemma addARPNeighbors_unimplemented_tolerated_witness :
  fst (addARPNeighbors (Some [])
         (guestEnv (fun _ => Err (statusError Unimplemented "unknown method")))
         freshWorld) = None
  /\ fst (addARPNeighbors (Some [])
            (guestEnv (fun _ => Err (statusError Internal "netlink failure")))
            freshWorld) = Some (statusError Internal "netlink failure").
Proof.
  split.
  - exact (proj1 (addARPNeighbors_unimplemented_tolerated []
                    (guestEnv (fun _ => Err (statusError Unimplemented "unknown method")))
                    freshWorld)
             (statusError Unimplemented "unknown method") eq_refl eq_refl).
  - refine (proj1 (proj2 (addARPNeighbors_unimplemented_tolerated []
                    (guestEnv (fun _ => Err (statusError Internal "netlink failure")))
                    freshWorld))
             (statusError Internal "netlink failure") eq_refl _).
    simpl. discriminate.
Defined.

(* ===================================================================== *)
(** ** Sandbox orchestration: hostname                                     *)
(* ===================================================================== *)

Lemma substring_0_length (n : nat) (s : string) :
  (n <= String.length s)%nat -> String.length (substring 0 n s) = n.
Proof.
  revert s. induction n as [|n IH]; intros s Hn.
  - destruct s; reflexivity.
  - destruct s as [|c s]; simpl in *; [lia|]. rewrite IH by lia. reflexivity.
Qed.

Lemma substring_0_prefix (n : nat) (s : string) :
  String.prefix (substring 0 n s) s = true.
Proof.
  revert s. induction n as [|n IH]; intros s.
  - destruct s; reflexivity.
  - destruct s as [|c s]; simpl; [reflexivity|].
    destruct (ascii_dec c c) as [_|n0]; [apply IH | congruence].
Qed.

Lemma truncateHostname_long (h : string) :
  len h > maxHostnameLen ->
  truncateHostname h = substring 0 64 h /\ len (truncateHostname h) = 64.
Proof.
  intros H. unfold truncateHostname.
  destruct (len h >? maxHostnameLen) eqn:E; [|lia].
  change (Z.to_nat maxHostnameLen) with 64%nat. split; [reflexivity|].
  unfold len in *. rewrite substring_0_length; [reflexivity|].
  unfold maxHostnameLen in H. lia.
Qed.

Lemma truncateHostname_short (h : string) :
  len h <= maxHostnameLen -> truncateHostname h = h.
Proof.
  intros H. unfold truncateHostname.
  destruct (len h >? maxHostnameLen) eqn:E; [lia|reflexivity].
Qed.

Section Hostname.

Variable h : string.

Lemma preserves_hostname_io {A} (f : Env -> list Event -> A) (e : Event) :
  carriesHostname h e -> preserves (logged (carriesHostname h)) (io f e).
Proof.
  intros He env w H. unfold logged in *. simpl.
  apply Forall_app. split; [exact H|]. constructor; [exact He|constructor].
Qed.

Lemma preserves_hostname_modify (f : kataAgent -> kataAgent) :
  preserves (logged (carriesHostname h)) (modify f).
Proof. intros env w H. exact H. Qed.

Hint Resolve preserves_hostname_modify : preserves.
Hint Extern 1 (preserves (logged (carriesHostname _)) (io _ _)) =>
  (apply preserves_hostname_io; first [solve [auto] | exact I]) : preserves.

Lemma connect_preserves_hostname : preserves (logged (carriesHostname h)) connect.
Proof. unfold connect, installReqFunc. preserves_auto. Qed.

Lemma disconnect_preserves_hostname :
  preserves (logged (carriesHostname h)) disconnect.
Proof. unfold disconnect. preserves_auto. Qed.

Hint Resolve connect_preserves_hostname disconnect_preserves_hostname : preserves.

Lemma sendReq_preserves_hostname (r : Request) :
  (forall q, r = CreateSandboxRequest q -> Hostname q = h) ->
  preserves (logged (carriesHostname h)) (sendReq r).
Proof.
  intros Hr. unfold sendReq, handler.
  assert (forall c t, carriesHostname h (EvCall c t r))
    by (intros; destruct r; simpl; auto).
  preserves_auto.
Qed.

Hint Extern 1 (preserves (logged (carriesHostname _)) (sendReq _)) =>
  (apply sendReq_preserves_hostname; intros; try discriminate) : preserves.

Lemma updateInterfaces_preserves_hostname l :
  preserves (logged (carriesHostname h)) (updateInterfaces l).
Proof.
  induction l as [|ifc l IH]; simpl; [auto with preserves|].
  unfold updateInterface. preserves_auto.
Qed.

Lemma startProxy_preserves_hostname sb :
  preserves (logged (carriesHostname h)) (startProxy sb).
Proof. unfold startProxy, setProxy, proxyStop. preserves_auto. Qed.

Hint Resolve updateInterfaces_preserves_hostname
  startProxy_preserves_hostname : preserves.

Lemma startSandbox_preserves_hostname sb :
  h = truncateHostname (sbHostname sb) ->
  preserves (logged (carriesHostname h)) (startSandbox sb).
Proof.
  intros Hh.
  unfold startSandbox, getDNS, check, updateRoutes, addARPNeighbors, proxyStop.
  preserves_auto.
  apply sendReq_preserves_hostname. intros q Hq. inversion Hq; subst.
  reflexivity.
Qed.

End Hostname.

Lemma createSandboxCalls_app a b :
  createSandboxCalls (a ++ b) = (createSandboxCalls a ++ createSandboxCalls b)%list.
Proof.
  induction a as [|e a IH]; simpl; [reflexivity|].
  destruct e; simpl; try exact IH. destruct req; simpl; rewrite ?IH; reflexivity.
Qed.

Lemma logged_createSandboxCalls h l :
  Forall (carriesHostname h) l ->
  Forall (fun r => Hostname r = h) (createSandboxCalls l).
Proof.
  induction 1 as [|e l He Hl IH]; simpl; [constructor|].
  destruct e; simpl; try exact IH. destruct req; simpl; try exact IH.
  constructor; assumption.
Qed.

Lemma createSandboxCalls_calls evs :
  createSandboxCalls evs =
  flat_map (fun c => match snd c with
                     | CreateSandboxRequest q => [q]
                     | _ => []
                     end) (calls evs).
Proof.
  induction evs as [|e evs IH]; simpl; [reflexivity|].
  destruct e; simpl; try exact IH. destruct req; simpl; rewrite ?IH; reflexivity.
Qed.

Lemma sendReq_ok_createSandbox q env w resp :
  fst (sendReq (CreateSandboxRequest q) env w) = Ok resp ->
  createSandboxCalls (log (snd (sendReq (CreateSandboxRequest q) env w))) <> [].
Proof.
  intros Hok.
  destruct (sendReq_calls (CreateSandboxRequest q) env w) as (evs & Hlog & _ & Hc).
  rewrite Hlog, createSandboxCalls_app, (createSandboxCalls_calls evs).
  rewrite (Hc resp Hok). simpl.
  destruct (createSandboxCalls (log w)); discriminate.
Qed.

Lemma sendReq_keeps_createSandbox r env w :
  createSandboxCalls (log w) <> [] ->
  createSandboxCalls (log (snd (sendReq r env w))) <> [].
Proof.
  intros H. destruct (sendReq_calls r env w) as (evs & Hlog & _).
  rewrite Hlog, createSandboxCalls_app.
  destruct (createSandboxCalls (log w)); [congruence|discriminate].
Qed.

(** When [startSandbox] returns nil it has put a sandbox-creation request
    on the channel. *)
Lemma startSandbox_success_creates sb env w :
  fst (startSandbox sb env w) = None ->
  createSandboxCalls (log (snd (startSandbox sb env w))) <> [].
Proof.
  unfold startSandbox. unfold bind, ret, getAgent, getEnv, proxyStop, io.
  destruct (startProxy sb env w) as [[e|] w1]; [discriminate|].
  destruct (getDNS sb env w1) as [[dns|e] w2]; [|discriminate].
  destruct (check env w2) as [[e|] w3]; [discriminate|].
  destruct (generateVCNetworkStructures env sb) as [net|e]; [|discriminate].
  destruct (updateInterfaces (nsInterfaces net) env w3) as [[e|] w4]; [discriminate|].
  destruct (updateRoutes (nsRoutes net) env w4) as [[rts [e|]] w5]; [discriminate|].
  cbn [snd].
  destruct (addARPNeighbors (nsNeighs net) env w5) as [[e|] w6]; [discriminate|].
  match goal with
  | |- context [sendReq (CreateSandboxRequest ?q) env w6] => set (req := q)
  end.
  pose proof (sendReq_ok_createSandbox req env w6) as Hcreate.
  destruct (sendReq (CreateSandboxRequest req) env w6) as [[resp|e] w7];
    [|discriminate].
  specialize (Hcreate resp eq_refl). cbn [snd] in Hcreate.
  destruct (dynamicTracing (agent w7)).
  - pose proof (sendReq_keeps_createSandbox StartTracingRequest env w7 Hcreate) as Hk.
    destruct (sendReq StartTracingRequest env w7) as [[resp'|e] w8];
      [|discriminate].
    intros _. exact Hk.
  - intros _. exact Hcreate.
Qed.

(** C8. The hostname of every sandbox-creation request [startSandbox]
    transmits is the configured hostname cut to its first 64 bytes when
    it is longer than 64, and the configured hostname unchanged when its
    length is at most 64; a successful [startSandbox] transmits such a
    request. *)
Theorem startSandbox_hostname_truncated (sb : Sandbox) (env : Env) (k : kataAgent) :
  let hostname := sbHostname sb in
  let final := run (startSandbox sb) env k in
  (len hostname > 64 ->
     Forall (fun r => Hostname r = substring 0 64 hostname
                      /\ len (Hostname r) = 64)
            (createSandboxCalls (log (snd final))))
  /\ (len hostname <= 64 ->
        Forall (fun r => Hostname r = hostname)
               (createSandboxCalls (log (snd final))))
  /\ (fst final = None -> createSandboxCalls (log (snd final)) <> []).
Proof.
  intros hostname final.
  assert (Hall : Forall (fun r => Hostname r = truncateHostname hostname)
                        (createSandboxCalls (log (snd final)))).
  { apply logged_createSandboxCalls.
    apply (startSandbox_preserves_hostname _ sb eq_refl env).
    constructor. }
  split; [|split].
  - intros Hlong. destruct (truncateHostname_long hostname Hlong) as [Heq Hlen].
    eapply Forall_impl; [|exact Hall]. simpl. intros r Hr.
    rewrite Hr. split; [exact Heq|exact Hlen].
  - intros Hshort. rewrite (truncateHostname_short hostname Hshort) in Hall.
    exact Hall.
  - apply startSandbox_success_creates.
Qed.

Lemma startSandbox_hostname_truncated_witness :
  let final := run (startSandbox (sampleSandbox longHostname))
                   cooperativeEnv freshAgent in
  len longHostname > 64
  /\ fst final = None
  /\ createSandboxCalls (log (snd final)) <> []
  /\ Forall (fun r => Hostname r = substring 0 64 longHostname
                      /\ len (Hostname r) = 64)
            (createSandboxCalls (log (snd final))).
Proof.
  assert (Hlong : len (sbHostname (sampleSandbox longHostname)) > 64)
    by reflexivity.
  pose proof (startSandbox_hostname_truncated
                (sampleSandbox longHostname) cooperativeEnv freshAgent)
    as (Hcut & _ & Hsent).
  split; [exact Hlong|]. split; [reflexivity|].
  split; [exact (Hsent eq_refl) | exact (Hcut Hlong)].
Defined.

(* ===================================================================== *)
(** ** Memory hot-add by probe                                             *)
(* ===================================================================== *)


Lemma probeLoop_step addr mss n index acc :
  probeLoop addr mss n index acc =
  if index <? n
  then probeLoop addr mss n (index + 1) (acc ++ [sectionAddr addr mss index])
  else acc.
Proof.
  rewrite probeLoop_equation_1. unfold probeLoop_clause_1.
  destruct (Z_lt_dec index n) as [Hlt|Hge];
    destruct (Z.ltb_spec index n); try lia; reflexivity.
Qed.

Lemma probeLoop_spec addr mss n (k : nat) : forall index acc,
  Z.to_nat (n - index) = k ->
  llen (probeLoop addr mss n index acc) = llen acc + Z.max 0 (n - index)
  /\ (forall j d, (j < length acc)%nat ->
        nth j (probeLoop addr mss n index acc) d = nth j acc d)
  /\ (forall i d, index <= i < n ->
        nth (length acc + Z.to_nat (i - index)) (probeLoop addr mss n index acc) d
        = sectionAddr addr mss i).
Proof.
  induction k as [|k IH]; intros index acc Hk; rewrite probeLoop_step.
  - assert (Hge : (index <? n) = false) by (apply Z.ltb_ge; lia).
    rewrite Hge. split; [lia|]. split; [reflexivity|]. intros; lia.
  - assert (Hlt : (index <? n) = true) by (apply Z.ltb_lt; lia).
    rewrite Hlt.
    destruct (IH (index + 1) (acc ++ [sectionAddr addr mss index])%list)
      as (Hlen & Hold & Hnew); [lia|].
    unfold llen in *. rewrite length_app in *. simpl length in *.
    split; [lia|]. split.
    + intros j d Hj. rewrite Hold by lia. apply app_nth1. exact Hj.
    + intros i d Hi. destruct (Z.eq_dec i index) as [->|Hne].
      * rewrite Z.sub_diag. simpl Z.to_nat. rewrite Nat.add_0_r.
        rewrite Hold by lia. rewrite app_nth2 by lia.
        rewrite Nat.sub_diag. reflexivity.
      * specialize (Hnew i d ltac:(lia)).
        replace (length acc + Z.to_nat (i - index))%nat
          with (length acc + 1 + Z.to_nat (i - (index + 1)))%nat by lia.
        exact Hnew.
Qed.

Lemma sectionAddr_value addr mss sizeMB index :
  0 <= mss < 2 ^ 32 -> 0 <= sizeMB < 2 ^ 32 ->
  0 <= index < sizeMB / mss ->
  sectionAddr addr mss index = (addr + index * (mss * 2 ^ 20)) mod 2 ^ 64.
Proof.
  intros Hm Hs Hi. unfold sectionAddr, wrap_u64.
  assert (Hpos : 0 < mss).
  { destruct (Z.eq_dec mss 0) as [->|]; [|lia].
    rewrite Z.div_0_r in Hi. lia. }
  assert (Hprod : 0 <= index * mss < 2 ^ 32).
  { assert (mss * (sizeMB / mss) <= sizeMB) by (apply Z.mul_div_le; lia).
    nia. }
  rewrite (Z.mod_small (index * mss)) by lia.
  rewrite Z.shiftl_mul_pow2 by lia.
  rewrite (Z.mod_small (index * mss * 2 ^ 20)) by lia.
  f_equal. lia.
Qed.

Lemma memHotplugByProbe_request addr sizeMB mss env w :
  mss <> 0 ->
  fst (memHotplugByProbe addr sizeMB mss env w) =
    match fst (sendReq (MemHotplugByProbeRequest
                          (probeLoop addr mss (sizeMB / mss) 0 [])) env w) with
    | Err err => Some err
    | Ok _ => None
    end
  /\ snd (memHotplugByProbe addr sizeMB mss env w) =
     snd (sendReq (MemHotplugByProbeRequest
                     (probeLoop addr mss (sizeMB / mss) 0 [])) env w).
Proof.
  intros Hm. unfold memHotplugByProbe.
  apply Z.eqb_neq in Hm. rewrite Hm. unfold bind, ret.
  destruct (sendReq _ env w) as [[resp|err] w']; split; reflexivity.
Qed.

(** C10. With [memorySectionSizeMB] zero, [memHotplugByProbe] returns an
    error leaving the session and the log untouched, so no request is sent
    and the division is not evaluated.  With a non-zero section size the
    one request it dispatches carries [sizeMB / memorySectionSizeMB]
    addresses, the one at position [i] being
    [addr + i * (memorySectionSizeMB * 2^20)] in 64-bit arithmetic. *)
Theorem memHotplugByProbe_sections (addr sizeMB memorySectionSizeMB : Z)
  (env : Env) (w : World) :
  0 <= addr < 2 ^ 64 ->
  0 <= sizeMB < 2 ^ 32 ->
  0 <= memorySectionSizeMB < 2 ^ 32 ->
  (memorySectionSizeMB = 0 ->
     exists err, memHotplugByProbe addr sizeMB memorySectionSizeMB env w
                 = (Some err, w))
  /\ (memorySectionSizeMB <> 0 ->
      exists addrList evs,
        snd (memHotplugByProbe addr sizeMB memorySectionSizeMB env w)
        = snd (sendReq (MemHotplugByProbeRequest addrList) env w)
        /\ log (snd (memHotplugByProbe addr sizeMB memorySectionSizeMB env w))
           = (log w ++ evs)%list
        /\ (calls evs = []
            \/ calls evs = [(Some defaultRequestTimeout,
                             MemHotplugByProbeRequest addrList)])
        /\ (fst (memHotplugByProbe addr sizeMB memorySectionSizeMB env w) = None ->
            calls evs = [(Some defaultRequestTimeout,
                          MemHotplugByProbeRequest addrList)])
        /\ llen addrList = sizeMB / memorySectionSizeMB
        /\ (forall i, 0 <= i < sizeMB / memorySectionSizeMB ->
              nth (Z.to_nat i) addrList 0
              = (addr + i * (memorySectionSizeMB * 2 ^ 20)) mod 2 ^ 64)
        /\ (addr + sizeMB * 2 ^ 20 <= 2 ^ 64 ->
            forall i, 0 <= i < sizeMB / memorySectionSizeMB ->
              nth (Z.to_nat i) addrList 0
              = addr + i * (memorySectionSizeMB * 2 ^ 20))).
Proof.
  intros Ha Hs Hm. split.
  - intros ->. eexists. reflexivity.
  - intros Hnz.
    set (addrList := probeLoop addr memorySectionSizeMB
                       (sizeMB / memorySectionSizeMB) 0 []).
    destruct (memHotplugByProbe_request addr sizeMB memorySectionSizeMB env w Hnz)
      as [Hfst Hsnd]. fold addrList in Hfst, Hsnd.
    destruct (sendReq_calls (MemHotplugByProbeRequest addrList) env w)
      as (evs & Hlog & Hcalls & Hok).
    assert (Hdiv : 0 <= sizeMB / memorySectionSizeMB)
      by (apply Z.div_pos; lia).
    destruct (probeLoop_spec addr memorySectionSizeMB
                (sizeMB / memorySectionSizeMB)
                (Z.to_nat (sizeMB / memorySectionSizeMB - 0)) 0 [] eq_refl)
      as (Hlen & _ & Hnth). fold addrList in Hlen, Hnth.
    assert (Hmod : forall i, 0 <= i < sizeMB / memorySectionSizeMB ->
              nth (Z.to_nat i) addrList 0
              = (addr + i * (memorySectionSizeMB * 2 ^ 20)) mod 2 ^ 64).
    { intros i Hi. specialize (Hnth i 0 ltac:(lia)).
      simpl length in Hnth. rewrite Z.sub_0_r in Hnth. simpl in Hnth.
      rewrite Hnth. apply (sectionAddr_value addr _ sizeMB); assumption. }
    exists addrList, evs.
    split; [exact Hsnd|]. split; [rewrite Hsnd; exact Hlog|].
    split; [exact Hcalls|]. split.
    { intros Hnone. rewrite Hfst in Hnone.
      destruct (fst (sendReq (MemHotplugByProbeRequest addrList) env w))
        as [resp|err] eqn:E; [|discriminate].
      exact (Hok resp eq_refl). }
    split; [unfold llen in *; simpl in Hlen; lia|].
    split; [exact Hmod|].
    intros Hfit i Hi. rewrite (Hmod i Hi). apply Z.mod_small.
    assert (memorySectionSizeMB * (sizeMB / memorySectionSizeMB) <= sizeMB)
      by (apply Z.mul_div_le; lia).
    nia.
Qed.

Lemma memHotplugByProbe_sections_witness :
  (0 <= 4294967296 < 2 ^ 64 /\ 0 <= 1024 < 2 ^ 32 /\ 0 <= 128 < 2 ^ 32
   /\ 128 <> 0)
  /\ (exists err, memHotplugByProbe 4294967296 1024 0 cooperativeEnv freshWorld
                  = (Some err, freshWorld))
  /\ (exists addrList evs,
        log (snd (memHotplugByProbe 4294967296 1024 128 cooperativeEnv freshWorld))
        = (log freshWorld ++ evs)%list
        /\ calls evs = [(Some defaultRequestTimeout,
                         MemHotplugByProbeRequest addrList)]
        /\ llen addrList = 8
        /\ forall i, 0 <= i < 8 ->
             nth (Z.to_nat i) addrList 0 = 4294967296 + i * (128 * 2 ^ 20)).
Proof.
  assert (Ha : 0 <= 4294967296 < 2 ^ 64) by (split; [discriminate|reflexivity]).
  assert (Hs : 0 <= 1024 < 2 ^ 32) by (split; [discriminate|reflexivity]).
  assert (Hm : 0 <= 128 < 2 ^ 32) by (split; [discriminate|reflexivity]).
  assert (H0 : 0 <= 0 < 2 ^ 32) by (split; [discriminate|reflexivity]).
  assert (Hnz : 128 <> 0) by discriminate.
  split; [repeat split; solve [discriminate | reflexivity]|]. split.
  - exact (proj1 (memHotplugByProbe_sections 4294967296 1024 0
                    cooperativeEnv freshWorld Ha Hs H0) eq_refl).
  - destruct (proj2 (memHotplugByProbe_sections 4294967296 1024 128
                       cooperativeEnv freshWorld Ha Hs Hm) Hnz)
      as (addrList & evs & _ & Hlog & _ & Hok & Hlen & _ & Hexact).
    exists addrList, evs.
    split; [exact Hlog|]. split; [exact (Hok eq_refl)|].
    split; [exact Hlen|]. apply Hexact. discriminate.
Defined.

(* ===================================================================== *)
(** ** Type translator: user and group of a command                        *)
(* ===================================================================== *)

Example ParseUint10_examples :
  strconv_ParseUint10 "4294967295" 32 = Ok 4294967295
  /\ strconv_ParseUint10 "4294967296" 32
     = Err (numError "ParseUint" "4294967296" ErrRange)
  /\ strconv_ParseUint10 "0012" 32 = Ok 12
  /\ strconv_ParseUint10 "" 32 = Err (numError "ParseUint" "" ErrSyntax)
  /\ strconv_ParseUint10 "-1" 32 = Err (numError "ParseUint" "-1" ErrSyntax).
Proof. repeat split. Qed.

Example strings_Split_examples :
  strings_Split ":" "1000:100" = ["1000"; "100"]
  /\ strings_Split ":" "1000" = ["1000"]
  /\ strings_Split ":" "" = [""]
  /\ strings_Split ":" "a::b" = ["a"; ""; "b"].
Proof. repeat split. Qed.

Lemma parseDigits_range s0 cutoff maxVal s : forall n r,
  0 <= n <= maxVal ->
  parseDigits s0 cutoff maxVal s n = Ok r -> 0 <= r <= maxVal.
Proof.
  induction s as [|c s IH]; intros n r Hn H; simpl in H.
  - inversion H; subst. exact Hn.
  - destruct (digit_of c) as [d|]; [|discriminate].
    destruct (n >=? cutoff); [discriminate|].
    destruct (_ || _) eqn:E; [discriminate|].
    apply orb_false_elim in E as [_ Hmax].
    refine (IH _ _ _ H).
    rewrite Z.gtb_ltb in Hmax. apply Z.ltb_ge in Hmax.
    split; [|exact Hmax].
    apply (Z.mod_pos_bound (wrap_u64 (n * 10) + d) (2 ^ 64) eq_refl).
Qed.

Lemma ParseUint10_range s bits r :
  0 <= bits -> strconv_ParseUint10 s bits = Ok r -> 0 <= r < 2 ^ bits.
Proof.
  intros Hb H. unfold strconv_ParseUint10 in H.
  destruct (s =? "")%string; [discriminate|].
  assert (0 < 2 ^ bits) by (apply Z.pow_pos_nonneg; lia).
  apply parseDigits_range in H; lia.
Qed.

Lemma ParseUint10_u32 s r :
  strconv_ParseUint10 s grpcUserBits = Ok r -> wrap_u32 r = r.
Proof.
  intros H. apply ParseUint10_range in H; [|discriminate].
  unfold wrap_u32. apply Z.mod_small. exact H.
Qed.

(** C9. [cmdToKataProcess] fails when [User] has more than two
    colon-separated fields.  When it succeeds: with a non-empty
    [PrimaryGroup] the GID is the number parsed from [PrimaryGroup],
    whatever [User] says; with an empty [PrimaryGroup] and a [User] of the
    form "uid:gid" the GID is the number parsed from the gid part; with an
    empty [PrimaryGroup] and a [User] without gid part the GID is zero. *)
Theorem cmdToKataProcess_gid (cmd : Cmd) :
  (llen (strings_Split ":" (User cmd)) > 2 ->
     exists err, cmdToKataProcess cmd = Err err)
  /\ (forall p, cmdToKataProcess cmd = Ok p ->
        (PrimaryGroup cmd <> "" ->
           strconv_ParseUint10 (PrimaryGroup cmd) 32 = Ok (GID (pUser p)))
        /\ (PrimaryGroup cmd = "" ->
            forall uid gid, strings_Split ":" (User cmd) = [uid; gid] ->
              strconv_ParseUint10 gid 32 = Ok (GID (pUser p)))
        /\ (PrimaryGroup cmd = "" ->
            forall uid, strings_Split ":" (User cmd) = [uid] ->
              GID (pUser p) = 0)).
Proof.
  split.
  - intros Hlen. unfold cmdToKataProcess.
    destruct (llen (strings_Split ":" (User cmd)) >? 2) eqn:E; [|lia].
    eexists. reflexivity.
  - intros p Hok. unfold cmdToKataProcess in Hok.
    destruct (llen (strings_Split ":" (User cmd)) >? 2); [discriminate|].
    destruct (strconv_ParseUint10 (nth 0 (strings_Split ":" (User cmd)) "") grpcUserBits)
      as [i|]; [|discriminate].
    split; [|split].
    + intros Hpg. apply String.eqb_neq in Hpg. rewrite Hpg in Hok. simpl in Hok.
      destruct (if llen (strings_Split ":" (User cmd)) >? 1 then _ else _)
        as [gid0|]; [|discriminate].
      destruct (strconv_ParseUint10 (PrimaryGroup cmd) grpcUserBits)
        as [g|] eqn:Eg; [|discriminate].
      destruct (parseExtraGids _ _); [|discriminate].
      inversion Hok; subst; simpl.
      rewrite (ParseUint10_u32 _ _ Eg). exact Eg.
    + intros Hpg uid gid Hsplit. rewrite Hpg, Hsplit in Hok. simpl in Hok.
      destruct (strconv_ParseUint10 gid grpcUserBits) as [g|] eqn:Eg;
        [|discriminate].
      destruct (parseExtraGids _ _); [|discriminate].
      inversion Hok; subst; simpl.
      rewrite (ParseUint10_u32 _ _ Eg). exact Eg.
    + intros Hpg uid Hsplit. rewrite Hpg, Hsplit in Hok. simpl in Hok.
      destruct (parseExtraGids _ _); [|discriminate].
      inversion Hok; subst; reflexivity.
Qed.

Lemma cmdToKataProcess_gid_witness :
  (exists err, cmdToKataProcess (sampleCmd "0:0:0" "") = Err err)
  /\ (exists p, cmdToKataProcess (sampleCmd "1000:100" "5") = Ok p
                /\ strconv_ParseUint10 "5" 32 = Ok (GID (pUser p))
                /\ GID (pUser p) = 5)
  /\ (exists p, cmdToKataProcess (sampleCmd "1000:100" "") = Ok p
                /\ strconv_ParseUint10 "100" 32 = Ok (GID (pUser p))
                /\ GID (pUser p) = 100)
  /\ (exists p, cmdToKataProcess (sampleCmd "1000" "") = Ok p
                /\ GID (pUser p) = 0).
Proof.
  split; [|split; [|split]].
  - apply (proj1 (cmdToKataProcess_gid (sampleCmd "0:0:0" ""))). reflexivity.
  - eexists. split; [reflexivity|]. split; [|reflexivity].
    apply (proj1 (proj2 (cmdToKataProcess_gid (sampleCmd "1000:100" "5"))
                    _ eq_refl)).
    discriminate.
  - eexists. split; [reflexivity|]. split; [|reflexivity].
    apply (proj1 (proj2 (proj2 (cmdToKataProcess_gid (sampleCmd "1000:100" ""))
                           _ eq_refl)) eq_refl "1000" "100").
    reflexivity.
  - eexists. split; [reflexivity|].
    apply (proj2 (proj2 (proj2 (cmdToKataProcess_gid (sampleCmd "1000" ""))
                           _ eq_refl)) eq_refl "1000").
    reflexivity.
Defined.

(* ===================================================================== *)
(** ** PID namespace                                                       *)
(* ===================================================================== *)

Lemma findPidNamespace_spec (l : list LinuxNamespace) : forall i,
  (fst (findPidNamespace l i) = -1
   /\ snd (findPidNamespace l i) = false
   /\ Forall (fun ns => nsType ns <> PIDNamespace) l)
  \/ (exists before entry after,
        l = (before ++ entry :: after)%list
        /\ Forall (fun ns => nsType ns <> PIDNamespace) before
        /\ nsType entry = PIDNamespace
        /\ fst (findPidNamespace l i) = i + llen before
        /\ snd (findPidNamespace l i) = negb (nsPath entry =? "")%string).
Proof.
  induction l as [|ns l IH]; intros i; simpl.
  - left. repeat split. constructor.
  - destruct (nsType ns =? PIDNamespace)%string eqn:E; simpl.
    + right. exists [], ns, l. apply String.eqb_eq in E.
      repeat split; auto. simpl. unfold llen. simpl. lia.
    + apply String.eqb_neq in E.
      destruct (IH (i + 1)) as [(Hi & Hs & Hall) | (b & e & a & Hl & Hb & He & Hi & Hs)].
      * left. repeat split; auto.
      * right. exists (ns :: b), e, a. subst l.
        repeat split; auto. rewrite Hi. unfold llen. simpl length. lia.
Qed.

Lemma firstn_skipn_middle {A} (before : list A) (entry : A) (after : list A) :
  (firstn (length before) (before ++ entry :: after)
   ++ skipn (length before + 1) (before ++ entry :: after))%list
  = (before ++ after)%list.
Proof.
  rewrite firstn_app, Nat.sub_diag, firstn_all. simpl. rewrite app_nil_r.
  f_equal. rewrite skipn_app.
  replace (length before + 1 - length before)%nat with 1%nat by lia.
  rewrite skipn_all2 by lia. reflexivity.
Qed.

(** Of two PID-namespace entries the first decides the flag and is the one
    taken out. *)
Example handlePidNamespace_first_only :
  option_map
    (fun r => (fst r, option_map Namespaces (spLinux (snd r))))
    (handlePidNamespace
       {| spProcess := None; Hooks := None;
          spLinux := Some (sampleLinuxWith
                             [{| nsType := "pid"; nsPath := "" |};
                              {| nsType := "pid"; nsPath := "/proc/1/ns/pid" |}]) |})
  = Some (false, Some [{| nsType := "pid"; nsPath := "/proc/1/ns/pid" |}]).
Proof. reflexivity. Qed.

(** C3. On a spec whose namespace list contains a PID-namespace entry,
    [handlePidNamespace] returns true exactly when the path of that entry
    (the first of that type) is non-empty, and in either case the
    namespace list after the call is the list before it with that entry
    taken out: no PID-namespace entry is left when the list held one. *)
Theorem handlePidNamespace_removes (grpcSpec : Spec) (linux : Linux) :
  spLinux grpcSpec = Some linux ->
  (exists ns, In ns (Namespaces linux) /\ nsType ns = PIDNamespace) ->
  exists before entry after shared linux' spec',
    Namespaces linux = (before ++ entry :: after)%list
    /\ Forall (fun ns => nsType ns <> PIDNamespace) before
    /\ nsType entry = PIDNamespace
    /\ handlePidNamespace grpcSpec = Some (shared, spec')
    /\ (shared = true <-> nsPath entry <> "")
    /\ spLinux spec' = Some linux'
    /\ Namespaces linux' = (before ++ after)%list
    /\ (Forall (fun ns => nsType ns <> PIDNamespace) after ->
        Forall (fun ns => nsType ns <> PIDNamespace) (Namespaces linux')).
Proof.
  intros Hlinux (ns & Hin & Hpid).
  destruct (findPidNamespace_spec (Namespaces linux) 0)
    as [(_ & _ & Hall) | (before & entry & after & Hl & Hb & He & Hi & Hs)].
  - rewrite Forall_forall in Hall. exfalso. exact (Hall ns Hin Hpid).
  - assert (Hres : handlePidNamespace grpcSpec
                   = Some (negb (nsPath entry =? "")%string,
                           set_spLinux
                             (Some (set_Namespaces (before ++ after)%list linux))
                             grpcSpec)).
    { unfold handlePidNamespace. rewrite Hlinux.
      destruct (findPidNamespace (Namespaces linux) 0) as [pidIndex sharedPidNs].
      simpl in Hi, Hs. subst pidIndex sharedPidNs. cbv beta iota.
      assert (Hge : (llen before >=? 0) = true)
        by (rewrite Z.geb_leb; apply Z.leb_le; unfold llen; lia).
      rewrite Hge.
      rewrite Hl. unfold llen.
      replace (Z.to_nat (Z.of_nat (length before))) with (length before) by lia.
      replace (Z.to_nat (Z.of_nat (length before) + 1))
        with (length before + 1)%nat by lia.
      rewrite firstn_skipn_middle. reflexivity. }
    exists before, entry, after, (negb (nsPath entry =? "")%string).
    eexists. eexists.
    split; [exact Hl|]. split; [exact Hb|]. split; [exact He|].
    split; [exact Hres|]. split.
    { destruct (nsPath entry =? "")%string eqn:E; simpl.
      - apply String.eqb_eq in E. split; [discriminate|congruence].
      - apply String.eqb_neq in E. split; auto. }
    simpl. split; [reflexivity|]. split; [reflexivity|].
    intros Ha. apply Forall_app. split; assumption.
Qed.

Lemma handlePidNamespace_removes_witness :
  handlePidNamespace (sampleSpec "/proc/42/ns/pid")
  = Some (true, sampleSpecWithout)
  /\ handlePidNamespace (sampleSpec "") = Some (false, sampleSpecWithout)
  /\ exists before entry after shared linux' spec',
       Namespaces (sampleLinux "/proc/42/ns/pid") = (before ++ entry :: after)%list
       /\ Forall (fun ns => nsType ns <> PIDNamespace) before
       /\ nsType entry = PIDNamespace
       /\ handlePidNamespace (sampleSpec "/proc/42/ns/pid") = Some (shared, spec')
       /\ (shared = true <-> nsPath entry <> "")
       /\ spLinux spec' = Some linux'
       /\ Namespaces linux' = (before ++ after)%list
       /\ (Forall (fun ns => nsType ns <> PIDNamespace) after ->
           Forall (fun ns => nsType ns <> PIDNamespace) (Namespaces linux')).
Proof.
  split; [reflexivity|]. split; [reflexivity|].
  apply (handlePidNamespace_removes (sampleSpec "/proc/42/ns/pid")
           (sampleLinux "/proc/42/ns/pid") eq_refl).
  exists {| nsType := "pid"; nsPath := "/proc/42/ns/pid" |}.
  split; [simpl; auto | reflexivity].
Defined.

(* ===================================================================== *)
(** ** Spec constrainer: cgroups path                                      *)
(* ===================================================================== *)

Example filepath_examples :
  filepath_Join ["/"; "docker"; "abc123"] = "/docker/abc123"
  /\ filepath_Join ["/run/kata-containers/sandbox/"; "storage"]
     = "/run/kata-containers/sandbox/storage"
  /\ filepath_Join [""; "a"; ""; "b"] = "a/b"
  /\ filepath_Clean "a/../../b/./c//" = "../b/c"
  /\ filepath_Clean "/../a" = "/a"
  /\ filepath_Base "/a/b/" = "b"
  /\ filepath_Base "///" = "/"
  /\ filepath_Base "" = ".".
Proof. repeat split. Qed.

Lemma strings_Split_no_sep sep s :
  hasChar sep s = false -> strings_Split sep s = [s].
Proof.
  induction s as [|c s IH]; simpl; intros H; [reflexivity|].
  apply orb_false_elim in H as [Hc Hs]. rewrite Hc, (IH Hs). reflexivity.
Qed.

Lemma strings_Split_app sep a b :
  hasChar sep a = false ->
  strings_Split sep (a ++ String sep b) = a :: strings_Split sep b.
Proof.
  induction a as [|c a IH]; simpl; intros H.
  - rewrite Ascii.eqb_refl. reflexivity.
  - apply orb_false_elim in H as [Hc Ha]. rewrite Hc, (IH Ha). reflexivity.
Qed.

Lemma strings_Split_three slice prefix name :
  isField slice = true -> isField prefix = true -> isField name = true ->
  strings_Split ":" (slice ++ ":" ++ prefix ++ ":" ++ name)
  = [slice; prefix; name].
Proof.
  unfold isField. intros Hs Hp Hn.
  apply negb_true_iff in Hs, Hp, Hn.
  change (slice ++ ":" ++ prefix ++ ":" ++ name)
    with (slice ++ String ":" (prefix ++ String ":" name)).
  rewrite (strings_Split_app _ _ _ Hs), (strings_Split_app _ _ _ Hp),
    (strings_Split_no_sep _ _ Hn).
  reflexivity.
Qed.

Lemma isName_elim s :
  isName s = true ->
  isField s = true /\ (s =? "")%string = false /\ (s =? ".")%string = false
  /\ (s =? "..")%string = false /\ hasChar "/" s = false.
Proof.
  unfold isName. intros H.
  repeat (apply andb_true_iff in H as [H ?]).
  repeat match goal with
         | X : negb _ = true |- _ => apply negb_true_iff in X
         end.
  auto.
Qed.

(** Joining the root with two names yields the path of the second below
    the first. *)
Lemma filepath_Join_root prefix name :
  isName prefix = true -> isName name = true ->
  filepath_Join ["/"; prefix; name] = "/" ++ prefix ++ "/" ++ name.
Proof.
  intros Hp Hn.
  apply isName_elim in Hp as (_ & Hp0 & Hp1 & Hp2 & Hps).
  apply isName_elim in Hn as (_ & Hn0 & Hn1 & Hn2 & Hns).
  assert (Hjoin : strings_Join ["/"; prefix; name] "/"
                  = String "/" (String "/" (prefix ++ String "/" name)))
    by reflexivity.
  assert (Hsplit : strings_Split "/" (String "/" (String "/" (prefix ++ String "/" name)))
                   = [""; ""; prefix; name]).
  { change (strings_Split "/" (String "/" (String "/" (prefix ++ String "/" name))))
      with ("" :: "" :: strings_Split "/" (prefix ++ String "/" name)).
    rewrite (strings_Split_app _ _ _ Hps), (strings_Split_no_sep _ _ Hns).
    reflexivity. }
  assert (Hclean : cleanElems true [] [""; ""; prefix; name] = [prefix; name]).
  { cbn [cleanElems String.eqb]. rewrite Hp0, Hp1, Hp2, Hn0, Hn1, Hn2.
    reflexivity. }
  change (filepath_Join ["/"; prefix; name])
    with (filepath_Clean (strings_Join ["/"; prefix; name] "/")).
  rewrite Hjoin. unfold filepath_Clean.
  change (String "/" (String "/" (prefix ++ String "/" name)) =? "")%string
    with false.
  change (isRooted (String "/" (String "/" (prefix ++ String "/" name))))
    with true.
  cbv iota zeta. rewrite Hsplit, Hclean. reflexivity.
Qed.

Lemma constrainCgroupsPath_systemd (IsSystemdCgroup : string -> bool)
  slice prefix name :
  IsSystemdCgroup (slice ++ ":" ++ prefix ++ ":" ++ name) = true ->
  isField slice = true -> isField prefix = true -> isField name = true ->
  constrainCgroupsPath IsSystemdCgroup (slice ++ ":" ++ prefix ++ ":" ++ name)
  = Some (filepath_Join ["/"; prefix; name]).
Proof.
  intros Hsys Hs Hp Hn. unfold constrainCgroupsPath.
  rewrite Hsys, (strings_Split_three _ _ _ Hs Hp Hn). reflexivity.
Qed.

(** Path elements that are not names are cleaned away by [filepath.Join]. *)
Example constrainCgroupsPath_dotdot :
  constrainCgroupsPath IsSystemdCgroup_model "system.slice:..:abc123"
  = Some "/abc123".
Proof. reflexivity. Qed.

(** C5. When the cgroups path of a guest-bound spec has the systemd form
    [slice:prefix:name] (and [IsSystemdCgroup] says so),
    [constraintGRPCSpec] rewrites it to [filepath.Join("/", prefix, name)],
    which is [/prefix/name] for a prefix and a name that are path elements
    naming something.  The spec's [Process], [Linux] and [Linux.Resources]
    are present, as the function dereferences them. *)
Theorem constraintGRPCSpec_systemd_cgroup
  (IsSystemdCgroup : string -> bool) (grpcSpec : Spec) (passSeccomp : bool)
  (linux : Linux) (process : Process) (resources : LinuxResources)
  (slice prefix name : string) :
  spLinux grpcSpec = Some linux ->
  spProcess grpcSpec = Some process ->
  Resources linux = Some resources ->
  CgroupsPath linux = slice ++ ":" ++ prefix ++ ":" ++ name ->
  IsSystemdCgroup (CgroupsPath linux) = true ->
  isField slice = true -> isField prefix = true -> isField name = true ->
  exists spec' linux',
    constraintGRPCSpec IsSystemdCgroup grpcSpec passSeccomp = Some spec'
    /\ spLinux spec' = Some linux'
    /\ CgroupsPath linux' = filepath_Join ["/"; prefix; name]
    /\ (isName prefix = true -> isName name = true ->
        CgroupsPath linux' = "/" ++ prefix ++ "/" ++ name).
Proof.
  intros Hl Hp Hr Hpath Hsys Hs Hpre Hname.
  unfold constraintGRPCSpec. rewrite Hl, Hp, Hr.
  rewrite Hpath in Hsys |- *.
  rewrite (constrainCgroupsPath_systemd IsSystemdCgroup slice prefix name
             Hsys Hs Hpre Hname).
  eexists. eexists. split; [reflexivity|]. split; [reflexivity|].
  cbn [CgroupsPath]. split; [reflexivity|].
  apply filepath_Join_root.
Qed.

Lemma constraintGRPCSpec_systemd_cgroup_witness :
  CgroupsPath (sampleLinux "") = "system.slice" ++ ":" ++ "docker" ++ ":" ++ "abc123"
  /\ IsSystemdCgroup_model "system.slice:docker:abc123" = true
  /\ exists spec' linux',
       constraintGRPCSpec IsSystemdCgroup_model (sampleSpec "") false = Some spec'
       /\ spLinux spec' = Some linux'
       /\ CgroupsPath linux' = "/docker/abc123".
Proof.
  split; [reflexivity|]. split; [reflexivity|].
  destruct (constraintGRPCSpec_systemd_cgroup IsSystemdCgroup_model
              (sampleSpec "") false (sampleLinux "") sampleProcess _
              "system.slice" "docker" "abc123"
              eq_refl eq_refl eq_refl eq_refl eq_refl eq_refl eq_refl eq_refl)
    as (spec' & linux' & Hres & Hlinux & _ & Hpath).
  exists spec', linux'.
  split; [exact Hres|]. split; [exact Hlinux|]. exact (Hpath eq_refl eq_refl).
Defined.

(* ===================================================================== *)
(** ** Mount resolver: block volumes without a spec mount                  *)
(* ===================================================================== *)

(** A volume whose mount point is a destination of the spec: the mount's
    source and the volume's mount point become the same temporary path. *)
Example replaceOCIMountsForStorages_matched :
  replaceOCIMountsForStorages (fun _ => "5e6f")
    [sampleMount "/etc/hosts" "/host/hosts"; sampleMount "/vol" "/dev/loop0"]
    [sampleVolume "/vol"]
  = (None,
     [sampleMount "/etc/hosts" "/host/hosts";
      sampleMount "/vol" "/run/kata-containers/sandbox/storage/5e6f-vol"],
     [sampleVolume "/run/kata-containers/sandbox/storage/5e6f-vol"]).
Proof. reflexivity. Qed.

(** After ranging over a non-empty mount list from position [j], the index
    variable holds a position of the list, and the list keeps its length. *)
Lemma rangeOCIMounts_index uuid mountPoint (ociMounts : list Mount) :
  forall j index,
    ociMounts <> [] ->
    j <= fst (fst (rangeOCIMounts uuid mountPoint ociMounts j index))
      < j + llen ociMounts
    /\ length (snd (rangeOCIMounts uuid mountPoint ociMounts j index))
       = length ociMounts.
Proof.
  induction ociMounts as [|m rest IH]; intros j index Hne; [congruence|].
  unfold llen. simpl.
  destruct (negb (Destination m =? mountPoint)%string).
  - destruct rest as [|m' rest'].
    + simpl. lia.
    + specialize (IH (j + 1) j ltac:(discriminate)).
      destruct (rangeOCIMounts uuid mountPoint (m' :: rest') (j + 1) j)
        as [[index' found] rest''].
      unfold llen in IH. simpl in *. lia.
  - simpl. lia.
Qed.

(** With a non-empty mount list no volume is reported as missing. *)
Lemma replaceLoop_never_fails uuid_Generate (ociMounts : list Mount)
  (volumeStorages : list Storage) :
  forall index n,
    ociMounts <> [] ->
    fst (fst (replaceLoop uuid_Generate ociMounts volumeStorages index n)) = None.
Proof.
  revert ociMounts.
  induction volumeStorages as [|v vs IH]; intros ociMounts index n Hne;
    [reflexivity|].
  simpl.
  pose proof (rangeOCIMounts_index (uuid_Generate n) (MountPoint v)
                ociMounts 0 index Hne) as [Hidx Hlen].
  destruct (rangeOCIMounts (uuid_Generate n) (MountPoint v) ociMounts 0 index)
    as [[index' found] ociMounts'].
  simpl in Hidx, Hlen.
  assert (Hneq : (index' =? llen ociMounts') = false).
  { apply Z.eqb_neq. unfold llen in *. lia. }
  rewrite Hneq.
  assert (Hne' : ociMounts' <> []).
  { destruct ociMounts', ociMounts; simpl in *; congruence. }
  specialize (IH ociMounts' index'
                 (match found with Some _ => S n | None => n end) Hne').
  destruct (replaceLoop uuid_Generate ociMounts' vs index' _) as [[err ms] vs'].
  exact IH.
Qed.

(** C1 (defect). A block-backed volume mounted at [/vol] while the spec
    lists only a mount at [/data]: [replaceOCIMountsForStorages] returns
    nil, spec and volume untouched, and the block-volume step of
    [createContainer] hands the volume on to the container's storage
    list.  The "mount not found" error is raised only for an empty mount
    list ([replaceLoop_never_fails]). *)
Theorem replaceOCIMountsForStorages_unmatched_volume
  (uuid_Generate : nat -> string) :
  replaceOCIMountsForStorages uuid_Generate
    [sampleMount "/data" "/host/data"] [sampleVolume "/vol"]
  = (None, [sampleMount "/data" "/host/data"], [sampleVolume "/vol"])
  /\ createContainer_blockVolumes uuid_Generate
       [sampleMount "/data" "/host/data"] [] [sampleVolume "/vol"]
     = Ok ([sampleMount "/data" "/host/data"], [sampleVolume "/vol"])
  /\ replaceOCIMountsForStorages uuid_Generate [] [sampleVolume "/vol"]
     = (Some (fmtErrorf "OCI mount not found for block volume %s" ["/vol"]),
        [], [sampleVolume "/vol"]).
Proof. split; [reflexivity|]. split; reflexivity. Qed.

(* ===================================================================== *)
(** ** File transfer: chunking                                             *)
(* ===================================================================== *)

Lemma chunkCount_zero c : 0 < c -> chunkCount c 0 = 0.
Proof. intros Hc. unfold chunkCount. apply Z.div_small. lia. Qed.

Lemma chunkCount_small c n : 0 < n <= c -> chunkCount c n = 1.
Proof.
  intros Hn. unfold chunkCount.
  replace (n + c - 1) with ((n - 1) + 1 * c) by lia.
  rewrite Z.div_add by lia. rewrite Z.div_small by lia. reflexivity.
Qed.

Lemma chunkCount_step c n : 0 < c < n -> chunkCount c n = chunkCount c (n - c) + 1.
Proof.
  intros Hn. unfold chunkCount.
  replace (n + c - 1) with ((n - c + c - 1) + 1 * c) by lia.
  rewrite Z.div_add by lia. reflexivity.
Qed.

Lemma chunkCount_nonneg c n : 0 < c -> 0 <= n -> 0 <= chunkCount c n.
Proof. intros Hc Hn. unfold chunkCount. apply Z.div_pos; lia. Qed.

(** [chunkCount] is the ceiling of the quotient. *)
Lemma chunkCount_ceiling c n :
  0 < c -> 0 <= n ->
  n <= chunkCount c n * c /\ (chunkCount c n - 1) * c < n.
Proof.
  intros Hc Hn. unfold chunkCount.
  pose proof (Z.div_mod (n + c - 1) c ltac:(lia)) as Hdm.
  pose proof (Z.mod_pos_bound (n + c - 1) c Hc) as Hmod.
  nia.
Qed.

Lemma copyChunk_base c r d o b off i :
  copyChunk c (set_Data_Offset d o r) b off i = copyChunk c r b off i.
Proof. reflexivity. Qed.

Lemma copyChunks_base c r d o b off :
  copyChunks c (set_Data_Offset d o r) b off = copyChunks c r b off.
Proof. reflexivity. Qed.

Lemma copyChunks_nil c r off : 0 < c -> copyChunks c r [] off = [].
Proof.
  intros Hc. unfold copyChunks. change (llen []) with 0.
  rewrite chunkCount_zero by exact Hc. reflexivity.
Qed.

(** The first chunk and the chunks of the rest of the file. *)
Lemma copyChunks_cons c r (b : list Byte.byte) off :
  0 < c -> b <> [] ->
  let n := Z.to_nat (if llen b >? c then c else llen b) in
  copyChunks c r b off
  = set_Data_Offset (firstn n b) off r :: copyChunks c r (skipn n b) (off + c).
Proof.
  intros Hc Hb n.
  assert (Hlen : 0 < llen b).
  { unfold llen. destruct b; [congruence|simpl; lia]. }
  unfold copyChunks.
  destruct (Z.gtb_spec (llen b) c) as [Hgt|Hle]; subst n.
  - (* more than one chunk left *)
    assert (Hskip : llen (skipn (Z.to_nat c) b) = llen b - c).
    { unfold llen in *. rewrite length_skipn. lia. }
    rewrite Hskip, (chunkCount_step c (llen b)) by lia.
    pose proof (chunkCount_nonneg c (llen b - c) Hc ltac:(lia)) as Hnn.
    rewrite Z2Nat.inj_add by lia. rewrite Nat.add_comm. simpl seq.
    rewrite <- seq_shift. cbn [map]. rewrite map_map. f_equal.
    + unfold copyChunk. simpl. rewrite Z.add_0_r. reflexivity.
    + apply map_ext. intros i. unfold copyChunk.
      rewrite skipn_skipn. f_equal; [|lia].
      f_equal. f_equal. lia.
  - (* the last chunk *)
    assert (Hall : skipn (Z.to_nat (llen b)) b = []).
    { apply skipn_all2. unfold llen. lia. }
    rewrite Hall. change (llen []) with 0.
    rewrite chunkCount_zero, chunkCount_small by lia. simpl. f_equal.
    unfold copyChunk. simpl. rewrite Z.add_0_r.
    rewrite !firstn_all2 by (unfold llen in *; lia). reflexivity.
Qed.

Lemma wrap_s64_small x : - 2 ^ 63 <= x < 2 ^ 63 -> wrap_s64 x = x.
Proof.
  intros Hx. unfold wrap_s64. rewrite Z.mod_small; lia.
Qed.

Lemma llen_nonneg {A} (l : list A) : 0 <= llen l.
Proof. unfold llen. lia. Qed.

Lemma llen_pos_cons {A} (l : list A) : 0 < llen l -> l <> [].
Proof. intros H ->. unfold llen in H. simpl in H. lia. Qed.

(** The chunk loop: with enough fuel it ends; the RPCs it issues are an
    initial segment of the chunks of [b], and all of them when it returns
    nil. *)
Lemma copyLoop_calls (chunk : Z) :
  0 < chunk ->
  forall (fuel : nat) cpReq (b : list Byte.byte) off env w,
    0 <= off -> off + llen b <= maxInt64 ->
    chunkCount chunk (llen b) < Z.of_nat fuel ->
    exists evs m,
      log (snd (copyLoop fuel chunk cpReq b (llen b) off env w))
      = (log w ++ evs)%list
      /\ fst (copyLoop fuel chunk cpReq b (llen b) off env w) <> None
      /\ calls evs = map copyCall (firstn m (copyChunks chunk cpReq b off))
      /\ (fst (copyLoop fuel chunk cpReq b (llen b) off env w) = Some None ->
          calls evs = map copyCall (copyChunks chunk cpReq b off)).
Proof.
  intros Hchunk. unfold maxInt64.
  induction fuel as [|fuel IH]; intros cpReq b off env w Hoff Hmax Hfuel;
    [pose proof (chunkCount_nonneg chunk (llen b) Hchunk (llen_nonneg b)); lia|].
  cbn [copyLoop].
  destruct (Z.gtb_spec (llen b) 0) as [Hpos|Hzero].
  - pose proof (llen_pos_cons b Hpos) as Hne.
    pose proof (copyChunks_cons chunk cpReq b off Hchunk Hne) as Hcons.
    cbv zeta in Hcons.
    set (n := if llen b >? chunk then chunk else llen b) in *.
    set (cpReq' := set_Data_Offset (firstn (Z.to_nat n) b) off cpReq) in *.
    unfold bind.
    destruct (sendReq_calls (CopyFileRequest cpReq') env w)
      as (evs1 & Hlog1 & Hc1 & Hok1).
    change (getReqContext (MessageName (CopyFileRequest cpReq')), CopyFileRequest cpReq')
      with (copyCall cpReq') in *.
    destruct (sendReq (CopyFileRequest cpReq') env w) as [[resp|err] w1];
      cbn [fst snd] in *.
    + specialize (Hok1 resp eq_refl).
      assert (Hn : 0 < n <= llen b) by (subst n; destruct (Z.gtb_spec (llen b) chunk); lia).
      assert (Hrem : wrap_s64 (llen b - n) = llen (skipn (Z.to_nat n) b)).
      { rewrite wrap_s64_small by lia. unfold llen in *. rewrite length_skipn. lia. }
      rewrite Hrem.
      destruct (Z.gtb_spec (llen b) chunk) as [Hgt|Hle].
      * (* more data left: the offset advances without wrapping *)
        assert (Hn' : n = chunk) by (subst n; destruct (Z.gtb_spec (llen b) chunk); lia).
        rewrite wrap_s64_small by lia.
        destruct (IH cpReq' (skipn (Z.to_nat n) b) (off + chunk) env w1)
          as (evs2 & m & Hlog2 & Hend & Hpre & Hall).
        { lia. }
        { unfold llen in *. rewrite length_skipn. lia. }
        { pose proof (chunkCount_step chunk (llen b) ltac:(lia)) as Hstep.
          replace (llen (skipn (Z.to_nat n) b)) with (llen b - chunk)
            by (unfold llen in *; rewrite length_skipn; lia).
          lia. }
        exists (evs1 ++ evs2)%list, (S m).
        split; [rewrite Hlog2, Hlog1, app_assoc; reflexivity|].
        split; [exact Hend|].
        rewrite calls_app, Hok1, Hcons. subst cpReq'.
        rewrite copyChunks_base in Hpre, Hall. split.
        -- rewrite Hpre. reflexivity.
        -- intros Hs. rewrite (Hall Hs). reflexivity.
      * (* that was the last chunk *)
        assert (Hn' : n = llen b) by (subst n; destruct (Z.gtb_spec (llen b) chunk); lia).
        assert (Hrest : skipn (Z.to_nat n) b = []).
        { apply skipn_all2. unfold llen in *. lia. }
        rewrite Hrest in *. change (llen []) with 0.
        destruct fuel as [|fuel];
          [pose proof (chunkCount_small chunk (llen b) ltac:(lia)); lia|].
        cbn [copyLoop]. change (0 >? 0) with false. cbv iota. unfold ret.
        cbn [fst snd].
        exists evs1, 1%nat.
        split; [exact Hlog1|]. split; [discriminate|].
        rewrite Hok1, Hcons, copyChunks_nil by exact Hchunk.
        split; [reflexivity | intros _; reflexivity].
    + unfold ret. cbn [fst snd]. clear Hok1.
      destruct Hc1 as [Hc1|Hc1].
      * exists evs1, 0%nat. split; [exact Hlog1|]. split; [discriminate|].
        split; [rewrite Hc1; reflexivity | discriminate].
      * exists evs1, 1%nat. split; [exact Hlog1|]. split; [discriminate|].
        split; [rewrite Hc1, Hcons; reflexivity | discriminate].
  - assert (Hnil : b = []).
    { destruct b; [reflexivity|]. unfold llen in Hzero. simpl in Hzero. lia. }
    subst b. unfold ret. cbn [fst snd].
    exists [], 0%nat. split; [rewrite app_nil_r; reflexivity|].
    split; [discriminate|].
    rewrite copyChunks_nil by exact Hchunk. split; [reflexivity|reflexivity].
Qed.

Lemma copyChunks_length c r b off :
  0 < c -> llen (copyChunks c r b off) = chunkCount c (llen b).
Proof.
  intros Hc. unfold copyChunks, llen at 1. rewrite length_map, length_seq.
  pose proof (chunkCount_nonneg c (llen b) Hc (llen_nonneg b)). lia.
Qed.

Lemma copyChunks_nth c r b off (i : nat) d :
  (i < length (copyChunks c r b off))%nat ->
  nth i (copyChunks c r b off) d = copyChunk c r b off i.
Proof.
  unfold copyChunks. rewrite length_map, length_seq. intros Hi.
  rewrite (nth_indep _ d (copyChunk c r b off 0))
    by (rewrite length_map, length_seq; exact Hi).
  rewrite map_nth, seq_nth by exact Hi. reflexivity.
Qed.

Lemma firstn_add_skipn {A} (n m : nat) (l : list A) :
  firstn (n + m) l = (firstn n l ++ firstn m (skipn n l))%list.
Proof.
  revert l. induction n as [|n IH]; intros l; [reflexivity|].
  destruct l as [|x l]; simpl.
  - rewrite firstn_nil. reflexivity.
  - rewrite IH. reflexivity.
Qed.

Lemma concat_chunks {A} (c : nat) (l : list A) (k : nat) :
  concat (map (fun i => firstn c (skipn (i * c) l)) (seq 0 k))
  = firstn (k * c) l.
Proof.
  induction k as [|k IH]; [reflexivity|].
  rewrite seq_S, map_app, concat_app, IH. simpl.
  rewrite app_nil_r, <- firstn_add_skipn. f_equal. lia.
Qed.

Lemma copyChunks_concat c r b off :
  0 < c -> concat (map Data (copyChunks c r b off)) = b.
Proof.
  intros Hc. unfold copyChunks. rewrite map_map.
  change (fun x => Data (copyChunk c r b off x))
    with (fun i => firstn (Z.to_nat c) (skipn (i * Z.to_nat c) b)).
  rewrite concat_chunks. apply firstn_all2.
  pose proof (chunkCount_ceiling c (llen b) Hc (llen_nonneg b)) as [Hceil _].
  pose proof (chunkCount_nonneg c (llen b) Hc (llen_nonneg b)).
  unfold llen in *. nia.
Qed.

Lemma copyChunks_sizes c r b off :
  0 < c ->
  Z.of_nat (list_sum (map (fun q => length (Data q)) (copyChunks c r b off)))
  = llen b.
Proof.
  intros Hc. pose proof (copyChunks_concat c r b off Hc) as Hcat.
  apply (f_equal (@length _)) in Hcat.
  rewrite length_concat, map_map in Hcat. unfold llen. lia.
Qed.

Lemma copyChunk_size c r b off (i : nat) :
  0 < c -> Z.of_nat i < chunkCount c (llen b) ->
  0 < llen (Data (copyChunk c r b off i)) <= c.
Proof.
  intros Hc Hi. unfold copyChunk. cbn [Data set_Data_Offset].
  pose proof (chunkCount_ceiling c (llen b) Hc (llen_nonneg b)) as [_ Hlow].
  unfold llen in *. rewrite length_firstn, length_skipn. nia.
Qed.


(** Five bytes with the package variable set to two: three calls. *)
Example copyFileWith_three_chunks :
  calls (log (snd (run (copyFileWith 2 6 "/etc/hostname" "/run/hostname")
                       cooperativeEnv freshAgent)))
  = map copyCall
      [ set_Data_Offset [Byte.x6b; Byte.x61] 0
          (copyFileHeader cooperativeEnv "/run/hostname"
             {| st_Mode := 420; st_Uid := 0; st_Gid := 0 |}
             [Byte.x6b; Byte.x61; Byte.x74; Byte.x61; Byte.x0a]);
        set_Data_Offset [Byte.x74; Byte.x61] 2
          (copyFileHeader cooperativeEnv "/run/hostname"
             {| st_Mode := 420; st_Uid := 0; st_Gid := 0 |}
             [Byte.x6b; Byte.x61; Byte.x74; Byte.x61; Byte.x0a]);
        set_Data_Offset [Byte.x0a] 4
          (copyFileHeader cooperativeEnv "/run/hostname"
             {| st_Mode := 420; st_Uid := 0; st_Gid := 0 |}
             [Byte.x6b; Byte.x61; Byte.x74; Byte.x61; Byte.x0a]) ].
Proof. reflexivity. Qed.

Lemma grpcMaxDataSize_value : grpcMaxDataSize = 1048576.
Proof. reflexivity. Qed.


(* ===================================================================== *)
(** ** Mount resolver: ignored, ephemeral, local and shm mounts            *)
(* ===================================================================== *)

Lemma removeIgnoredLoop_filter ignoredMounts specMounts : forall mounts,
  removeIgnoredLoop ignoredMounts specMounts mounts
  = (mounts ++ filter (keptMount ignoredMounts) specMounts)%list.
Proof.
  induction specMounts as [|m rest IH]; intros mounts; simpl.
  - rewrite app_nil_r. reflexivity.
  - unfold keptMount at 1. destruct (ignoredMounts (Source m)).
    + apply IH.
    + rewrite IH, <- app_assoc. reflexivity.
Qed.

Lemma filter_idem {A} (f : A -> bool) (l : list A) :
  filter f (filter f l) = filter f l.
Proof.
  induction l as [|x l IH]; simpl; [reflexivity|].
  destruct (f x) eqn:E; simpl; rewrite ?E, IH; reflexivity.
Qed.

(** X1. [removeIgnoredOCIMount] keeps exactly the spec mounts whose source
    is not a key of the ignored map, in their order, and removing twice is
    removing once. *)
Theorem removeIgnoredOCIMount_keeps_others
  (ignoredMounts : string -> option vcMount) (specMounts : list Mount) :
  removeIgnoredOCIMount ignoredMounts specMounts
  = filter (keptMount ignoredMounts) specMounts
  /\ (forall m, In m (removeIgnoredOCIMount ignoredMounts specMounts)
                <-> In m specMounts /\ ignoredMounts (Source m) = None)
  /\ removeIgnoredOCIMount ignoredMounts
       (removeIgnoredOCIMount ignoredMounts specMounts)
     = removeIgnoredOCIMount ignoredMounts specMounts.
Proof.
  unfold removeIgnoredOCIMount. rewrite !removeIgnoredLoop_filter. simpl.
  split; [reflexivity|]. split.
  - intros m. rewrite filter_In. unfold keptMount.
    destruct (ignoredMounts (Source m)); split; intros [H1 H2];
      split; auto; discriminate.
  - apply filter_idem.
Qed.

Lemma removeIgnoredOCIMount_keeps_others_witness :
  let ignored := fun src => if (src =? "/host/secret")%string
                            then Some {| vmSource := src; vmDestination := "";
                                         vmType := ""; vmOptions := [];
                                         BlockDeviceID := "" |}
                            else None in
  let mounts := [sampleMount "/etc/hosts" "/host/hosts";
                 sampleMount "/secret" "/host/secret";
                 sampleMount "/data" "/host/data"] in
  removeIgnoredOCIMount ignored mounts
  = [sampleMount "/etc/hosts" "/host/hosts"; sampleMount "/data" "/host/data"]
  /\ In (sampleMount "/data" "/host/data") (removeIgnoredOCIMount ignored mounts).
Proof.
  intros ignored mounts. split; [reflexivity|].
  apply (proj1 (proj2 (removeIgnoredOCIMount_keeps_others ignored mounts))).
  split; [right; right; left; reflexivity | reflexivity].
Defined.


Lemma filter_none {A} (f : A -> bool) (l : list A) :
  (forall x, In x l -> f x = false) -> filter f l = [].
Proof.
  induction l as [|x l IH]; intros H; simpl; [reflexivity|].
  rewrite (H x (or_introl eq_refl)). apply IH. intros y Hy. apply H. right. exact Hy.
Qed.

Lemma ephemeralLoop_spec rootless mounts : forall acc,
  ephemeralLoop rootless mounts acc
  = (map (fun m => if isEphemeral m
                   then {| Destination := Destination m; mType := "bind";
                           Source := ephemeralSource rootless m;
                           mOptions := mOptions m |}
                   else m) mounts,
     (acc ++ map (fun m => ephemeralStorageAt (ephemeralSource rootless m))
                 (filter isEphemeral mounts))%list).
Proof.
  induction mounts as [|m rest IH]; intros acc; simpl.
  - rewrite app_nil_r. reflexivity.
  - unfold isEphemeral at 1 3.
    destruct (mType m =? KataEphemeralDevType)%string; rewrite IH.
    + simpl. rewrite <- app_assoc. reflexivity.
    + reflexivity.
Qed.

Lemma localLoop_spec rootless sandboxID rootfsSuffix mounts : forall acc,
  localLoop rootless sandboxID rootfsSuffix mounts acc
  = (map (fun m => if isLocal m
                   then set_Source (localSource rootless sandboxID rootfsSuffix m) m
                   else m) mounts,
     (acc ++ map (fun m => localStorageAt
                             (localSource rootless sandboxID rootfsSuffix m))
                 (filter isLocal mounts))%list).
Proof.
  induction mounts as [|m rest IH]; intros acc; simpl.
  - rewrite app_nil_r. reflexivity.
  - unfold isLocal at 1 3.
    destruct (mType m =? KataLocalDevType)%string; rewrite IH.
    + simpl. rewrite <- app_assoc. reflexivity.
    + reflexivity.
Qed.

(** X2. [handleEphemeralStorage] returns one tmpfs storage per mount of
    type "ephemeral", in order, mounted at the ephemeral root joined with
    the base name of the mount's source; that path becomes the mount's
    source and the mount becomes a bind mount; the other mounts are not
    touched.  Afterwards no mount is ephemeral, so a second call changes
    nothing and returns no storage. *)
Theorem handleEphemeralStorage_tmpfs (rootless : option string)
  (mounts : list Mount) :
  let mounts' := fst (handleEphemeralStorage rootless mounts) in
  let storages := snd (handleEphemeralStorage rootless mounts) in
  storages = map (fun m => ephemeralStorageAt
                             (filepath_Join [ephemeralPath rootless;
                                             filepath_Base (Source m)]))
                 (filter isEphemeral mounts)
  /\ length mounts' = length mounts
  /\ (forall i m, nth_error mounts i = Some m ->
        nth_error mounts' i =
        Some (if (mType m =? "ephemeral")%string
              then {| Destination := Destination m; mType := "bind";
                      Source := filepath_Join [ephemeralPath rootless;
                                               filepath_Base (Source m)];
                      mOptions := mOptions m |}
              else m))
  /\ Forall (fun m => mType m <> "ephemeral") mounts'
  /\ handleEphemeralStorage rootless mounts' = (mounts', []).
Proof.
  unfold handleEphemeralStorage. rewrite ephemeralLoop_spec. cbn [fst snd app].
  split; [reflexivity|]. split; [apply length_map|]. split.
  { intros i m Hi. rewrite nth_error_map, Hi. reflexivity. }
  assert (Hnone : Forall (fun m => mType m <> "ephemeral")
            (map (fun m => if isEphemeral m
                           then {| Destination := Destination m; mType := "bind";
                                   Source := ephemeralSource rootless m;
                                   mOptions := mOptions m |}
                           else m) mounts)).
  { apply Forall_forall. intros m' Hin. apply in_map_iff in Hin as (m & <- & _).
    unfold isEphemeral. destruct (mType m =? KataEphemeralDevType)%string eqn:E.
    - simpl. discriminate.
    - apply String.eqb_neq in E. exact E. }
  split; [exact Hnone|].
  rewrite ephemeralLoop_spec. cbn [app]. f_equal.
  - rewrite <- (map_id (map _ mounts)) at 2. apply map_ext_in.
    intros m' Hin. rewrite Forall_forall in Hnone. specialize (Hnone m' Hin).
    unfold isEphemeral. apply String.eqb_neq in Hnone.
    unfold KataEphemeralDevType. rewrite Hnone. reflexivity.
  - rewrite filter_none; [reflexivity|].
    intros m' Hin. rewrite Forall_forall in Hnone.
    specialize (Hnone m' Hin). unfold isEphemeral.
    apply String.eqb_neq in Hnone. unfold KataEphemeralDevType.
    rewrite Hnone. reflexivity.
Qed.

Lemma handleEphemeralStorage_tmpfs_witness :
  let vol := {| Destination := "/cache"; mType := "ephemeral";
                Source := "/var/lib/kubelet/pods/p1/volumes/empty-dir/cache";
                mOptions := ["rw"] |} in
  let mounts := [sampleMount "/etc/hosts" "/host/hosts"; vol] in
  handleEphemeralStorage None mounts
  = ([sampleMount "/etc/hosts" "/host/hosts";
      {| Destination := "/cache"; mType := "bind";
         Source := "/run/kata-containers/sandbox/ephemeral/cache";
         mOptions := ["rw"] |}],
     [ephemeralStorageAt "/run/kata-containers/sandbox/ephemeral/cache"])
  /\ nth_error (fst (handleEphemeralStorage None mounts)) 1
     = Some {| Destination := "/cache"; mType := "bind";
               Source := filepath_Join [ephemeralPath None;
                                        filepath_Base (Source vol)];
               mOptions := ["rw"] |}.
Proof.
  intros vol mounts. split; [reflexivity|].
  exact (proj1 (proj2 (proj2 (handleEphemeralStorage_tmpfs None mounts)))
           1%nat vol eq_refl).
Defined.


Lemma handleShm_map rootless shmSize DefaultShmSize mounts :
  handleShm rootless shmSize DefaultShmSize mounts
  = map (fun mnt => match handleShm rootless shmSize DefaultShmSize [mnt] with
                    | m' :: _ => m'
                    | [] => mnt
                    end) mounts.
Proof.
  induction mounts as [|m rest IH]; simpl; [reflexivity|].
  rewrite IH. reflexivity.
Qed.

Lemma filter_map_stable {A} (p q : A -> bool) (g : A -> A) (l : list A) :
  (forall x, p (g x) = q x) -> (forall x, q x = true -> g x = x) ->
  filter p (map g l) = filter q l.
Proof.
  intros Hp Hg. induction l as [|x l IH]; simpl; [reflexivity|].
  rewrite Hp. destruct (q x) eqn:E; rewrite IH; [rewrite Hg by exact E|];
    reflexivity.
Qed.

Lemma handleShm_keeps_ephemeral rootless shmSize DefaultShmSize mounts :
  filter isEphemeral (handleShm rootless shmSize DefaultShmSize mounts)
  = filter isEphemeral mounts.
Proof.
  rewrite handleShm_map. apply filter_map_stable; intros m; simpl;
    unfold isEphemeral.
  - destruct (negb (Destination m =? "/dev/shm")%string); [reflexivity|].
    destruct (mType m =? KataEphemeralDevType)%string eqn:E; [exact E|].
    destruct (shmSize >? 0); reflexivity.
  - intros E. destruct (negb (Destination m =? "/dev/shm")%string); [reflexivity|].
    rewrite E. reflexivity.
Qed.

Lemma passes_keep_local rootless shmSize DefaultShmSize mounts :
  filter isLocal
    (fst (handleEphemeralStorage rootless
            (handleShm rootless shmSize DefaultShmSize mounts)))
  = filter (fun m => isLocal m && negb (isShmMount m)) mounts.
Proof.
  unfold handleEphemeralStorage. rewrite ephemeralLoop_spec. cbn [fst].
  rewrite handleShm_map, map_map.
  apply filter_map_stable; intros m; simpl; unfold isLocal, isEphemeral, isShmMount.
  - destruct (Destination m =? "/dev/shm")%string; simpl.
    + destruct (mType m =? KataEphemeralDevType)%string eqn:E.
      * rewrite E. simpl. apply String.eqb_eq in E. rewrite E. reflexivity.
      * destruct (shmSize >? 0); simpl; rewrite andb_false_r; reflexivity.
    + destruct (mType m =? KataEphemeralDevType)%string eqn:E.
      * simpl. apply String.eqb_eq in E. rewrite E. reflexivity.
      * rewrite andb_true_r. reflexivity.
  - intros H. apply andb_true_iff in H as [Hl Hs].
    apply negb_true_iff in Hs. rewrite Hs. simpl.
    apply String.eqb_eq in Hl. rewrite Hl. reflexivity.
Qed.

(** X3. The three mount passes of [createContainer] ([handleShm], then
    [handleEphemeralStorage], then [handleLocalStorage]) do not disturb
    one another: ephemeral storages are those of the mounts as given (an
    ephemeral /dev/shm is left to the ephemeral pass), and local storages
    are those of the local mounts as given, except a local mount at
    /dev/shm, which [handleShm] has taken over. *)
Theorem createContainer_mount_passes (rootless : option string)
  (shmSize DefaultShmSize : Z) (sandboxID rootfsSuffix : string)
  (mounts : list Mount) :
  let shm := handleShm rootless shmSize DefaultShmSize mounts in
  let ephe := handleEphemeralStorage rootless shm in
  let loc := handleLocalStorage rootless sandboxID rootfsSuffix (fst ephe) in
  snd ephe = snd (handleEphemeralStorage rootless mounts)
  /\ snd loc
     = map (fun m => localStorageAt
                       (filepath_Join [kataGuestSharedDir rootless; sandboxID;
                                       rootfsSuffix; "local";
                                       filepath_Base (Source m)]))
           (filter (fun m => isLocal m && negb (isShmMount m)) mounts)
  /\ map Destination (fst loc) = map Destination mounts.
Proof.
  cbv zeta. split; [|split].
  - unfold handleEphemeralStorage. rewrite !ephemeralLoop_spec. cbn [snd app].
    rewrite handleShm_keeps_ephemeral. reflexivity.
  - unfold handleLocalStorage. rewrite localLoop_spec. cbn [snd app].
    rewrite passes_keep_local.
    apply map_ext_in. intros m Hin. reflexivity.
  - unfold handleLocalStorage, handleEphemeralStorage.
    rewrite localLoop_spec, ephemeralLoop_spec. cbn [fst].
    rewrite handleShm_map, !map_map. apply map_ext. intros m. simpl.
    repeat match goal with
           | |- context [if ?b then _ else _] => destruct b; simpl
           end; reflexivity.
Qed.

(* ===================================================================== *)
(** ** Spec constrainer: namespaces, devices, resources                    *)
(* ===================================================================== *)

Lemma constrainNamespaces_filter namespaces : forall tmpNamespaces,
  constrainNamespaces namespaces tmpNamespaces
  = (tmpNamespaces
     ++ map (fun ns => {| nsType := nsType ns; nsPath := "" |})
            (filter guestNamespace namespaces))%list.
Proof.
  induction namespaces as [|ns rest IH]; intros acc; simpl.
  - rewrite app_nil_r. reflexivity.
  - unfold guestNamespace at 1. unfold CgroupNamespace, NetworkNamespace.
    destruct (nsType ns =? "cgroup")%string; simpl; [apply IH|].
    destruct (nsType ns =? "network")%string; simpl; [apply IH|].
    rewrite IH, <- app_assoc. reflexivity.
Qed.

Lemma constrainDevices_filter devices : forall linuxDevices,
  constrainDevices devices linuxDevices
  = (linuxDevices ++ filter (fun d => negb (isVfioCharDevice d)) devices)%list.
Proof.
  induction devices as [|d rest IH]; intros acc; simpl.
  - rewrite app_nil_r. reflexivity.
  - unfold isVfioCharDevice at 1. unfold strings_HasPrefix, vfioPath.
    destruct ((devType d =? "c")%string && String.prefix "/dev/vfio/" (devPath d));
      simpl; [apply IH|].
    rewrite IH, <- app_assoc. reflexivity.
Qed.

(** The result of a [constraintGRPCSpec] that returns, field by field. *)
Lemma constraintGRPCSpec_fields (IsSystemdCgroup : string -> bool)
  (grpcSpec spec' : Spec) (passSeccomp : bool) :
  constraintGRPCSpec IsSystemdCgroup grpcSpec passSeccomp = Some spec' ->
  exists linux process resources cgroupsPath,
    spLinux grpcSpec = Some linux
    /\ spProcess grpcSpec = Some process
    /\ Resources linux = Some resources
    /\ constrainCgroupsPath IsSystemdCgroup (CgroupsPath linux) = Some cgroupsPath
    /\ spec' =
       {| spProcess := Some (set_SelinuxLabel "" process);
          Hooks := None;
          spLinux :=
            Some {| Resources := Some (constrainResources resources);
                    CgroupsPath := cgroupsPath;
                    Namespaces :=
                      map (fun ns => {| nsType := nsType ns; nsPath := "" |})
                          (filter guestNamespace (Namespaces linux));
                    Devices := filter (fun d => negb (isVfioCharDevice d))
                                      (Devices linux);
                    Seccomp := if passSeccomp then Seccomp linux else None |} |}.
Proof.
  unfold constraintGRPCSpec. intros H.
  destruct (spLinux grpcSpec) as [linux|] eqn:El; [|discriminate].
  destruct (spProcess grpcSpec) as [process|] eqn:Ep; [|discriminate].
  destruct (Resources linux) as [resources|] eqn:Er; [|discriminate].
  destruct (constrainCgroupsPath IsSystemdCgroup (CgroupsPath linux))
    as [cgroupsPath|] eqn:Ec; [|discriminate].
  exists linux, process, resources, cgroupsPath.
  split; [reflexivity|]. split; [reflexivity|]. split; [exact Er|].
  split; [exact Ec|].
  inversion H; subst; clear H.
  rewrite constrainNamespaces_filter, constrainDevices_filter. cbn [app].
  assert (Hlabel : (if negb (SelinuxLabel process =? "")%string
                    then set_SelinuxLabel "" process else process)
                   = set_SelinuxLabel "" process).
  { destruct (SelinuxLabel process =? "")%string eqn:E; simpl; [|reflexivity].
    apply String.eqb_eq in E. destruct process; simpl in *. subst. reflexivity. }
  rewrite Hlabel. destruct passSeccomp; reflexivity.
Qed.

(** X4. After [constraintGRPCSpec] the namespace list holds, in their
    order, the namespaces of the spec other than the network and the
    cgroup one, each with an empty path; the device list holds, in their
    order, the devices other than character devices below /dev/vfio/. *)
Theorem constraintGRPCSpec_namespaces_devices
  (IsSystemdCgroup : string -> bool) (grpcSpec spec' : Spec)
  (passSeccomp : bool) (linux : Linux) :
  constraintGRPCSpec IsSystemdCgroup grpcSpec passSeccomp = Some spec' ->
  spLinux grpcSpec = Some linux ->
  exists linux',
    spLinux spec' = Some linux'
    /\ map nsType (Namespaces linux')
       = filter (fun t => negb (t =? "cgroup")%string
                          && negb (t =? "network")%string)
                (map nsType (Namespaces linux))
    /\ Forall (fun ns => nsPath ns = "" /\ nsType ns <> "network"
                         /\ nsType ns <> "cgroup") (Namespaces linux')
    /\ Devices linux'
       = filter (fun d => negb ((devType d =? "c")%string
                                && String.prefix "/dev/vfio/" (devPath d)))
                (Devices linux)
    /\ (forall d, In d (Devices linux') <->
                  In d (Devices linux)
                  /\ ~ (devType d = "c"
                        /\ String.prefix "/dev/vfio/" (devPath d) = true)).
Proof.
  intros Hc Hl.
  destruct (constraintGRPCSpec_fields _ _ _ _ Hc)
    as (linux0 & process & resources & cgroupsPath & Hl0 & _ & _ & _ & ->).
  rewrite Hl in Hl0. inversion Hl0; subst linux0; clear Hl0.
  eexists. split; [reflexivity|]. cbn [Namespaces Devices].
  split; [|split; [|split]].
  - rewrite map_map. cbn [nsType]. clear Hc.
    induction (Namespaces linux) as [|ns l IH]; simpl; [reflexivity|].
    unfold guestNamespace at 1.
    destruct (negb (nsType ns =? "cgroup")%string
              && negb (nsType ns =? "network")%string); simpl; rewrite IH;
      reflexivity.
  - apply Forall_forall. intros ns' Hin.
    apply in_map_iff in Hin as (ns & <- & Hin).
    apply filter_In in Hin as [_ Hg]. unfold guestNamespace in Hg.
    apply andb_true_iff in Hg as [Hcg Hnet].
    apply negb_true_iff in Hcg, Hnet.
    apply String.eqb_neq in Hcg, Hnet. simpl. auto.
  - reflexivity.
  - intros d. rewrite filter_In. unfold isVfioCharDevice.
    rewrite negb_true_iff, andb_false_iff.
    split; intros [Hin H]; split; try exact Hin.
    + intros [Hc' Hp]. destruct H as [H|H].
      * apply String.eqb_neq in H. contradiction.
      * congruence.
    + destruct (devType d =? "c")%string eqn:E; [|left; reflexivity].
      right. destruct (String.prefix "/dev/vfio/" (devPath d)) eqn:Ep;
        [|reflexivity].
      exfalso. apply H. apply String.eqb_eq in E. auto.
Qed.

(** The sample spec, constrained. *)
Example constraintGRPCSpec_sample :
  constraintGRPCSpec IsSystemdCgroup_model (sampleSpec "/proc/42/ns/pid") false
  = Some sampleConstrainedSpec.
Proof. reflexivity. Qed.

Lemma constraintGRPCSpec_namespaces_devices_witness :
  exists linux',
    spLinux (sampleConstrainedSpec) = Some linux'
    /\ map nsType (Namespaces linux') = ["mount"; "pid"]
    /\ Devices linux' = [{| devPath := "/dev/null"; devType := "c" |}].
Proof.
  destruct (constraintGRPCSpec_namespaces_devices IsSystemdCgroup_model
              (sampleSpec "/proc/42/ns/pid") sampleConstrainedSpec false
              (sampleLinux "/proc/42/ns/pid") eq_refl eq_refl)
    as (linux' & Hl & Hns & _ & Hdev & _).
  exists linux'. split; [exact Hl|]. split; [exact Hns | exact Hdev].
Defined.

(** X5. [constraintGRPCSpec] returns exactly when the spec's [Process],
    [Linux] and [Linux.Resources] are set and a cgroups path that
    [IsSystemdCgroup] accepts has at least three colon-separated fields;
    in every other case it panics (nil dereference, index out of range). *)
Theorem constraintGRPCSpec_returns_iff (IsSystemdCgroup : string -> bool)
  (grpcSpec : Spec) (passSeccomp : bool) :
  constraintGRPCSpec IsSystemdCgroup grpcSpec passSeccomp <> None
  <-> exists linux process resources,
        spLinux grpcSpec = Some linux
        /\ spProcess grpcSpec = Some process
        /\ Resources linux = Some resources
        /\ (IsSystemdCgroup (CgroupsPath linux) = true ->
            3 <= llen (strings_Split ":" (CgroupsPath linux))).
Proof.
  unfold constraintGRPCSpec, constrainCgroupsPath. split.
  - intros H.
    destruct (spLinux grpcSpec) as [linux|]; [|congruence].
    destruct (spProcess grpcSpec) as [process|]; [|congruence].
    destruct (Resources linux) as [resources|] eqn:Hr; [|congruence].
    exists linux, process, resources.
    split; [reflexivity|]. split; [reflexivity|]. split; [exact Hr|].
    intros Hsys. rewrite Hsys in H.
    destruct (strings_Split ":" (CgroupsPath linux)) as [|a [|b [|c rest]]];
      simpl in H; try congruence.
    unfold llen. simpl length. lia.
  - intros (linux & process & resources & -> & -> & Hr & Hsplit).
    rewrite Hr.
    destruct (IsSystemdCgroup (CgroupsPath linux)); [|discriminate].
    specialize (Hsplit eq_refl).
    destruct (strings_Split ":" (CgroupsPath linux)) as [|a [|b [|c rest]]];
      unfold llen in Hsplit; simpl in Hsplit; try lia.
    simpl. discriminate.
Qed.

Lemma constraintGRPCSpec_returns_iff_witness :
  constraintGRPCSpec IsSystemdCgroup_model (sampleSpec "/proc/42/ns/pid") false
  <> None
  /\ constraintGRPCSpec IsSystemdCgroup_model
       {| spProcess := None; Hooks := None;
          spLinux := Some (sampleLinux "") |} false = None.
Proof.
  split.
  - apply (proj2 (constraintGRPCSpec_returns_iff IsSystemdCgroup_model
                    (sampleSpec "/proc/42/ns/pid") false)).
    eexists. eexists. eexists.
    split; [reflexivity|]. split; [reflexivity|]. split; [reflexivity|].
    intros _. vm_compute. discriminate.
  - reflexivity.
Defined.


(** X6. Of the resource limits [constraintGRPCSpec] clears the device,
    pids, block-I/O, hugepage and network ones and empties the CPU set
    fields ([Cpus], [Mems]); the memory limits and the CPU shares, quota
    and period reach the guest as they are.  Hooks are dropped, the SELinux
    label is emptied, the rest of the process is untouched, and seccomp is
    kept exactly when [passSeccomp] is set. *)
Theorem constraintGRPCSpec_resources (IsSystemdCgroup : string -> bool)
  (grpcSpec spec' : Spec) (passSeccomp : bool) :
  constraintGRPCSpec IsSystemdCgroup grpcSpec passSeccomp = Some spec' ->
  exists linux process resources linux' process' resources',
    spLinux grpcSpec = Some linux /\ spProcess grpcSpec = Some process
    /\ Resources linux = Some resources
    /\ spLinux spec' = Some linux' /\ spProcess spec' = Some process'
    /\ Resources linux' = Some resources'
    /\ Memory resources' = Memory resources
    /\ option_map (fun c => (Shares c, Quota c, Period c)) (CPU resources')
       = option_map (fun c => (Shares c, Quota c, Period c)) (CPU resources)
    /\ option_map (fun c => (Cpus c, Mems c)) (CPU resources')
       = option_map (fun _ => ("", "")) (CPU resources)
    /\ resDevices resources' = [] /\ Pids resources' = None
    /\ BlockIO resources' = None /\ HugepageLimits resources' = []
    /\ Network resources' = None
    /\ Hooks spec' = None
    /\ SelinuxLabel process' = ""
    /\ (Terminal process', pUser process', pArgs process', pEnv process',
        Cwd process')
       = (Terminal process, pUser process, pArgs process, pEnv process,
          Cwd process)
    /\ Seccomp linux' = (if passSeccomp then Seccomp linux else None).
Proof.
  intros Hc.
  destruct (constraintGRPCSpec_fields _ _ _ _ Hc)
    as (linux & process & resources & cgroupsPath & Hl & Hp & Hr & _ & ->).
  exists linux, process, resources.
  eexists. eexists. eexists.
  split; [exact Hl|]. split; [exact Hp|]. split; [exact Hr|].
  split; [reflexivity|]. split; [reflexivity|]. split; [reflexivity|].
  cbn. destruct (CPU resources); repeat split; reflexivity.
Qed.

Lemma constraintGRPCSpec_resources_witness :
  exists linux' resources',
    spLinux sampleConstrainedSpec = Some linux'
    /\ Resources linux' = Some resources'
    /\ Memory resources' = Some "limit=512MiB"
    /\ Pids resources' = None.
Proof.
  destruct (constraintGRPCSpec_resources IsSystemdCgroup_model
              (sampleSpec "/proc/42/ns/pid") sampleConstrainedSpec false eq_refl)
    as (linux & process & resources & linux' & process' & resources'
        & Hl & _ & Hr & Hl' & _ & Hr' & Hmem & _ & _ & _ & Hpids & _).
  exists linux', resources'.
  split; [exact Hl'|]. split; [exact Hr'|].
  assert (Hres : resources = {| resDevices := ["c 1:3 rwm"];
                                Memory := Some "limit=512MiB";
                                CPU := Some {| Shares := 1024; Quota := 50000;
                                               Period := 100000;
                                               Cpus := "0-3"; Mems := "0" |};
                                Pids := Some "limit=100"; BlockIO := None;
                                HugepageLimits := []; Network := None |}).
  { inversion Hl; subst linux. inversion Hr. reflexivity. }
  rewrite Hmem, Hres. split; [reflexivity | exact Hpids].
Defined.

Lemma handlePidNamespace_cases (grpcSpec : Spec) (linux : Linux) :
  spLinux grpcSpec = Some linux ->
  (Forall (fun ns => nsType ns <> PIDNamespace) (Namespaces linux)
   /\ handlePidNamespace grpcSpec = Some (false, grpcSpec))
  \/ (exists before entry after,
        Namespaces linux = (before ++ entry :: after)%list
        /\ Forall (fun ns => nsType ns <> PIDNamespace) before
        /\ nsType entry = PIDNamespace
        /\ handlePidNamespace grpcSpec
           = Some (negb (nsPath entry =? "")%string,
                   set_spLinux
                     (Some (set_Namespaces (before ++ after)%list linux))
                     grpcSpec)).
Proof.
  intros Hlinux. unfold handlePidNamespace. rewrite Hlinux.
  destruct (findPidNamespace_spec (Namespaces linux) 0)
    as [(Hi & Hs & Hall) | (before & entry & after & Hl & Hb & He & Hi & Hs)].
  - left. split; [exact Hall|].
    destruct (findPidNamespace (Namespaces linux) 0) as [pidIndex sharedPidNs].
    simpl in Hi, Hs. subst. reflexivity.
  - right. exists before, entry, after.
    split; [exact Hl|]. split; [exact Hb|]. split; [exact He|].
    destruct (findPidNamespace (Namespaces linux) 0) as [pidIndex sharedPidNs].
    simpl in Hi, Hs. subst pidIndex sharedPidNs. cbv beta iota.
    assert (Hge : (llen before >=? 0) = true)
      by (rewrite Z.geb_leb; apply Z.leb_le; unfold llen; lia).
    rewrite Hge, Hl. unfold llen.
    replace (Z.to_nat (Z.of_nat (length before))) with (length before) by lia.
    replace (Z.to_nat (Z.of_nat (length before) + 1))
      with (length before + 1)%nat by lia.
    rewrite firstn_skipn_middle. reflexivity.
Qed.

(** X7. [createContainer] reads the shared-PID flag before it constrains
    the spec: the flag in the request is that of the first PID-namespace
    entry as the runtime gave it (true exactly when its path is set), and
    the namespaces sent are the remaining entries without the cgroup and
    network ones, every path emptied.  Without a PID-namespace entry the
    flag is false and only the constraining applies. *)
Theorem createContainer_pid_then_constrain (IsSystemdCgroup : string -> bool)
  (grpcSpec spec2 : Spec) (linux : Linux) (passSeccomp sharedPidNs : bool) :
  spLinux grpcSpec = Some linux ->
  createContainer_grpcSpec IsSystemdCgroup grpcSpec passSeccomp
  = Some (sharedPidNs, spec2) ->
  exists linux2,
    spLinux spec2 = Some linux2
    /\ Forall (fun ns => nsPath ns = "" /\ nsType ns <> NetworkNamespace
                         /\ nsType ns <> CgroupNamespace) (Namespaces linux2)
    /\ ((Forall (fun ns => nsType ns <> PIDNamespace) (Namespaces linux)
         /\ sharedPidNs = false
         /\ Namespaces linux2
            = map (fun ns => {| nsType := nsType ns; nsPath := "" |})
                  (filter guestNamespace (Namespaces linux)))
        \/ (exists before entry after,
              Namespaces linux = (before ++ entry :: after)%list
              /\ Forall (fun ns => nsType ns <> PIDNamespace) before
              /\ nsType entry = PIDNamespace
              /\ (sharedPidNs = true <-> nsPath entry <> "")
              /\ Namespaces linux2
                 = map (fun ns => {| nsType := nsType ns; nsPath := "" |})
                       (filter guestNamespace (before ++ after)))).
Proof.
  intros Hlinux Hc. unfold createContainer_grpcSpec in Hc.
  assert (Hshape : forall spec1 l1,
            spLinux spec1 = Some l1 ->
            constraintGRPCSpec IsSystemdCgroup spec1 passSeccomp = Some spec2 ->
            exists linux2,
              spLinux spec2 = Some linux2
              /\ Namespaces linux2
                 = map (fun ns => {| nsType := nsType ns; nsPath := "" |})
                       (filter guestNamespace (Namespaces l1))).
  { intros spec1 l1 Hl1 H1.
    destruct (constraintGRPCSpec_fields _ _ _ _ H1)
      as (l & p & r & cg & Hl & _ & _ & _ & ->).
    rewrite Hl1 in Hl. inversion Hl; subst l.
    eexists. split; reflexivity. }
  assert (Hclean : forall l,
            Forall (fun ns => nsPath ns = "" /\ nsType ns <> NetworkNamespace
                              /\ nsType ns <> CgroupNamespace)
                   (map (fun ns => {| nsType := nsType ns; nsPath := "" |})
                        (filter guestNamespace l))).
  { intros l. apply Forall_forall. intros ns' Hin.
    apply in_map_iff in Hin as (ns & <- & Hin).
    apply filter_In in Hin as [_ Hg]. unfold guestNamespace in Hg.
    simpl. split; [reflexivity|].
    apply andb_true_iff in Hg as [Hg1 Hg2].
    apply negb_true_iff in Hg1, Hg2.
    apply String.eqb_neq in Hg1, Hg2. split; assumption. }
  destruct (handlePidNamespace_cases grpcSpec linux Hlinux)
    as [(Hall & Hh) | (before & entry & after & Hl & Hb & He & Hh)];
    rewrite Hh in Hc.
  - destruct (constraintGRPCSpec IsSystemdCgroup grpcSpec passSeccomp)
      as [s2|] eqn:H2; [|discriminate].
    inversion Hc; subst.
    destruct (Hshape grpcSpec linux Hlinux H2) as (linux2 & Hl2 & Hns).
    exists linux2. split; [exact Hl2|]. split; [rewrite Hns; apply Hclean|].
    left. split; [exact Hall|]. split; [reflexivity | exact Hns].
  - match type of Hc with
    | context [constraintGRPCSpec _ ?s _] =>
        destruct (constraintGRPCSpec IsSystemdCgroup s passSeccomp)
          as [s2|] eqn:H2; [|discriminate];
        inversion Hc; subst s2 sharedPidNs;
        destruct (Hshape s (set_Namespaces (before ++ after)%list linux)
                         eq_refl H2) as (linux2 & Hl2 & Hns)
    end.
    exists linux2. split; [exact Hl2|]. split; [rewrite Hns; apply Hclean|].
    right. exists before, entry, after.
    split; [exact Hl|]. split; [exact Hb|]. split; [exact He|].
    split; [|exact Hns].
    destruct (nsPath entry =? "")%string eqn:E; simpl.
    + apply String.eqb_eq in E. split; [discriminate|congruence].
    + apply String.eqb_neq in E. split; auto.
Qed.

Lemma createContainer_pid_then_constrain_witness :
  createContainer_grpcSpec IsSystemdCgroup_model (sampleSpec "/proc/42/ns/pid")
    false
  = Some (true, sampleConstrainedWithout)
  /\ exists linux2,
       spLinux sampleConstrainedWithout = Some linux2
       /\ Forall (fun ns => nsPath ns = "" /\ nsType ns <> NetworkNamespace
                            /\ nsType ns <> CgroupNamespace) (Namespaces linux2).
Proof.
  split; [reflexivity|].
  destruct (createContainer_pid_then_constrain IsSystemdCgroup_model
              (sampleSpec "/proc/42/ns/pid") sampleConstrainedWithout
              (sampleLinux "/proc/42/ns/pid") false true eq_refl eq_refl)
    as (linux2 & Hl2 & Hclean & _).
  exists linux2. split; [exact Hl2 | exact Hclean].
Defined.

(* ===================================================================== *)
(** ** Connection manager and dispatcher: channel discipline               *)
(* ===================================================================== *)

Lemma preserves_wired_io {A} (f : Env -> list Event -> A) (e : Event) :
  preserves wired (io f e).
Proof. intros env w H; exact H. Qed.

Lemma preserves_wired_modify (f : kataAgent -> kataAgent) :
  (forall k, client (f k) = client k /\ reqHandlers (f k) = reqHandlers k) ->
  preserves wired (modify f).
Proof.
  intros Hf env w H. unfold wired, modify in *. simpl.
  destruct (Hf (agent w)) as [-> ->]. exact H.
Qed.

#[local] Hint Resolve preserves_wired_io : preserves.
#[local] Hint Extern 1 (preserves wired (modify _)) =>
  (apply preserves_wired_modify; intros []; split; reflexivity) : preserves.

Lemma connect_preserves_wired : preserves wired connect.
Proof.
  intros env w H. unfold connect, installReqFunc, wired in *. agent_unfold.
  repeat (destruct_head_match; simpl); auto.
  intros _. apply H. discriminate.
Qed.

Lemma disconnect_preserves_wired : preserves wired disconnect.
Proof.
  intros env w H. unfold disconnect, wired in *. agent_unfold.
  repeat (destruct_head_match; simpl); auto; try congruence.
  intros _. apply H. discriminate.
Qed.

Lemma reuseAgent_preserves_wired a : preserves wired (reuseAgent a).
Proof. intros env w H. unfold reuseAgent, installReqFunc, wired. auto. Qed.

Lemma handler_preserves_wired ctx r : preserves wired (handler ctx r).
Proof. unfold handler. preserves_auto. Qed.

#[local] Hint Resolve connect_preserves_wired disconnect_preserves_wired
  reuseAgent_preserves_wired handler_preserves_wired : preserves.

Lemma markDead_preserves_wired : preserves wired markDead.
Proof. unfold markDead. preserves_auto. Qed.

Lemma sendReq_preserves_wired r : preserves wired (sendReq r).
Proof. unfold sendReq. preserves_auto. Qed.

#[local] Hint Resolve markDead_preserves_wired sendReq_preserves_wired
  : preserves.

Lemma check_preserves_wired : preserves wired check.
Proof. unfold check. preserves_auto. Qed.

Lemma updateInterfaces_preserves_wired l : preserves wired (updateInterfaces l).
Proof.
  induction l as [|ifc l IH]; simpl; [auto with preserves|].
  unfold updateInterface. preserves_auto.
Qed.

Lemma updateRoutes_preserves_wired r : preserves wired (updateRoutes r).
Proof. unfold updateRoutes. preserves_auto. Qed.

Lemma addARPNeighbors_preserves_wired n : preserves wired (addARPNeighbors n).
Proof. unfold addARPNeighbors. preserves_auto. Qed.

Lemma setProxy_preserves_wired pid url : preserves wired (setProxy pid url).
Proof. unfold setProxy, proxyStop. preserves_auto. Qed.

#[local] Hint Resolve check_preserves_wired updateInterfaces_preserves_wired
  updateRoutes_preserves_wired addARPNeighbors_preserves_wired
  setProxy_preserves_wired : preserves.

Lemma startProxy_preserves_wired sb : preserves wired (startProxy sb).
Proof. unfold startProxy, proxyStop. preserves_auto. Qed.

Lemma getDNS_preserves_wired sb : preserves wired (getDNS sb).
Proof. unfold getDNS. preserves_auto. Qed.

#[local] Hint Resolve startProxy_preserves_wired getDNS_preserves_wired
  : preserves.

Lemma startSandbox_preserves_wired sb : preserves wired (startSandbox sb).
Proof. unfold startSandbox, proxyStop. preserves_auto. Qed.

Lemma stopSandbox_preserves_wired : preserves wired stopSandbox.
Proof. unfold stopSandbox, proxyStop. preserves_auto. Qed.

Lemma memHotplugByProbe_preserves_wired a s m :
  preserves wired (memHotplugByProbe a s m).
Proof. unfold memHotplugByProbe. preserves_auto. Qed.

Lemma copyLoop_preserves_wired fuel chunk cpReq b rem off :
  preserves wired (copyLoop fuel chunk cpReq b rem off).
Proof.
  revert cpReq b rem off.
  induction fuel as [|fuel IH]; intros; simpl; [auto with preserves|].
  preserves_auto.
Qed.

#[local] Hint Resolve copyLoop_preserves_wired : preserves.

Lemma copyFile_preserves_wired fuel src dst :
  preserves wired (copyFile fuel src dst).
Proof. unfold copyFile, copyFileWith. preserves_auto. Qed.

Lemma init_preserves_wired c p s b st : preserves wired (init c p s b st).
Proof. unfold init, handleTraceSettings. preserves_auto. Qed.

Lemma internalConfigure_preserves_wired g b c :
  preserves wired (internalConfigure g b c).
Proof. unfold internalConfigure. preserves_auto. Qed.

#[local] Hint Resolve startSandbox_preserves_wired stopSandbox_preserves_wired
  memHotplugByProbe_preserves_wired copyFile_preserves_wired
  init_preserves_wired internalConfigure_preserves_wired : preserves.

Lemma runOp_preserves_wired op : preserves wired (runOp op).
Proof.
  destruct op; unfold runOp, discard, setProxyFromGrpc, load; preserves_auto.
Qed.

Lemma runOps_preserves_wired ops : preserves wired (runOps ops).
Proof.
  induction ops as [|op ops IH]; simpl; [auto with preserves|].
  pose proof (runOp_preserves_wired op). preserves_auto.
Qed.

(** What [sendReq] does once [connect] has returned nil with the client
    [c] and the handler map in place. *)
Lemma sendReq_after_connect (r : Request) env w w1 c :
  connect env w = (None, w1) ->
  client (agent w1) = Some c ->
  reqHandlers (agent w1) = Some registeredRequests ->
  let call := EvCall c (getReqContext (MessageName r)) r in
  sendReq r env w
  = (client_Call env (log w1) c (getReqContext (MessageName r)) r,
     {| agent := if keepConn (agent w1) then agent w1
                 else afterClose (client_Close env (log w1 ++ [call]) c)
                                 (agent w1);
        log := (log w1
                ++ call :: (if keepConn (agent w1) then [] else [EvClose c]))%list
     |}).
Proof.
  intros Hconn Hc Hh call. unfold sendReq, handler, disconnect.
  unfold bind, ret, io, modify, getAgent, getEnv. rewrite Hconn.
  repeat (cbv beta iota; cbn [agent log];
          rewrite ?Hc, ?Hh, ?registered_hasHandler).
  destruct (keepConn (agent w1)); cbn [negb fst snd agent log].
  - reflexivity.
  - repeat (cbv beta iota; cbn [agent log]; rewrite ?Hc).
    unfold afterClose. fold call.
    destruct (client_Close env (log w1 ++ [call]) c) as [err|];
      cbv beta iota.
    + destruct (Code_eqb (Convert_Code err) Canceled); cbn;
        rewrite <- app_assoc; reflexivity.
    + cbn. rewrite <- app_assoc. reflexivity.
Qed.


Lemma connect_dials env w c :
  dead (agent w) = false ->
  client (agent w) = None ->
  ProxyPid (state (agent w)) <= 0 ->
  NewAgentClient env (log w) (URL (state (agent w))) (proxyBuiltIn (agent w))
  = Ok c ->
  connect env w
  = (None, {| agent := connected c (agent w);
              log := (log w ++ [EvDial (URL (state (agent w)))
                                       (proxyBuiltIn (agent w))])%list |}).
Proof.
  intros Hd Hc Hp Hdial. unfold connect, installReqFunc. agent_unfold.
  rewrite Hd, Hc.
  destruct (ProxyPid (state (agent w)) >? 0) eqn:E;
    [apply Z.gtb_lt in E; lia|].
  simpl. rewrite Hdial. reflexivity.
Qed.

Lemma connect_connected env w c :
  dead (agent w) = false -> client (agent w) = Some c ->
  connect env w = (None, w).
Proof.
  intros Hd Hc. unfold connect. agent_unfold. rewrite Hd, Hc. reflexivity.
Qed.

(** [sendReq] is its [connect], then the handler lookup and call, then the
    deferred [disconnect]. *)
Lemma sendReq_steps (request : Request) :
  sendReq request
  = (cerr <- connect ;;
     match cerr with
     | Some err => ret (Err err)
     | None =>
         k <- getAgent ;;
         r <- sendReq_dispatch request ;;
         sendReq_deferred (keepConn k) ;;;
         ret r
     end).
Proof. reflexivity. Qed.

(** X8. [sendReq] is its [connect], then the handler lookup and call, then
    the deferred [disconnect]; the lookup comes after [connect] has
    returned and holds no lock.  For one caller at a time this is safe:
    on a session whose handler map is installed whenever its client is
    set, once [connect] returns nil the request goes out on the connected
    client with the context of its message name, and the caller gets the
    call's outcome.  For two callers on a session that does not keep its
    connection it is not: when the second caller's request runs between
    the first caller's [connect] and its handler lookup, the second
    caller's deferred [disconnect] has set the handler map to nil, and the
    first caller gets "Invalid request type" though its [connect] returned
    nil; no call is issued for it. *)
Theorem sendReq_handler_lookup :
  (forall request,
     sendReq request
     = (cerr <- connect ;;
        match cerr with
        | Some err => ret (Err err)
        | None =>
            k <- getAgent ;;
            r <- sendReq_dispatch request ;;
            sendReq_deferred (keepConn k) ;;;
            ret r
        end))
  /\ (forall r env w,
     wired w -> fst (connect env w) = None ->
     exists c,
       client (agent (snd (connect env w))) = Some c
       /\ fst (sendReq r env w)
          = client_Call env (log (snd (connect env w))) c
                        (getReqContext (MessageName r)) r)
  /\ (forall first second env w c,
        dead (agent w) = false ->
        client (agent w) = None ->
        ProxyPid (state (agent w)) <= 0 ->
        keepConn (agent w) = false ->
        NewAgentClient env (log w) (URL (state (agent w)))
                       (proxyBuiltIn (agent w)) = Ok c ->
        let dial := EvDial (URL (state (agent w))) (proxyBuiltIn (agent w)) in
        let call := EvCall c (getReqContext (MessageName second)) second in
        client_Close env (log w ++ [dial; call]) c = None ->
        fst (connect env w) = None
        /\ sendReq_interleaved first second env w
           = ((Err (errorsNew "Invalid request type"),
               Some (client_Call env (log w ++ [dial]) c
                                 (getReqContext (MessageName second)) second)),
              {| agent := dropped (connected c (agent w));
                 log := (log w ++ [dial; call; EvClose c])%list |})).
Proof.
  split; [exact sendReq_steps|]. split.
  - intros r env w Hw Hconn.
    pose proof (connect_preserves_wired env w Hw) as Hw1.
    pose proof (connect_ok_client env w Hconn) as Hc.
    destruct (connect env w) as [cerr w1] eqn:E. simpl in *. subst cerr.
    destruct (client (agent w1)) as [c|] eqn:Ec; [|congruence].
    exists c. split; [reflexivity|].
    assert (Hh : reqHandlers (agent w1) = Some registeredRequests)
      by (apply Hw1; rewrite Ec; discriminate).
    rewrite (sendReq_after_connect r env w w1 c E Ec Hh). reflexivity.
  - intros first second env w c Hd Hc Hp Hk Hdial dial call Hclose.
    pose proof (connect_dials env w c Hd Hc Hp Hdial) as Hconn.
    fold dial in Hconn.
    split; [rewrite Hconn; reflexivity|].
    set (w1 := {| agent := connected c (agent w);
                  log := (log w ++ [dial])%list |}) in *.
    assert (Hconn1 : connect env w1 = (None, w1))
      by (apply (connect_connected env w1 c); [exact Hd | reflexivity]).
    pose proof (sendReq_after_connect second env w1 w1 c Hconn1 eq_refl eq_refl)
      as Hsecond.
    cbv zeta in Hsecond. cbn [agent log w1] in Hsecond.
    change (keepConn (connected c (agent w))) with (keepConn (agent w)) in Hsecond.
    rewrite Hk in Hsecond. fold call in Hsecond.
    rewrite <- app_assoc in Hsecond. cbn [app] in Hsecond.
    rewrite Hclose in Hsecond. cbn [afterClose] in Hsecond.
    unfold sendReq_interleaved. unfold bind at 1. rewrite Hconn. fold w1.
    unfold bind at 1. unfold getAgent at 1. cbv beta iota.
    unfold bind at 1. rewrite Hsecond.
    unfold sendReq_dispatch, sendReq_deferred, disconnect.
    unfold bind, ret, getAgent. cbn [agent w1].
    change (keepConn (connected c (agent w))) with (keepConn (agent w)).
    rewrite Hk. cbn. rewrite orb_true_r. cbn. rewrite <- app_assoc. reflexivity.
Qed.

Lemma sendReq_handler_lookup_witness :
  (exists c,
     client (agent (snd (connect cooperativeEnv freshWorld))) = Some c
     /\ fst (sendReq GuestDetailsRequest cooperativeEnv freshWorld)
        = client_Call cooperativeEnv
            (log (snd (connect cooperativeEnv freshWorld))) c
            (getReqContext (MessageName GuestDetailsRequest))
            GuestDetailsRequest)
  /\ fst (connect cooperativeEnv freshWorld) = None
  /\ fst (sendReq_interleaved CheckRequest GuestDetailsRequest
            cooperativeEnv freshWorld)
     = (Err (errorsNew "Invalid request type"), Some (Ok EmptyResponse))
  /\ calls (log (snd (sendReq_interleaved CheckRequest GuestDetailsRequest
                        cooperativeEnv freshWorld)))
     = [(Some defaultRequestTimeout, GuestDetailsRequest)].
Proof.
  assert (Hw : wired freshWorld) by (intros H; exfalso; apply H; reflexivity).
  destruct sendReq_handler_lookup as (_ & Hone & Htwo).
  destruct (Htwo CheckRequest GuestDetailsRequest cooperativeEnv freshWorld 1%nat
              eq_refl eq_refl ltac:(simpl; lia) eq_refl eq_refl eq_refl)
    as [Hconn Hrace].
  split; [exact (Hone GuestDetailsRequest cooperativeEnv freshWorld Hw eq_refl)|].
  split; [exact Hconn|].
  rewrite Hrace. split; reflexivity.
Defined.

(** X9. On a session that keeps its connection ([keepConn]), the first
    request dials and calls and leaves the client set; every later request
    goes out on that client with no further dial and no close. *)
Theorem sendReq_long_lived_dials_once (r r2 : Request) (env : Env) (w : World)
  (c : AgentClient) :
  dead (agent w) = false ->
  client (agent w) = None ->
  ProxyPid (state (agent w)) <= 0 ->
  keepConn (agent w) = true ->
  NewAgentClient env (log w) (URL (state (agent w))) (proxyBuiltIn (agent w))
  = Ok c ->
  let w' := snd (sendReq r env w) in
  log w' = (log w ++ [EvDial (URL (state (agent w))) (proxyBuiltIn (agent w));
                      EvCall c (getReqContext (MessageName r)) r])%list
  /\ client (agent w') = Some c
  /\ log (snd (sendReq r2 env w'))
     = (log w' ++ [EvCall c (getReqContext (MessageName r2)) r2])%list
  /\ agent (snd (sendReq r2 env w')) = agent w'.
Proof.
  intros Hd Hc Hp Hk Hdial w'.
  pose proof (connect_dials env w c Hd Hc Hp Hdial) as Hconn.
  assert (Hw' : w' = {| agent := connected c (agent w);
                        log := (log w ++ [EvDial (URL (state (agent w)))
                                                 (proxyBuiltIn (agent w));
                                          EvCall c (getReqContext (MessageName r)) r])%list |}).
  { unfold w'. rewrite (sendReq_after_connect r env w _ c Hconn eq_refl eq_refl).
    cbn [snd agent log].
    change (keepConn (connected c (agent w))) with (keepConn (agent w)).
    rewrite Hk, <- app_assoc. reflexivity. }
  split; [rewrite Hw'; reflexivity|]. split; [rewrite Hw'; reflexivity|].
  assert (Hconn2 : connect env w' = (None, w')).
  { apply (connect_connected env w' c); rewrite Hw'; [exact Hd | reflexivity]. }
  rewrite (sendReq_after_connect r2 env w' w' c Hconn2);
    [| rewrite Hw'; reflexivity | rewrite Hw'; reflexivity].
  cbn [snd agent log].
  assert (Hk' : keepConn (agent w') = true) by (rewrite Hw'; exact Hk).
  rewrite Hk'. split; reflexivity.
Qed.

Lemma sendReq_long_lived_dials_once_witness :
  let w := {| agent := longLivedAgent; log := [] |} in
  let w' := snd (sendReq CheckRequest cooperativeEnv w) in
  log w' = [EvDial "" false; EvCall 1%nat (Some checkRequestTimeout) CheckRequest]
  /\ log (snd (sendReq GuestDetailsRequest cooperativeEnv w'))
     = (log w' ++ [EvCall 1%nat (Some defaultRequestTimeout) GuestDetailsRequest])%list.
Proof.
  intros w w'.
  destruct (sendReq_long_lived_dials_once CheckRequest GuestDetailsRequest
              cooperativeEnv w 1%nat eq_refl eq_refl
              ltac:(simpl; lia) eq_refl eq_refl) as (Hlog & _ & Hlog2 & _).
  split; [exact Hlog | exact Hlog2].
Defined.

(** X10. On a session that does not keep its connection, a request dials,
    calls and closes, in this order.  The channel is dropped (client and
    handler map nil, so the next request dials again) when the close
    returns nil or an error of code Canceled; on any other close error the
    client stays set, and the next request goes out on it without a
    dial. *)
Theorem sendReq_short_lived_closes (r r2 : Request) (env : Env) (w : World)
  (c : AgentClient) :
  dead (agent w) = false ->
  client (agent w) = None ->
  ProxyPid (state (agent w)) <= 0 ->
  keepConn (agent w) = false ->
  NewAgentClient env (log w) (URL (state (agent w))) (proxyBuiltIn (agent w))
  = Ok c ->
  let dial := EvDial (URL (state (agent w))) (proxyBuiltIn (agent w)) in
  let call := EvCall c (getReqContext (MessageName r)) r in
  let closed := client_Close env (log w ++ [dial; call]) c in
  let w' := snd (sendReq r env w) in
  log w' = (log w ++ [dial; call; EvClose c])%list
  /\ ((closed = None
       \/ exists err, closed = Some err /\ Convert_Code err = Canceled) ->
      agent w' = dropped (connected c (agent w))
      /\ client (agent w') = None /\ reqHandlers (agent w') = None)
  /\ (forall err, closed = Some err -> Convert_Code err <> Canceled ->
      agent w' = connected c (agent w)
      /\ log (snd (sendReq r2 env w'))
         = (log w' ++ [EvCall c (getReqContext (MessageName r2)) r2;
                       EvClose c])%list).
Proof.
  intros Hd Hc Hp Hk Hdial dial call closed w'.
  pose proof (connect_dials env w c Hd Hc Hp Hdial) as Hconn.
  assert (Hw' : w' = {| agent := afterClose closed (connected c (agent w));
                        log := (log w ++ [dial; call; EvClose c])%list |}).
  { unfold w'. rewrite (sendReq_after_connect r env w _ c Hconn eq_refl eq_refl).
    cbn [snd agent log].
    change (keepConn (connected c (agent w))) with (keepConn (agent w)).
    rewrite Hk, <- !app_assoc. reflexivity. }
  split; [rewrite Hw'; reflexivity|]. split.
  - intros Hclosed.
    assert (Ha : agent w' = dropped (connected c (agent w))).
    { rewrite Hw'. cbn [agent]. unfold afterClose.
      destruct Hclosed as [-> | (err & -> & Hcode)]; [reflexivity|].
      rewrite Hcode. reflexivity. }
    rewrite Ha. repeat split; reflexivity.
  - intros err Hclosed Hcode.
    assert (Ha : agent w' = connected c (agent w)).
    { rewrite Hw'. cbn [agent]. unfold afterClose. rewrite Hclosed.
      destruct (Code_eqb (Convert_Code err) Canceled) eqn:E; [|reflexivity].
      apply Code_eqb_eq in E. contradiction. }
    split; [exact Ha|].
    assert (Hconn2 : connect env w' = (None, w')).
    { apply (connect_connected env w' c); rewrite Ha; [exact Hd | reflexivity]. }
    rewrite (sendReq_after_connect r2 env w' w' c Hconn2);
      [| rewrite Ha; reflexivity | rewrite Ha; reflexivity].
    cbn [snd log]. rewrite Ha.
    change (keepConn (connected c (agent w))) with (keepConn (agent w)).
    rewrite Hk. reflexivity.
Qed.

Lemma sendReq_short_lived_closes_witness :
  let w' := snd (sendReq CheckRequest cooperativeEnv freshWorld) in
  let busy := withClose (Some (statusError Unavailable "transport is closing"))
                        cooperativeEnv in
  let w2 := snd (sendReq CheckRequest busy freshWorld) in
  log w' = [EvDial "" false; EvCall 1%nat (Some checkRequestTimeout) CheckRequest;
            EvClose 1%nat]
  /\ client (agent w') = None
  /\ agent w2 = connected 1%nat freshAgent
  /\ log (snd (sendReq GuestDetailsRequest busy w2))
     = (log w2 ++ [EvCall 1%nat (Some defaultRequestTimeout) GuestDetailsRequest;
                   EvClose 1%nat])%list.
Proof.
  intros w' busy w2.
  destruct (sendReq_short_lived_closes CheckRequest GuestDetailsRequest
              cooperativeEnv freshWorld 1%nat eq_refl eq_refl
              ltac:(simpl; lia) eq_refl eq_refl) as (Hlog & Hdrop & _).
  destruct (sendReq_short_lived_closes CheckRequest GuestDetailsRequest
              busy freshWorld 1%nat eq_refl eq_refl
              ltac:(simpl; lia) eq_refl eq_refl) as (_ & _ & Hkeep).
  split; [exact Hlog|].
  split; [exact (proj1 (proj2 (Hdrop (or_introl eq_refl))))|].
  apply (Hkeep (statusError Unavailable "transport is closing") eq_refl).
  discriminate.
Defined.

(** X11. When a proxy pid is recorded and the liveness probe of the proxy
    fails, a request on an unconnected session returns "Proxy is not
    running": nothing is dialled or called, and the session is left as it
    was, not marked dead, so a later request probes again. *)
Theorem sendReq_proxy_not_running (r : Request) (env : Env) (w : World)
  (e : error) :
  dead (agent w) = false ->
  client (agent w) = None ->
  ProxyPid (state (agent w)) > 0 ->
  sys_Kill env (log w) (ProxyPid (state (agent w))) = Some e ->
  sendReq r env w
  = (Err (errorsNew "Proxy is not running"),
     {| agent := agent w;
        log := (log w ++ [EvKill (ProxyPid (state (agent w)))])%list |}).
Proof.
  intros Hd Hc Hp Hkill. unfold sendReq, connect. agent_unfold.
  rewrite Hd, Hc.
  destruct (ProxyPid (state (agent w)) >? 0) eqn:E;
    [|rewrite Z.gtb_ltb in E; apply Z.ltb_ge in E; lia].
  simpl. rewrite Hkill. reflexivity.
Qed.

Lemma sendReq_proxy_not_running_witness :
  sendReq CheckRequest (withKill (Some (errorsNew "no such process")) cooperativeEnv)
          {| agent := proxiedAgent; log := [] |}
  = (Err (errorsNew "Proxy is not running"),
     {| agent := proxiedAgent; log := [EvKill 42] |}).
Proof.
  exact (sendReq_proxy_not_running CheckRequest
           (withKill (Some (errorsNew "no such process")) cooperativeEnv)
           {| agent := proxiedAgent; log := [] |}
           (errorsNew "no such process") eq_refl eq_refl
           ltac:(simpl; lia) eq_refl).
Defined.

(* ===================================================================== *)
(** ** Sandbox orchestration: what goes on the channel, in which order     *)
(* ===================================================================== *)

Lemma preserves_tracing_io b {A} (f : Env -> list Event -> A) (e : Event) :
  preserves (tracingIs b) (io f e).
Proof. intros env w H; exact H. Qed.

Lemma preserves_tracing_modify b (f : kataAgent -> kataAgent) :
  (forall k, dynamicTracing (f k) = dynamicTracing k) ->
  preserves (tracingIs b) (modify f).
Proof. intros Hf env w H. unfold tracingIs, modify in *. simpl. rewrite Hf. exact H. Qed.

#[local] Hint Resolve preserves_tracing_io : preserves.
#[local] Hint Extern 1 (preserves (tracingIs _) (modify _)) =>
  (apply preserves_tracing_modify; intros []; reflexivity) : preserves.

Lemma connect_preserves_tracing b : preserves (tracingIs b) connect.
Proof. unfold connect, installReqFunc. preserves_auto. Qed.

Lemma disconnect_preserves_tracing b : preserves (tracingIs b) disconnect.
Proof. unfold disconnect. preserves_auto. Qed.

Lemma handler_preserves_tracing b ctx r : preserves (tracingIs b) (handler ctx r).
Proof. unfold handler. preserves_auto. Qed.

#[local] Hint Resolve connect_preserves_tracing disconnect_preserves_tracing
  handler_preserves_tracing : preserves.

Lemma sendReq_preserves_tracing b r : preserves (tracingIs b) (sendReq r).
Proof. unfold sendReq. preserves_auto. Qed.

#[local] Hint Resolve sendReq_preserves_tracing : preserves.

Lemma check_preserves_tracing b : preserves (tracingIs b) check.
Proof. unfold check. preserves_auto. Qed.

Lemma updateInterfaces_preserves_tracing b l :
  preserves (tracingIs b) (updateInterfaces l).
Proof.
  induction l as [|ifc l IH]; simpl; [auto with preserves|].
  unfold updateInterface. preserves_auto.
Qed.

Lemma updateRoutes_preserves_tracing b r : preserves (tracingIs b) (updateRoutes r).
Proof. unfold updateRoutes. preserves_auto. Qed.

Lemma addARPNeighbors_preserves_tracing b n :
  preserves (tracingIs b) (addARPNeighbors n).
Proof. unfold addARPNeighbors. preserves_auto. Qed.

Lemma setProxy_preserves_tracing b pid url :
  preserves (tracingIs b) (setProxy pid url).
Proof. unfold setProxy, proxyStop. preserves_auto. Qed.

#[local] Hint Resolve check_preserves_tracing updateInterfaces_preserves_tracing
  updateRoutes_preserves_tracing addARPNeighbors_preserves_tracing
  setProxy_preserves_tracing : preserves.

Lemma startProxy_preserves_tracing b sb : preserves (tracingIs b) (startProxy sb).
Proof. unfold startProxy, proxyStop. preserves_auto. Qed.

Lemma startProxy_no_calls sb env w :
  exists evs,
    log (snd (startProxy sb env w)) = (log w ++ evs)%list /\ calls evs = [].
Proof.
  unfold startProxy, setProxy, proxyStop. agent_unfold.
  repeat (destruct_head_match; simpl);
    (eexists; split; [log_suffix | reflexivity]).
Qed.

Lemma getDNS_pure sb env w : snd (getDNS sb env w) = w.
Proof.
  unfold getDNS. agent_unfold. repeat (destruct_head_match; simpl); reflexivity.
Qed.

Lemma sendReq_ok_calls r env w resp :
  fst (sendReq r env w) = Ok resp ->
  exists evs,
    log (snd (sendReq r env w)) = (log w ++ evs)%list
    /\ calls evs = [(getReqContext (MessageName r), r)].
Proof.
  intros Hok. destruct (sendReq_calls r env w) as (evs & Hlog & _ & Hc).
  exists evs. split; [exact Hlog | exact (Hc resp Hok)].
Qed.

Lemma check_calls env w :
  fst (check env w) = None ->
  exists evs,
    log (snd (check env w)) = (log w ++ evs)%list /\ calls evs = [checkCall].
Proof.
  unfold check. unfold bind, ret.
  pose proof (sendReq_ok_calls CheckRequest env w) as H.
  destruct (sendReq CheckRequest env w) as [[resp|e] w1]; simpl; [|discriminate].
  intros _. exact (H resp eq_refl).
Qed.

(** The calls of [updateInterfaces]: one per interface while they succeed;
    on the first failure the loop is left, and the failing interface has
    produced a call or (when [connect] failed) none. *)
Lemma updateInterfaces_calls interfaces : forall env w,
  exists evs,
    log (snd (updateInterfaces interfaces env w)) = (log w ++ evs)%list
    /\ (fst (updateInterfaces interfaces env w) = None ->
        calls evs = map interfaceCall interfaces)
    /\ (forall e, fst (updateInterfaces interfaces env w) = Some e ->
        exists before ifc after,
          interfaces = (before ++ ifc :: after)%list
          /\ (calls evs = map interfaceCall before
              \/ calls evs = map interfaceCall (before ++ [ifc]))).
Proof.
  induction interfaces as [|ifc rest IH]; intros env w.
  - exists []. simpl. split; [symmetry; apply app_nil_r|].
    split; [reflexivity | discriminate].
  - simpl. unfold updateInterface. unfold bind, ret.
    destruct (sendReq_calls (UpdateInterfaceRequest (convertToKataAgentInterface ifc))
                env w) as (evs1 & Hlog1 & Hany & Hok).
    destruct (sendReq (UpdateInterfaceRequest (convertToKataAgentInterface ifc)) env w)
      as [[resp|e] w1]; simpl in *.
    + specialize (Hok resp eq_refl).
      destruct (IH env w1) as (evs2 & Hlog2 & Hnone & Hsome).
      assert (Hstep : forall (x : option vcInterface),
                exists evs,
                  log (snd (updateInterfaces rest env w1)) = (log w ++ evs)%list
                  /\ (fst (updateInterfaces rest env w1) = None ->
                      calls evs = interfaceCall ifc :: map interfaceCall rest)
                  /\ (forall e, fst (updateInterfaces rest env w1) = Some e ->
                      exists before ifc0 after,
                        ifc :: rest = (before ++ ifc0 :: after)%list
                        /\ (calls evs = map interfaceCall before
                            \/ calls evs = map interfaceCall (before ++ [ifc0])))).
      { intros _. exists (evs1 ++ evs2)%list.
        split; [rewrite Hlog2, Hlog1, app_assoc; reflexivity|].
        rewrite calls_app, Hok. split.
        - intros Hn. rewrite (Hnone Hn). reflexivity.
        - intros e He. destruct (Hsome e He) as (b & i & a & Hl & Hc).
          exists (ifc :: b), i, a. split; [rewrite Hl; reflexivity|].
          destruct Hc as [-> | ->]; [left | right]; reflexivity. }
      destruct resp; simpl; apply (Hstep None).
    + exists evs1. split; [exact Hlog1|]. split; [discriminate|].
      intros e' _. exists [], ifc, rest. split; [reflexivity|].
      destruct Hany as [-> | ->]; [left | right]; reflexivity.
Qed.

Lemma updateRoutes_calls routes env w :
  snd (fst (updateRoutes routes env w)) = None ->
  exists evs,
    log (snd (updateRoutes routes env w)) = (log w ++ evs)%list
    /\ calls evs = routesCalls routes.
Proof.
  unfold updateRoutes. destruct routes as [rs|]; simpl.
  - unfold bind, ret.
    pose proof (sendReq_ok_calls (UpdateRoutesRequest (convertToKataAgentRoutes rs))
                  env w) as H.
    destruct (sendReq (UpdateRoutesRequest (convertToKataAgentRoutes rs)) env w)
      as [[resp|e] w1]; simpl in *; [|discriminate].
    intros _. destruct resp; simpl; exact (H _ eq_refl).
  - intros _. exists []. split; [symmetry; apply app_nil_r | reflexivity].
Qed.

Lemma addARPNeighbors_calls neighs env w :
  exists evs,
    log (snd (addARPNeighbors neighs env w)) = (log w ++ evs)%list
    /\ (calls evs = [] \/ calls evs = neighborsCalls neighs).
Proof.
  unfold addARPNeighbors. destruct neighs as [ns|]; simpl.
  - unfold bind, ret.
    destruct (sendReq_calls (AddARPNeighborsRequest (convertToKataAgentNeighbors ns))
                env w) as (evs & Hlog & Hany & _).
    destruct (sendReq (AddARPNeighborsRequest (convertToKataAgentNeighbors ns)) env w)
      as [[resp|e] w1]; simpl in *.
    + exists evs. split; [exact Hlog | exact Hany].
    + destruct (Code_eqb (Convert_Code e) Unimplemented); simpl;
        (exists evs; split; [exact Hlog | exact Hany]).
  - exists []. split; [symmetry; apply app_nil_r | left; reflexivity].
Qed.

(** X12. A [startSandbox] that returns nil has put on the channel, in this
    order: the health check (30 s), one interface update per interface,
    the route update when there are routes, the ARP-neighbour update when
    there are neighbours (absent if the guest could not be reached with an
    Unimplemented error), the sandbox creation, and the start of tracing
    when tracing is dynamic; all but the first with the 60 s timeout. *)
Theorem startSandbox_call_order (sb : Sandbox) (env : Env) (w : World)
  (net : NetworkStructures) :
  generateVCNetworkStructures env sb = Ok net ->
  fst (startSandbox sb env w) = None ->
  exists evs req arp,
    log (snd (startSandbox sb env w)) = (log w ++ evs)%list
    /\ calls evs
       = (checkCall :: map interfaceCall (nsInterfaces net)
          ++ routesCalls (nsRoutes net) ++ arp
          ++ (Some defaultRequestTimeout, CreateSandboxRequest req)
             :: tracingCalls (dynamicTracing (agent w)) StartTracingRequest)%list
    /\ (arp = [] \/ arp = neighborsCalls (nsNeighs net))
    /\ Hostname req = truncateHostname (sbHostname sb)
    /\ SandboxId req = sbId sb
    /\ SandboxPidns req = sbSharePidNs sb
    /\ GuestHookPath req = sbGuestHookPath sb
    /\ Storages req = setupStorages env sb.
Proof.
  intros Hnet. unfold startSandbox.
  unfold bind, ret, getAgent, getEnv, proxyStop, io.
  destruct (startProxy_no_calls sb env w) as (e0 & Hl0 & Hc0).
  pose proof (startProxy_preserves_tracing (dynamicTracing (agent w)) sb env w eq_refl)
    as Ht1.
  destruct (startProxy sb env w) as [[e|] w1]; [discriminate|].
  cbn [snd] in Hl0, Ht1.
  pose proof (getDNS_pure sb env w1) as Hdns.
  destruct (getDNS sb env w1) as [[dns|e] w2]; [|discriminate].
  cbn [snd] in Hdns. subst w2.
  pose proof (check_calls env w1) as Hchk.
  pose proof (check_preserves_tracing _ env w1 Ht1) as Ht3.
  destruct (check env w1) as [[e|] w3]; [discriminate|].
  destruct (Hchk eq_refl) as (e3 & Hl3 & Hc3). cbn [snd] in Hl3, Ht3.
  rewrite Hnet.
  destruct (updateInterfaces_calls (nsInterfaces net) env w3)
    as (e4 & Hl4 & Hc4 & _).
  pose proof (updateInterfaces_preserves_tracing _ (nsInterfaces net) env w3 Ht3)
    as Ht4.
  destruct (updateInterfaces (nsInterfaces net) env w3) as [[e|] w4]; [discriminate|].
  specialize (Hc4 eq_refl). cbn [snd] in Hl4, Ht4.
  pose proof (updateRoutes_calls (nsRoutes net) env w4) as Hrt.
  pose proof (updateRoutes_preserves_tracing _ (nsRoutes net) env w4 Ht4) as Ht5.
  destruct (updateRoutes (nsRoutes net) env w4) as [[rts [e|]] w5]; [discriminate|].
  destruct (Hrt eq_refl) as (e5 & Hl5 & Hc5). cbn [snd] in Hl5, Ht5 |- *.
  destruct (addARPNeighbors_calls (nsNeighs net) env w5) as (e6 & Hl6 & Hc6).
  pose proof (addARPNeighbors_preserves_tracing _ (nsNeighs net) env w5 Ht5) as Ht6.
  destruct (addARPNeighbors (nsNeighs net) env w5) as [[e|] w6]; [discriminate|].
  cbn [snd] in Hl6, Ht6.
  match goal with
  | |- context [sendReq (CreateSandboxRequest ?q) env w6] => set (req := q)
  end.
  pose proof (sendReq_ok_calls (CreateSandboxRequest req) env w6) as Hcr.
  pose proof (sendReq_preserves_tracing _ (CreateSandboxRequest req) env w6 Ht6)
    as Ht7.
  destruct (sendReq (CreateSandboxRequest req) env w6) as [[resp|e] w7];
    [|discriminate].
  destruct (Hcr resp eq_refl) as (e7 & Hl7 & Hc7). cbn [snd] in Hl7, Ht7.
  unfold tracingIs in Ht7. rewrite Ht7.
  assert (Hprefix : log w7 = (log w ++ (e0 ++ e3 ++ e4 ++ e5 ++ e6 ++ e7))%list).
  { rewrite Hl7, Hl6, Hl5, Hl4, Hl3, Hl0, <- !app_assoc. reflexivity. }
  assert (Hcalls : calls (e0 ++ e3 ++ e4 ++ e5 ++ e6 ++ e7)
                   = (checkCall :: map interfaceCall (nsInterfaces net)
                      ++ routesCalls (nsRoutes net) ++ calls e6
                      ++ [(Some defaultRequestTimeout, CreateSandboxRequest req)])%list).
  { rewrite !calls_app, Hc0, Hc3, Hc4, Hc5, Hc7. reflexivity. }
  destruct (dynamicTracing (agent w)).
  - pose proof (sendReq_ok_calls StartTracingRequest env w7) as Htr.
    destruct (sendReq StartTracingRequest env w7) as [[resp'|e] w8];
      [|discriminate].
    destruct (Htr resp' eq_refl) as (e8 & Hl8 & Hc8). cbn [snd] in Hl8 |- *.
    intros _. exists ((e0 ++ e3 ++ e4 ++ e5 ++ e6 ++ e7) ++ e8)%list, req, (calls e6).
    split; [rewrite Hl8, Hprefix, <- !app_assoc; reflexivity|].
    split.
    { rewrite calls_app, Hcalls, Hc8. simpl. rewrite <- !app_assoc. reflexivity. }
    split; [exact Hc6|]. repeat split; reflexivity.
  - intros _. exists (e0 ++ e3 ++ e4 ++ e5 ++ e6 ++ e7)%list, req, (calls e6).
    split; [exact Hprefix|]. split; [exact Hcalls|].
    split; [exact Hc6|]. repeat split; reflexivity.
Qed.

Lemma startSandbox_call_order_witness :
  let env := withNetwork sampleNetwork cooperativeEnv in
  let w := {| agent := set_dynamicTracing true freshAgent; log := [] |} in
  calls (log (snd (startSandbox (sampleSandbox "kata") env w)))
  = [checkCall; interfaceCall (Some sampleInterface);
     interfaceCall (Some sampleInterface);
     (Some defaultRequestTimeout, UpdateRoutesRequest []);
     (Some defaultRequestTimeout,
      CreateSandboxRequest
        {| Hostname := "kata"; Dns := []; Storages := [];
           SandboxPidns := sbSharePidNs (sampleSandbox "kata");
           SandboxId := sbId (sampleSandbox "kata");
           GuestHookPath := sbGuestHookPath (sampleSandbox "kata");
           KernelModules := [] |});
     (Some defaultRequestTimeout, StartTracingRequest)]
  /\ exists evs req arp,
       log (snd (startSandbox (sampleSandbox "kata") env w)) = (log w ++ evs)%list
       /\ calls evs
          = (checkCall :: map interfaceCall (nsInterfaces sampleNetwork)
             ++ routesCalls (nsRoutes sampleNetwork) ++ arp
             ++ (Some defaultRequestTimeout, CreateSandboxRequest req)
                :: tracingCalls (dynamicTracing (agent w)) StartTracingRequest)%list
       /\ (arp = [] \/ arp = neighborsCalls (nsNeighs sampleNetwork))
       /\ Hostname req = truncateHostname (sbHostname (sampleSandbox "kata"))
       /\ SandboxId req = sbId (sampleSandbox "kata")
       /\ SandboxPidns req = sbSharePidNs (sampleSandbox "kata")
       /\ GuestHookPath req = sbGuestHookPath (sampleSandbox "kata")
       /\ Storages req = setupStorages env (sampleSandbox "kata").
Proof.
  intros env w. split; [reflexivity|].
  exact (startSandbox_call_order (sampleSandbox "kata") env w sampleNetwork
           eq_refl eq_refl).
Defined.

Lemma updateInterfaces_cons_ok ifc rest env w resp w1 :
  sendReq (UpdateInterfaceRequest (convertToKataAgentInterface ifc)) env w
  = (Ok resp, w1) ->
  updateInterfaces (ifc :: rest) env w = updateInterfaces rest env w1.
Proof.
  intros Hs. cbn [updateInterfaces]. unfold updateInterface, bind, ret.
  rewrite Hs. destruct resp; reflexivity.
Qed.

Lemma updateInterfaces_cons_err ifc rest env w e w1 :
  sendReq (UpdateInterfaceRequest (convertToKataAgentInterface ifc)) env w
  = (Err e, w1) ->
  updateInterfaces (ifc :: rest) env w = (Some e, w1).
Proof.
  intros Hs. cbn [updateInterfaces]. unfold updateInterface, bind, ret.
  rewrite Hs. reflexivity.
Qed.

(** The interfaces before a failing one have all been sent, and the
    failing send ends the loop. *)
Lemma updateInterfaces_first_failure before : forall ifc after env w wmid e wend,
  updateInterfaces before env w = (None, wmid) ->
  sendReq (UpdateInterfaceRequest (convertToKataAgentInterface ifc)) env wmid
  = (Err e, wend) ->
  updateInterfaces (before ++ ifc :: after) env w = (Some e, wend).
Proof.
  induction before as [|i before IH]; intros ifc after env w wmid e wend Hb Hs.
  - cbn in Hb. unfold ret in Hb. inversion Hb; subst wmid.
    exact (updateInterfaces_cons_err ifc after env w e wend Hs).
  - cbn [app].
    destruct (sendReq (UpdateInterfaceRequest (convertToKataAgentInterface i)) env w)
      as [[resp|e'] w1] eqn:E.
    + rewrite (updateInterfaces_cons_ok i _ env w resp w1 E).
      rewrite (updateInterfaces_cons_ok i _ env w resp w1 E) in Hb.
      exact (IH ifc after env w1 wmid e wend Hb Hs).
    + rewrite (updateInterfaces_cons_err i _ env w e' w1 E) in Hb. discriminate Hb.
Qed.

(** An error of [updateInterfaces] is the error of a send, and every
    interface before that one has been sent with success. *)
Lemma updateInterfaces_failure_split interfaces : forall env w e,
  fst (updateInterfaces interfaces env w) = Some e ->
  exists before ifc after wmid evs,
    interfaces = (before ++ ifc :: after)%list
    /\ updateInterfaces before env w = (None, wmid)
    /\ log wmid = (log w ++ evs)%list
    /\ calls evs = map interfaceCall before
    /\ sendReq (UpdateInterfaceRequest (convertToKataAgentInterface ifc)) env wmid
       = (Err e, snd (updateInterfaces interfaces env w)).
Proof.
  induction interfaces as [|i rest IH]; intros env w e He; [discriminate He|].
  destruct (sendReq (UpdateInterfaceRequest (convertToKataAgentInterface i)) env w)
    as [[resp|e'] w1] eqn:E.
  - rewrite (updateInterfaces_cons_ok i rest env w resp w1 E) in *.
    destruct (IH env w1 e He)
      as (before & ifc & after & wmid & evs & Hl & Hb & Hlog & Hc & Hs).
    destruct (sendReq_ok_calls (UpdateInterfaceRequest (convertToKataAgentInterface i))
                env w resp) as (evs1 & Hlog1 & Hc1); [rewrite E; reflexivity|].
    rewrite E in Hlog1. cbn [snd] in Hlog1.
    exists (i :: before), ifc, after, wmid, (evs1 ++ evs)%list.
    split; [rewrite Hl; reflexivity|].
    split; [rewrite (updateInterfaces_cons_ok i before env w resp w1 E); exact Hb|].
    split; [rewrite Hlog, Hlog1, app_assoc; reflexivity|].
    split; [rewrite calls_app, Hc1, Hc; reflexivity | exact Hs].
  - rewrite (updateInterfaces_cons_err i rest env w e' w1 E) in *.
    cbn [fst snd] in *. inversion He; subst e'.
    exists [], i, rest, w, [].
    split; [reflexivity|]. split; [reflexivity|].
    split; [rewrite app_nil_r; reflexivity|].
    split; [reflexivity | exact E].
Qed.

(** X13. [updateInterfaces] sends the interfaces in order and stops at the
    first send that fails.  When it returns nil, every interface has been
    sent, in order.  It returns the error [e] exactly when the list splits
    into the interfaces [before], which have all been sent in order with
    success, an interface [ifc] whose send fails with [e], and the
    interfaces [after]: the session and the log are then those the
    failing send left, so that send has produced one call or (when the
    channel could not be opened) none, and nothing of [after] is sent. *)
Theorem updateInterfaces_stops_at_first_failure
  (interfaces : list (option vcInterface)) (env : Env) (w : World) :
  (fst (updateInterfaces interfaces env w) = None ->
   exists evs,
     log (snd (updateInterfaces interfaces env w)) = (log w ++ evs)%list
     /\ calls evs = map interfaceCall interfaces)
  /\ (forall e,
        fst (updateInterfaces interfaces env w) = Some e ->
        exists before ifc after wmid evs last,
          interfaces = (before ++ ifc :: after)%list
          /\ updateInterfaces before env w = (None, wmid)
          /\ log wmid = (log w ++ evs)%list
          /\ calls evs = map interfaceCall before
          /\ sendReq (UpdateInterfaceRequest (convertToKataAgentInterface ifc))
                     env wmid
             = (Err e, snd (updateInterfaces interfaces env w))
          /\ log (snd (updateInterfaces interfaces env w))
             = (log w ++ evs ++ last)%list
          /\ (calls last = [] \/ calls last = [interfaceCall ifc]))
  /\ (forall before ifc after wmid e wend,
        interfaces = (before ++ ifc :: after)%list ->
        updateInterfaces before env w = (None, wmid) ->
        sendReq (UpdateInterfaceRequest (convertToKataAgentInterface ifc)) env wmid
        = (Err e, wend) ->
        updateInterfaces interfaces env w = (Some e, wend)).
Proof.
  split; [|split].
  - intros Hnone.
    destruct (updateInterfaces_calls interfaces env w) as (evs & Hlog & Hc & _).
    exists evs. split; [exact Hlog | exact (Hc Hnone)].
  - intros e He.
    destruct (updateInterfaces_failure_split interfaces env w e He)
      as (before & ifc & after & wmid & evs & Hl & Hb & Hlog & Hc & Hs).
    destruct (sendReq_calls (UpdateInterfaceRequest (convertToKataAgentInterface ifc))
                env wmid) as (last & Hlast & Hany & _).
    rewrite Hs in Hlast. cbn [snd] in Hlast.
    exists before, ifc, after, wmid, evs, last.
    split; [exact Hl|]. split; [exact Hb|]. split; [exact Hlog|].
    split; [exact Hc|]. split; [exact Hs|].
    split; [rewrite Hlast, Hlog, app_assoc; reflexivity | exact Hany].
  - intros before ifc after wmid e wend -> Hb Hs.
    exact (updateInterfaces_first_failure before ifc after env w wmid e wend Hb Hs).
Qed.

Lemma updateInterfaces_stops_at_first_failure_witness :
  let env := guestEnv refusesNilInterface in
  let l := [Some sampleInterface; None; Some sampleInterface] in
  (exists evs,
     log (snd (updateInterfaces l cooperativeEnv freshWorld))
     = (log freshWorld ++ evs)%list
     /\ calls evs = map interfaceCall l)
  /\ fst (updateInterfaces l env freshWorld)
     = Some (statusError Internal "no such device")
  /\ calls (log (snd (updateInterfaces l env freshWorld)))
     = [interfaceCall (Some sampleInterface); interfaceCall None]
  /\ (exists before ifc after wmid evs last,
        l = (before ++ ifc :: after)%list
        /\ updateInterfaces before env freshWorld = (None, wmid)
        /\ log wmid = (log freshWorld ++ evs)%list
        /\ calls evs = map interfaceCall before
        /\ sendReq (UpdateInterfaceRequest (convertToKataAgentInterface ifc))
                   env wmid
           = (Err (statusError Internal "no such device"),
              snd (updateInterfaces l env freshWorld))
        /\ log (snd (updateInterfaces l env freshWorld))
           = (log freshWorld ++ evs ++ last)%list
        /\ (calls last = [] \/ calls last = [interfaceCall ifc]))
  /\ updateInterfaces l env freshWorld
     = (Some (statusError Internal "no such device"),
        snd (sendReq (UpdateInterfaceRequest (convertToKataAgentInterface None)) env
               (snd (updateInterfaces [Some sampleInterface] env freshWorld)))).
Proof.
  intros env l.
  destruct (updateInterfaces_stops_at_first_failure l cooperativeEnv freshWorld)
    as (Hnil & _ & _).
  destruct (updateInterfaces_stops_at_first_failure l env freshWorld)
    as (_ & Herr & Hsplit).
  split; [exact (Hnil eq_refl)|].
  split; [reflexivity|]. split; [reflexivity|].
  split; [exact (Herr (statusError Internal "no such device") eq_refl)|].
  exact (Hsplit [Some sampleInterface] None [Some sampleInterface]
           (snd (updateInterfaces [Some sampleInterface] env freshWorld))
           (statusError Internal "no such device")
           (snd (sendReq (UpdateInterfaceRequest (convertToKataAgentInterface None)) env
                   (snd (updateInterfaces [Some sampleInterface] env freshWorld))))
           eq_refl eq_refl eq_refl).
Defined.

Lemma preserves_state_io s {A} (f : Env -> list Event -> A) (e : Event) :
  preserves (stateIs s) (io f e).
Proof. intros env w H; exact H. Qed.

Lemma preserves_state_modify s (f : kataAgent -> kataAgent) :
  (forall k, state (f k) = state k) ->
  preserves (stateIs s) (modify f).
Proof. intros Hf env w H. unfold stateIs, modify in *. simpl. rewrite Hf. exact H. Qed.

#[local] Hint Resolve preserves_state_io : preserves.
#[local] Hint Extern 1 (preserves (stateIs _) (modify _)) =>
  (apply preserves_state_modify; intros []; reflexivity) : preserves.

Lemma connect_preserves_state s : preserves (stateIs s) connect.
Proof. unfold connect, installReqFunc. preserves_auto. Qed.

Lemma disconnect_preserves_state s : preserves (stateIs s) disconnect.
Proof. unfold disconnect. preserves_auto. Qed.

Lemma handler_preserves_state s ctx r : preserves (stateIs s) (handler ctx r).
Proof. unfold handler. preserves_auto. Qed.

#[local] Hint Resolve connect_preserves_state disconnect_preserves_state
  handler_preserves_state : preserves.

Lemma sendReq_preserves_state s r : preserves (stateIs s) (sendReq r).
Proof. unfold sendReq. preserves_auto. Qed.

#[local] Hint Resolve sendReq_preserves_state : preserves.

Lemma preserves_extends_io l0 {A} (f : Env -> list Event -> A) (e : Event) :
  preserves (extends l0) (io f e).
Proof.
  intros env w [evs H]. exists (evs ++ [e])%list. simpl.
  rewrite H, app_assoc. reflexivity.
Qed.

Lemma preserves_extends_modify l0 (f : kataAgent -> kataAgent) :
  preserves (extends l0) (modify f).
Proof. intros env w H; exact H. Qed.

#[local] Hint Resolve preserves_extends_io preserves_extends_modify : preserves.

Lemma connect_preserves_extends l0 : preserves (extends l0) connect.
Proof. unfold connect, installReqFunc. preserves_auto. Qed.

Lemma disconnect_preserves_extends l0 : preserves (extends l0) disconnect.
Proof. unfold disconnect. preserves_auto. Qed.

Lemma handler_preserves_extends l0 ctx r : preserves (extends l0) (handler ctx r).
Proof. unfold handler. preserves_auto. Qed.

#[local] Hint Resolve connect_preserves_extends disconnect_preserves_extends
  handler_preserves_extends : preserves.

Lemma sendReq_preserves_extends l0 r : preserves (extends l0) (sendReq r).
Proof. unfold sendReq. preserves_auto. Qed.

#[local] Hint Resolve sendReq_preserves_extends : preserves.

Lemma check_preserves_extends l0 : preserves (extends l0) check.
Proof. unfold check. preserves_auto. Qed.

Lemma updateInterfaces_preserves_extends l0 l :
  preserves (extends l0) (updateInterfaces l).
Proof.
  induction l as [|ifc l IH]; simpl; [auto with preserves|].
  unfold updateInterface. preserves_auto.
Qed.

Lemma updateRoutes_preserves_extends l0 r : preserves (extends l0) (updateRoutes r).
Proof. unfold updateRoutes. preserves_auto. Qed.

Lemma addARPNeighbors_preserves_extends l0 n :
  preserves (extends l0) (addARPNeighbors n).
Proof. unfold addARPNeighbors. preserves_auto. Qed.

Lemma getDNS_preserves_extends l0 sb : preserves (extends l0) (getDNS sb).
Proof. unfold getDNS. preserves_auto. Qed.

#[local] Hint Resolve check_preserves_extends updateInterfaces_preserves_extends
  updateRoutes_preserves_extends addARPNeighbors_preserves_extends
  getDNS_preserves_extends : preserves.

(** X14. When [startSandbox] fails after [startProxy] has returned nil, the
    last thing it does is stop the proxy of the pid recorded in the state;
    when [startProxy] itself fails, its error is returned and nothing more
    is done. *)
Theorem startSandbox_failure_stops_proxy (sb : Sandbox) (env : Env) (w : World) :
  (forall e, fst (startProxy sb env w) = Some e ->
     startSandbox sb env w = (Some e, snd (startProxy sb env w)))
  /\ (forall e, fst (startProxy sb env w) = None ->
      fst (startSandbox sb env w) = Some e ->
      exists evs,
        log (snd (startSandbox sb env w))
        = (log (snd (startProxy sb env w)) ++ evs
           ++ [EvProxyStop
                 (ProxyPid (state (agent (snd (startSandbox sb env w)))))])%list).
Proof.
  remember (startSandbox sb env w) as final eqn:Hf.
  unfold startSandbox in Hf. unfold bind at 1 in Hf.
  destruct (startProxy sb env w) as [[e0|] w1]; cbn [fst snd].
  - split; [|discriminate]. intros e He. inversion He; subst. reflexivity.
  - split; [discriminate|]. intros e _.
    unfold bind at 1 in Hf.
    match type of Hf with
    | context [?m env w1] =>
        lazymatch m with
        | bind _ _ =>
            assert (Hp : preserves (extends (log w1)) m) by preserves_auto;
            pose proof (Hp env w1 (ex_intro _ [] (eq_sym (app_nil_r _)))) as Hext;
            clear Hp;
            destruct (m env w1) as [[e1|] w2]
        end
    end.
    + cbn [snd] in Hext. destruct Hext as [evs Hevs].
      unfold bind, ret, getAgent, proxyStop, io in Hf. cbn in Hf.
      subst final. cbn. intros _. exists evs.
      rewrite Hevs, <- app_assoc. reflexivity.
    + unfold ret in Hf. subst final. cbn. discriminate.
Qed.

Lemma startSandbox_failure_stops_proxy_witness :
  let env := guestEnv (fun _ => Err (statusError Unavailable "agent not ready")) in
  let final := startSandbox (sampleSandbox "kata") env freshWorld in
  log (snd final)
  = [EvProxyStart "unix:///run/vc/vm/sb/kata.sock" "/run/vc/vm/sb/console.sock";
     EvKill 42;
     EvDial "unix:///run/vc/sbs/sb/proxy.sock" false;
     EvCall 1%nat (Some checkRequestTimeout) CheckRequest;
     EvClose 1%nat;
     EvProxyStop 42]
  /\ exists evs,
       log (snd final)
       = (log (snd (startProxy (sampleSandbox "kata") env freshWorld)) ++ evs
          ++ [EvProxyStop (ProxyPid (state (agent (snd final))))])%list.
Proof.
  intros env final. split; [reflexivity|].
  exact (proj2 (startSandbox_failure_stops_proxy (sampleSandbox "kata") env
                  freshWorld) _ eq_refl eq_refl).
Defined.

(** X15. [stopSandbox] without a proxy returns the missing-proxy error and
    does nothing.  When it returns nil it has sent the sandbox destruction,
    then the stop of tracing when tracing is dynamic, then stopped the
    proxy of the recorded pid, and has reset the state to pid -1 and an
    empty URL.  When it returns an error the state is left as it was. *)
Theorem stopSandbox_teardown (env : Env) (w : World) :
  (proxy (agent w) = false -> stopSandbox env w = (Some errorMissingProxy, w))
  /\ (fst (stopSandbox env w) = None ->
      state (agent (snd (stopSandbox env w))) = {| ProxyPid := -1; URL := "" |}
      /\ exists evs,
           log (snd (stopSandbox env w))
           = (log w ++ evs ++ [EvProxyStop (ProxyPid (state (agent w)))])%list
           /\ calls evs
              = (Some defaultRequestTimeout, DestroySandboxRequest)
                :: tracingCalls (dynamicTracing (agent w)) StopTracingRequest)
  /\ (forall e, fst (stopSandbox env w) = Some e ->
      state (agent (snd (stopSandbox env w))) = state (agent w)).
Proof.
  remember (stopSandbox env w) as final eqn:Hf.
  unfold stopSandbox in Hf. unfold bind, ret, getAgent, proxyStop, io, modify in Hf.
  destruct (proxy (agent w)); cbn [negb] in Hf.
  2:{ subst final. cbn. split; [reflexivity|]. split; [discriminate|].
      intros e _. reflexivity. }
  split; [discriminate|].
  pose proof (sendReq_ok_calls DestroySandboxRequest env w) as Hd.
  pose proof (sendReq_preserves_state _ DestroySandboxRequest env w eq_refl) as Hs1.
  destruct (sendReq DestroySandboxRequest env w) as [[resp|e1] w1].
  2:{ subst final. cbn in *. split; [discriminate|]. intros e _. exact Hs1. }
  destruct (Hd resp eq_refl) as (e1 & Hl1 & Hc1). cbn [snd] in Hl1, Hs1.
  unfold stateIs in Hs1.
  destruct (dynamicTracing (agent w)).
  - pose proof (sendReq_ok_calls StopTracingRequest env w1) as Ht.
    pose proof (sendReq_preserves_state _ StopTracingRequest env w1 Hs1) as Hs2.
    destruct (sendReq StopTracingRequest env w1) as [[resp'|e2] w2].
    2:{ subst final. cbn in *. split; [discriminate|]. intros e _. exact Hs2. }
    destruct (Ht resp' eq_refl) as (e2 & Hl2 & Hc2). cbn [snd] in Hl2, Hs2.
    unfold stateIs in Hs2. cbn [agent log] in Hf.
    destruct (proxy_stop env (log w2) (ProxyPid (state (agent w2)))) as [pe|];
      subst final; cbn.
    + split; [discriminate|]. intros e _. exact Hs2.
    + split; [|discriminate]. intros _. split; [reflexivity|].
      exists (e1 ++ e2)%list. rewrite Hs2, Hl2, Hl1, <- !app_assoc.
      split; [reflexivity|]. rewrite calls_app, Hc1, Hc2. reflexivity.
  - cbn [agent log] in Hf.
    destruct (proxy_stop env (log w1) (ProxyPid (state (agent w1)))) as [pe|];
      subst final; cbn.
    + split; [discriminate|]. intros e _. exact Hs1.
    + split; [|discriminate]. intros _. split; [reflexivity|].
      exists e1. rewrite Hs1, Hl1, <- !app_assoc.
      split; [reflexivity|]. rewrite Hc1. reflexivity.
Qed.

Lemma stopSandbox_teardown_witness :
  let w := {| agent := set_dynamicTracing true proxiedAgent; log := [] |} in
  fst (stopSandbox cooperativeEnv w) = None
  /\ state (agent (snd (stopSandbox cooperativeEnv w)))
     = {| ProxyPid := -1; URL := "" |}
  /\ calls (log (snd (stopSandbox cooperativeEnv w)))
     = [(Some defaultRequestTimeout, DestroySandboxRequest);
        (Some defaultRequestTimeout, StopTracingRequest)]
  /\ stopSandbox cooperativeEnv {| agent := set_proxy false freshAgent; log := [] |}
     = (Some errorMissingProxy, {| agent := set_proxy false freshAgent; log := [] |}).
Proof.
  intros w.
  destruct (stopSandbox_teardown cooperativeEnv w) as (_ & Hok & _).
  destruct (stopSandbox_teardown cooperativeEnv
              {| agent := set_proxy false freshAgent; log := [] |})
    as (Hmissing & _).
  split; [reflexivity|]. split; [exact (proj1 (Hok eq_refl))|].
  split; [reflexivity | exact (Hmissing eq_refl)].
Defined.

(* ===================================================================== *)
(** ** Type translator: the numeric fields of a command                    *)
(* ===================================================================== *)

Lemma digit_of_range c d : digit_of c = Some d -> 0 <= d <= 9.
Proof.
  unfold digit_of. cbv zeta.
  destruct ((48 <=? Z.of_nat (nat_of_ascii c)) && (Z.of_nat (nat_of_ascii c) <=? 57))
    eqn:E; [|discriminate].
  apply andb_true_iff in E as [E1 E2].
  apply Z.leb_le in E1, E2. intros H. inversion H. lia.
Qed.

Lemma decimalFrom_mono s : forall n r,
  0 <= n -> decimalFrom s n = Some r -> n <= r.
Proof.
  induction s as [|c s IH]; intros n r Hn H; simpl in H.
  - inversion H. lia.
  - destruct (digit_of c) as [d|] eqn:E; [|discriminate].
    apply digit_of_range in E. apply IH in H; lia.
Qed.

(** The digit loop of [strconv.ParseUint], with its overflow tests on
    wrapped 64-bit values, accepts exactly the digit strings whose value
    does not exceed the maximum. *)
Lemma parseDigits_decimal s0 maxVal s :
  0 <= maxVal < 2 ^ 64 ->
  forall n r, 0 <= n <= maxVal ->
    (parseDigits s0 (maxUint64 / 10 + 1) maxVal s n = Ok r
     <-> decimalFrom s n = Some r /\ r <= maxVal).
Proof.
  intros Hmax.
  replace (maxUint64 / 10 + 1) with 1844674407370955162 by reflexivity.
  induction s as [|c s IH]; intros n r Hn; simpl.
  - split.
    + intros H. inversion H; subst. split; [reflexivity | lia].
    + intros [H _]. inversion H. reflexivity.
  - destruct (digit_of c) as [d|] eqn:Ed.
    2:{ split; [discriminate | intros [H _]; discriminate]. }
    apply digit_of_range in Ed.
    assert (Hbig : forall x, maxVal < x -> 0 <= x ->
              ~ (decimalFrom s x = Some r /\ r <= maxVal)).
    { intros x Hx Hx0 [Hd Hr]. apply decimalFrom_mono in Hd; lia. }
    destruct (n >=? 1844674407370955162) eqn:Ecut.
    { rewrite Z.geb_leb in Ecut. apply Z.leb_le in Ecut.
      split; [discriminate|]. intros H. exfalso.
      apply (Hbig (n * 10 + d)); [change (2 ^ 64) with 18446744073709551616 in Hmax; lia | lia | exact H]. }
    rewrite Z.geb_leb in Ecut. apply Z.leb_gt in Ecut.
    change (2 ^ 64) with 18446744073709551616 in Hmax.
    assert (Hw : wrap_u64 (n * 10) = n * 10).
    { unfold wrap_u64. change (2 ^ 64) with 18446744073709551616.
      apply Z.mod_small. lia. }
    rewrite Hw.
    destruct (Z_lt_ge_dec (n * 10 + d) 18446744073709551616) as [Hfit | Hover].
    + assert (Hw1 : wrap_u64 (n * 10 + d) = n * 10 + d).
      { unfold wrap_u64. change (2 ^ 64) with 18446744073709551616.
        apply Z.mod_small. lia. }
      rewrite Hw1.
      assert (Hlt : (n * 10 + d <? n * 10) = false) by (apply Z.ltb_ge; lia).
      rewrite Hlt. simpl.
      destruct (n * 10 + d >? maxVal) eqn:Egt.
      * rewrite Z.gtb_ltb in Egt. apply Z.ltb_lt in Egt.
        split; [discriminate|]. intros H. exfalso.
        apply (Hbig (n * 10 + d)); [lia | lia | exact H].
      * rewrite Z.gtb_ltb in Egt. apply Z.ltb_ge in Egt.
        apply IH. lia.
    + assert (Hw1 : wrap_u64 (n * 10 + d) = n * 10 + d - 18446744073709551616).
      { unfold wrap_u64. change (2 ^ 64) with 18446744073709551616.
        symmetry. apply (Z.mod_unique _ _ 1); lia. }
      rewrite Hw1.
      assert (Hlt : (n * 10 + d - 18446744073709551616 <? n * 10) = true)
        by (apply Z.ltb_lt; lia).
      rewrite Hlt. simpl.
      split; [discriminate|]. intros H. exfalso.
      apply (Hbig (n * 10 + d)); [lia | lia | exact H].
Qed.

Lemma ParseUint10_isUint32 s r :
  strconv_ParseUint10 s grpcUserBits = Ok r <-> isUint32 s r.
Proof.
  unfold strconv_ParseUint10, isUint32, decimalValue, grpcUserBits.
  destruct (s =? "")%string.
  - split; [discriminate | intros [H _]; discriminate].
  - rewrite (parseDigits_decimal s (2 ^ 32 - 1) s)
      by (change (2 ^ 32) with 4294967296;
          change (2 ^ 64) with 18446744073709551616; lia).
    change (2 ^ 32) with 4294967296. split; intros [H1 H2]; split; auto; lia.
Qed.

Lemma strings_Split_nonempty sep s : strings_Split sep s <> [].
Proof.
  destruct s as [|c s]; simpl; [discriminate|].
  destruct (Ascii.eqb c sep); [discriminate|].
  destruct (strings_Split sep s); discriminate.
Qed.

Lemma parseExtraGids_spec groups : forall acc l,
  parseExtraGids groups acc = Ok l
  <-> exists vals, l = (acc ++ vals)%list /\ Forall2 isUint32 groups vals.
Proof.
  induction groups as [|g rest IH]; intros acc l; simpl.
  - split.
    + intros H. inversion H; subst. exists []. rewrite app_nil_r.
      split; [reflexivity | constructor].
    + intros (vals & -> & Hv). inversion Hv; subst. rewrite app_nil_r. reflexivity.
  - destruct (strconv_ParseUint10 g grpcUserBits) as [n|e] eqn:E.
    + rewrite (ParseUint10_u32 _ _ E). apply ParseUint10_isUint32 in E.
      rewrite IH. split.
      * intros (vals & -> & Hv). exists (n :: vals).
        rewrite <- app_assoc. split; [reflexivity | constructor; assumption].
      * intros (vals & -> & Hv). inversion Hv as [|g' n' r' v' Hn Hrest]; subst.
        assert (n' = n).
        { destruct Hn as [Hn _], E as [E _]. congruence. }
        subst n'. exists v'. rewrite <- app_assoc. split; [reflexivity | exact Hrest].
    + split; [discriminate|].
      intros (vals & _ & Hv). inversion Hv as [|g' n' r' v' Hn Hrest]; subst.
      apply ParseUint10_isUint32 in Hn. congruence.
Qed.

Lemma Forall_exists_Forall2 {A B} (R : A -> B -> Prop) (l : list A) :
  Forall (fun a => exists b, R a b) l <-> exists l', Forall2 R l l'.
Proof.
  induction l as [|a l IH].
  - split; [exists []; constructor | constructor].
  - split.
    + intros H. inversion H as [|? ? [b Hb] Hl]; subst.
      apply IH in Hl as [l' Hl']. exists (b :: l'). constructor; assumption.
    + intros [l' H]. inversion H; subst. constructor; [eauto|].
      apply IH. eauto.
Qed.

Lemma ParseUint10_some_iff s :
  (exists n, strconv_ParseUint10 s grpcUserBits = Ok n)
  <-> exists n, isUint32 s n.
Proof.
  split; intros [n H]; exists n; apply ParseUint10_isUint32; exact H.
Qed.

(** X16. On success of [cmdToKataProcess] the UID is the decimal value of
    the first colon-separated field of [User] and the additional gids are
    the decimal values of the supplementary groups, in order, each below
    2^32 (the conversions to 32 bits never cut a value).  The function
    succeeds exactly when [User] has at most two fields, every field of
    [User], a non-empty [PrimaryGroup] and every supplementary group being
    a non-empty string of decimal digits with a value below 2^32; so an
    empty [User] is an error. *)
Theorem cmdToKataProcess_numeric_fields (cmd : Cmd) :
  (forall p, cmdToKataProcess cmd = Ok p ->
     isUint32 (nth 0 (strings_Split ":" (User cmd)) "") (UID (pUser p))
     /\ Forall2 isUint32 (SupplementaryGroups cmd) (AdditionalGids (pUser p)))
  /\ ((exists p, cmdToKataProcess cmd = Ok p)
      <-> llen (strings_Split ":" (User cmd)) <= 2
          /\ Forall (fun f => exists n, isUint32 f n)
                    (strings_Split ":" (User cmd))
          /\ (PrimaryGroup cmd = "" \/ exists n, isUint32 (PrimaryGroup cmd) n)
          /\ Forall (fun g => exists n, isUint32 g n) (SupplementaryGroups cmd)).
Proof.
  unfold cmdToKataProcess.
  pose proof (strings_Split_nonempty ":" (User cmd)) as Hne.
  destruct (strings_Split ":" (User cmd)) as [|u [|g [|h rest]]];
    [congruence| | |]; clear Hne; unfold llen; cbn [length nth].
  - (* uid only *)
    change (Z.of_nat 1 >? 2) with false. change (Z.of_nat 1 >? 1) with false.
    cbv iota.
    destruct (strconv_ParseUint10 u grpcUserBits) as [i|e] eqn:Eu.
    2:{ split; [discriminate|]. split; [intros [p H]; discriminate|].
        intros (_ & Hf & _). inversion Hf as [|? ? Hu _]; subst.
        apply ParseUint10_some_iff in Hu as [n Hn]. congruence. }
    rewrite (ParseUint10_u32 _ _ Eu).
    pose proof (proj1 (ParseUint10_isUint32 u i) Eu) as Hu.
    destruct (PrimaryGroup cmd =? "")%string eqn:Epg; cbn [negb].
    + apply String.eqb_eq in Epg.
      destruct (parseExtraGids (SupplementaryGroups cmd) []) as [l|e] eqn:Ex.
      * apply parseExtraGids_spec in Ex as (vals & -> & Hv). simpl app.
        split.
        { intros p H. inversion H; subst; simpl. split; assumption. }
        split; [intros _|eauto].
        split; [lia|]. split; [constructor; [eauto | constructor]|].
        split; [left; exact Epg|]. apply Forall_exists_Forall2. eauto.
      * split; [discriminate|]. split; [intros [p H]; discriminate|].
        intros (_ & _ & _ & Hs). apply Forall_exists_Forall2 in Hs as [vals Hv].
        assert (parseExtraGids (SupplementaryGroups cmd) [] = Ok ([] ++ vals)%list)
          by (apply parseExtraGids_spec; eauto).
        congruence.
    + apply String.eqb_neq in Epg.
      destruct (strconv_ParseUint10 (PrimaryGroup cmd) grpcUserBits) as [pg|e] eqn:Ep.
      2:{ split; [discriminate|]. split; [intros [p H]; discriminate|].
          intros (_ & _ & [Hp | Hp] & _); [contradiction|].
          apply ParseUint10_some_iff in Hp as [n Hn]. congruence. }
      pose proof (proj1 (ParseUint10_isUint32 _ _) Ep) as Hpg.
      destruct (parseExtraGids (SupplementaryGroups cmd) []) as [l|e] eqn:Ex.
      * apply parseExtraGids_spec in Ex as (vals & -> & Hv). simpl app.
        split.
        { intros p H. inversion H; subst; simpl. split; assumption. }
        split; [intros _|eauto].
        split; [lia|]. split; [constructor; [eauto | constructor]|].
        split; [right; eauto|]. apply Forall_exists_Forall2. eauto.
      * split; [discriminate|]. split; [intros [p H]; discriminate|].
        intros (_ & _ & _ & Hs). apply Forall_exists_Forall2 in Hs as [vals Hv].
        assert (parseExtraGids (SupplementaryGroups cmd) [] = Ok ([] ++ vals)%list)
          by (apply parseExtraGids_spec; eauto).
        congruence.
  - (* uid:gid *)
    change (Z.of_nat 2 >? 2) with false. change (Z.of_nat 2 >? 1) with true.
    cbv iota.
    destruct (strconv_ParseUint10 u grpcUserBits) as [i|e] eqn:Eu.
    2:{ split; [discriminate|]. split; [intros [p H]; discriminate|].
        intros (_ & Hf & _). inversion Hf as [|? ? Hu _]; subst.
        apply ParseUint10_some_iff in Hu as [n Hn]. congruence. }
    rewrite (ParseUint10_u32 _ _ Eu).
    pose proof (proj1 (ParseUint10_isUint32 u i) Eu) as Hu.
    destruct (strconv_ParseUint10 g grpcUserBits) as [gi|e] eqn:Eg.
    2:{ split; [discriminate|]. split; [intros [p H]; discriminate|].
        intros (_ & Hf & _). inversion Hf as [|? ? _ Hf']; subst.
        inversion Hf' as [|? ? Hg _]; subst.
        apply ParseUint10_some_iff in Hg as [n Hn]. congruence. }
    pose proof (proj1 (ParseUint10_isUint32 g gi) Eg) as Hg.
    destruct (PrimaryGroup cmd =? "")%string eqn:Epg; cbn [negb].
    + apply String.eqb_eq in Epg.
      destruct (parseExtraGids (SupplementaryGroups cmd) []) as [l|e] eqn:Ex.
      * apply parseExtraGids_spec in Ex as (vals & -> & Hv). simpl app.
        split.
        { intros p H. inversion H; subst; simpl. split; assumption. }
        split; [intros _|eauto].
        split; [lia|].
        split; [constructor; [eauto | constructor; [eauto | constructor]]|].
        split; [left; exact Epg|]. apply Forall_exists_Forall2. eauto.
      * split; [discriminate|]. split; [intros [p H]; discriminate|].
        intros (_ & _ & _ & Hs). apply Forall_exists_Forall2 in Hs as [vals Hv].
        assert (parseExtraGids (SupplementaryGroups cmd) [] = Ok ([] ++ vals)%list)
          by (apply parseExtraGids_spec; eauto).
        congruence.
    + apply String.eqb_neq in Epg.
      destruct (strconv_ParseUint10 (PrimaryGroup cmd) grpcUserBits) as [pg|e] eqn:Ep.
      2:{ split; [discriminate|]. split; [intros [p H]; discriminate|].
          intros (_ & _ & [Hp | Hp] & _); [contradiction|].
          apply ParseUint10_some_iff in Hp as [n Hn]. congruence. }
      pose proof (proj1 (ParseUint10_isUint32 _ _) Ep) as Hpg.
      destruct (parseExtraGids (SupplementaryGroups cmd) []) as [l|e] eqn:Ex.
      * apply parseExtraGids_spec in Ex as (vals & -> & Hv). simpl app.
        split.
        { intros p H. inversion H; subst; simpl. split; assumption. }
        split; [intros _|eauto].
        split; [lia|].
        split; [constructor; [eauto | constructor; [eauto | constructor]]|].
        split; [right; eauto|]. apply Forall_exists_Forall2. eauto.
      * split; [discriminate|]. split; [intros [p H]; discriminate|].
        intros (_ & _ & _ & Hs). apply Forall_exists_Forall2 in Hs as [vals Hv].
        assert (parseExtraGids (SupplementaryGroups cmd) [] = Ok ([] ++ vals)%list)
          by (apply parseExtraGids_spec; eauto).
        congruence.
  - (* more than two fields *)
    assert (Hgt : (Z.of_nat (S (S (S (length rest)))) >? 2) = true).
    { rewrite Z.gtb_ltb. apply Z.ltb_lt. lia. }
    rewrite Hgt. split; [discriminate|].
    split; [intros [p H]; discriminate|]. intros [Hlen _]. lia.
Qed.

Lemma cmdToKataProcess_numeric_fields_witness :
  (exists p, cmdToKataProcess numericCmd = Ok p
             /\ UID (pUser p) = 1000
             /\ AdditionalGids (pUser p) = [10; 4294967295]
             /\ isUint32 "1000" (UID (pUser p)))
  /\ ~ (exists p, cmdToKataProcess (sampleCmd "" "") = Ok p)
  /\ ~ (exists p, cmdToKataProcess (sampleCmd "4294967296" "") = Ok p).
Proof.
  split; [|split].
  - eexists. split; [reflexivity|]. split; [reflexivity|]. split; [reflexivity|].
    exact (proj1 (proj1 (cmdToKataProcess_numeric_fields numericCmd) _ eq_refl)).
  - intros [p H]. discriminate.
  - intros [p H]. discriminate.
Defined.

(* ===================================================================== *)
(** ** Agent configuration: tracing options                                *)
(* ===================================================================== *)

Lemma string_eqb_cases (a b : string) :
  ((a =? b)%string = true /\ a = b) \/ ((a =? b)%string = false /\ a <> b).
Proof.
  destruct (a =? b)%string eqn:E; [left | right]; split; auto.
  - apply String.eqb_eq. exact E.
  - apply String.eqb_neq. exact E.
Qed.

Ltac string_cases a b :=
  let E := fresh "E" in let H := fresh "H" in
  destruct (string_eqb_cases a b) as [[E H] | [E H]]; rewrite ?E in *.

(** What [KataAgentSetDefaultTraceConfigOptions] returns, by the mode and
    the type it is given. *)
Lemma KataAgentSetDefaultTraceConfigOptions_cases
  (config : KataAgentConfig * KataAgentConfigRest) :
  let config' := fst (KataAgentSetDefaultTraceConfigOptions config) in
  let err := snd (KataAgentSetDefaultTraceConfigOptions config) in
  (Trace (fst config) = false -> config' = config /\ err = None)
  /\ (Trace (fst config) = true ->
      (err = None
       <-> (knownTraceMode (TraceMode (fst config)) \/ TraceMode (fst config) = "")
           /\ (knownTraceType (TraceType (snd config))
               \/ TraceType (snd config) = "")))
  /\ (Trace (fst config) = true -> err = None ->
      knownTraceMode (TraceMode (fst config'))
      /\ knownTraceType (TraceType (snd config'))
      /\ (TraceMode (fst config) <> "" ->
          TraceMode (fst config') = TraceMode (fst config))
      /\ (TraceType (snd config) <> "" ->
          TraceType (snd config') = TraceType (snd config)))
  /\ (err = None ->
      KataAgentSetDefaultTraceConfigOptions config' = (config', None))
  /\ (Trace (fst config) = true -> TraceMode (fst config) = "" ->
      ~ knownTraceType (TraceType (snd config)) ->
      TraceType (snd config) <> "" ->
      err <> None /\ TraceMode (fst config') = agentTraceModeDynamic).
Proof.
  destruct config as [c r]. unfold KataAgentSetDefaultTraceConfigOptions.
  unfold knownTraceMode, knownTraceType, defaultAgentTraceMode,
    defaultAgentTraceType.
  cbn [fst snd].
  destruct (Trace c) eqn:Et; cbn [negb].
  2:{ cbn [fst snd]. rewrite Et.
      repeat split; try discriminate; try reflexivity. }
  string_cases (TraceMode c) agentTraceModeDynamic;
    [|string_cases (TraceMode c) agentTraceModeStatic;
      [|string_cases (TraceMode c) ""]];
    (string_cases (TraceType r) agentTraceTypeIsolated;
      [|string_cases (TraceType r) agentTraceTypeCollated;
        [|string_cases (TraceType r) ""]]);
    cbn [fst snd TraceMode TraceType set_TraceMode set_TraceType Trace];
    rewrite ?Et; cbn [negb];
    repeat match goal with
           | H : _ = _ |- _ => rewrite H
           end;
    cbn;
    (split; [discriminate|]);
    (split; [intros _; split;
             [intros Hn; try discriminate; split; auto
             | intros [[[?|?]|?] [[?|?]|?]]; try reflexivity; congruence]|]);
    (split; [intros _ Hn; try discriminate;
             repeat split; auto; try congruence|]);
    (split; [intros Hn; try discriminate; try reflexivity|]);
    (intros _ Hm Hk Ht;
     first [ discriminate Hm
           | contradiction
           | exfalso; apply Ht; reflexivity
           | exfalso; apply Hk; auto; fail
           | split; [discriminate | reflexivity] ]).
Qed.



(** X18. Once [KataAgentSetDefaultTraceConfigOptions] has accepted a
    configuration with tracing on, tracing takes effect in exactly one of
    two ways: in static mode [handleTraceSettings] disables the VM shutdown
    and [KataAgentKernelParams] passes "agent.trace" with a known trace
    type; in dynamic mode [handleTraceSettings] sets the session's
    dynamic-tracing flag and no "agent.trace" parameter is passed. *)
Theorem tracing_static_or_dynamic (pipeSizeParam : string)
  (config config' : KataAgentConfig * KataAgentConfigRest)
  (env : Env) (w : World) :
  pipeSizeParam <> "agent.trace" ->
  Trace (fst config) = true ->
  KataAgentSetDefaultTraceConfigOptions config = (config', None) ->
  let disableVMShutdown := fst (handleTraceSettings (fst config') env w) in
  let w' := snd (handleTraceSettings (fst config') env w) in
  let traced := filter (fun p => (Key p =? "agent.trace")%string)
                       (KataAgentKernelParams pipeSizeParam config') in
  (TraceMode (fst config') = agentTraceModeStatic
   /\ disableVMShutdown = true /\ w' = w
   /\ traced = [{| Key := "agent.trace"; pValue := TraceType (snd config') |}]
   /\ knownTraceType (TraceType (snd config')))
  \/ (TraceMode (fst config') = agentTraceModeDynamic
      /\ disableVMShutdown = false
      /\ w' = {| agent := set_dynamicTracing true (agent w); log := log w |}
      /\ traced = []).
Proof.
  intros Hparam Ht Hc.
  destruct (KataAgentSetDefaultTraceConfigOptions_cases config)
    as (_ & _ & Hknown & _).
  rewrite Hc in Hknown. cbn [fst snd] in Hknown.
  destruct (Hknown Ht eq_refl) as (Hmode & Htype & _).
  assert (Ht' : Trace (fst config') = true).
  { destruct config as [c r]. unfold KataAgentSetDefaultTraceConfigOptions in Hc.
    cbn [fst] in Ht. rewrite Ht in Hc. cbn [negb] in Hc.
    repeat match type of Hc with
           | context [if ?b then _ else _] => destruct b
           end; inversion Hc; subst; cbn; exact Ht. }
  destruct config' as [c' r']. cbn [fst snd] in *.
  unfold handleTraceSettings, KataAgentKernelParams. rewrite Ht'. cbn [negb andb].
  assert (Hpipe : (pipeSizeParam =? "agent.trace")%string = false)
    by (apply String.eqb_neq; exact Hparam).
  destruct Hmode as [Hm | Hm]; rewrite Hm; [right | left]; cbn.
  - split; [reflexivity|]. split; [reflexivity|]. split; [reflexivity|].
    destruct (Debug r'), (ContainerPipeSize r' >? 0); cbn; rewrite ?Hpipe;
      reflexivity.
  - split; [reflexivity|]. split; [reflexivity|]. split; [reflexivity|].
    split; [|exact Htype].
    destruct (Debug r'), (ContainerPipeSize r' >? 0); cbn; rewrite ?Hpipe;
      reflexivity.
Qed.

Lemma tracing_static_or_dynamic_witness :
  let config' := tracingConfig "static" "isolated" in
  fst (handleTraceSettings (fst config') cooperativeEnv freshWorld) = true
  /\ KataAgentKernelParams "agent.container_pipe_size" config'
     = [{| Key := "agent.log"; pValue := "debug" |};
        {| Key := "agent.trace"; pValue := "isolated" |}]
  /\ fst (handleTraceSettings (fst (tracingConfig "dynamic" "isolated"))
            cooperativeEnv freshWorld) = false.
Proof.
  intros config'.
  split; [|split; [reflexivity|]].
  - destruct (tracing_static_or_dynamic "agent.container_pipe_size"
                (tracingConfig "static" "") config' cooperativeEnv freshWorld
                ltac:(discriminate) eq_refl eq_refl)
      as [(_ & Hd & _) | (Hm & _)]; [exact Hd | discriminate Hm].
  - destruct (tracing_static_or_dynamic "agent.container_pipe_size"
                (tracingConfig "" "") (tracingConfig "dynamic" "isolated")
                cooperativeEnv freshWorld
                ltac:(discriminate) eq_refl eq_refl)
      as [(Hm & _) | (_ & Hd & _)]; [discriminate Hm | exact Hd].
Defined.

(* ===================================================================== *)
(** ** Sharing the PID namespace with the agent                            *)
(* ===================================================================== *)

Lemma checkAgentPidNsLoop_ignored e rest acc :
  ignoredForPidNs e ->
  checkAgentPidNsLoop (e :: rest) acc = checkAgentPidNsLoop rest acc.
Proof.
  intros Hi. simpl.
  destruct (Var e =? agentPidEnv)%string eqn:E; [|reflexivity].
  destruct (strconv_ParseBool (Value e)) as [b|err] eqn:Ep; [|reflexivity].
  exfalso. apply (Hi b). split; [apply String.eqb_eq; exact E | exact Ep].
Qed.

Lemma checkAgentPidNsLoop_sets e rest acc b :
  setsAgentPidNs b e ->
  checkAgentPidNsLoop (e :: rest) acc = checkAgentPidNsLoop rest b.
Proof.
  intros [Hv Hp]. simpl. apply String.eqb_eq in Hv. rewrite Hv, Hp. reflexivity.
Qed.

Lemma setsAgentPidNs_dec e :
  (exists b, setsAgentPidNs b e) \/ ignoredForPidNs e.
Proof.
  unfold ignoredForPidNs, setsAgentPidNs.
  destruct (string_eqb_cases (Var e) agentPidEnv) as [[_ Hv] | [_ Hv]].
  - destruct (strconv_ParseBool (Value e)) as [b|err] eqn:Ep.
    + left. exists b. auto.
    + right. intros b [_ H]. discriminate.
  - right. intros b [H _]. contradiction.
Qed.

Lemma checkAgentPidNsLoop_all_ignored envs acc :
  Forall ignoredForPidNs envs -> checkAgentPidNsLoop envs acc = acc.
Proof.
  induction 1 as [|e rest He Hrest IH]; [reflexivity|].
  rewrite checkAgentPidNsLoop_ignored by exact He. exact IH.
Qed.

Lemma checkAgentPidNsLoop_last envs : forall acc,
  (Forall ignoredForPidNs envs /\ checkAgentPidNsLoop envs acc = acc)
  \/ (exists before e after b,
        envs = (before ++ e :: after)%list
        /\ setsAgentPidNs b e
        /\ Forall ignoredForPidNs after
        /\ checkAgentPidNsLoop envs acc = b).
Proof.
  induction envs as [|e rest IH]; intros acc.
  - left. split; [constructor | reflexivity].
  - destruct (setsAgentPidNs_dec e) as [[b Hb] | Hi].
    + rewrite (checkAgentPidNsLoop_sets e rest acc b Hb).
      destruct (IH b) as [[Hall Hres] | (before & e' & after & b' & Hl & Hs & Ha & Hres)].
      * right. exists [], e, rest, b. repeat split; auto. apply Hb. apply Hb.
      * right. exists (e :: before), e', after, b'.
        split; [rewrite Hl; reflexivity|]. repeat split; auto; apply Hs.
    + rewrite (checkAgentPidNsLoop_ignored e rest acc Hi).
      destruct (IH acc) as [[Hall Hres] | (before & e' & after & b' & Hl & Hs & Ha & Hres)].
      * left. split; [constructor; assumption | exact Hres].
      * right. exists (e :: before), e', after, b'.
        split; [rewrite Hl; reflexivity|]. repeat split; auto; apply Hs.
Qed.

(** X19. [checkAgentPidNs] is decided by the last KATA_AGENT_PIDNS entry of
    the command's environment whose value [strconv.ParseBool] accepts:
    entries after it that carry another name or an unreadable value do not
    change it, and without such an entry the answer is false.  What
    [createContainer] sends is that answer only when the runtime
    configuration enables the sharing, false otherwise. *)
Theorem checkAgentPidNs_last_setting (cmd : Cmd) (EnableAgentPidNs : bool) :
  ((Forall ignoredForPidNs (Envs cmd) /\ checkAgentPidNs cmd = false)
   \/ (exists before e after,
         Envs cmd = (before ++ e :: after)%list
         /\ setsAgentPidNs (checkAgentPidNs cmd) e
         /\ Forall ignoredForPidNs after))
  /\ createContainer_agentPidNs EnableAgentPidNs cmd
     = EnableAgentPidNs && checkAgentPidNs cmd.
Proof.
  split.
  - unfold checkAgentPidNs.
    destruct (checkAgentPidNsLoop_last (Envs cmd) false)
      as [[Hall Hres] | (before & e & after & b & Hl & Hs & Ha & Hres)].
    + left. split; assumption.
    + right. exists before, e, after. rewrite Hres. repeat split; auto; apply Hs.
  - unfold createContainer_agentPidNs.
    destruct (checkAgentPidNs cmd), EnableAgentPidNs; reflexivity.
Qed.

(** The setting is read case by case as [strconv.ParseBool] does, and a
    later unreadable value leaves an earlier one in force. *)
Example checkAgentPidNs_examples :
  checkAgentPidNs (envCmd [{| Var := "KATA_AGENT_PIDNS"; Value := "True" |};
                           {| Var := "KATA_AGENT_PIDNS"; Value := "yes" |};
                           {| Var := "PATH"; Value := "0" |}]) = true
  /\ checkAgentPidNs (envCmd [{| Var := "KATA_AGENT_PIDNS"; Value := "1" |};
                              {| Var := "KATA_AGENT_PIDNS"; Value := "F" |}]) = false
  /\ checkAgentPidNs (envCmd [{| Var := "kata_agent_pidns"; Value := "1" |}]) = false
  /\ createContainer_agentPidNs false
       (envCmd [{| Var := "KATA_AGENT_PIDNS"; Value := "1" |}]) = false.
Proof. repeat split. Qed.

(* ===================================================================== *)
(** ** Devices, block volumes and the block-based rootfs                   *)
(* ===================================================================== *)

Section DevicesFacts.

Variable GetDeviceByID : string -> option apiDevice.
Variable driver : BlockDeviceDriver.

Lemma appendBlockDevice_known dev device :
  GetDeviceByID (cdID dev) = Some device ->
  appendBlockDevice GetDeviceByID driver dev <> None.
Proof.
  intros H. unfold appendBlockDevice. rewrite H.
  destruct (GetDeviceInfo device) as [[d|]| |]; try discriminate.
  destruct (Pmem d); discriminate.
Qed.

Lemma appendVhostUserBlkDevice_known dev device :
  GetDeviceByID (cdID dev) = Some device ->
  appendVhostUserBlkDevice GetDeviceByID dev <> None.
Proof.
  intros H. unfold appendVhostUserBlkDevice. rewrite H.
  destruct (GetDeviceInfo device) as [|[d|]|]; discriminate.
Qed.

Lemma appendDevicesLoop_total devices : forall kataDevice deviceList,
  appendDevicesLoop GetDeviceByID driver devices kataDevice deviceList <> None.
Proof.
  induction devices as [|dev rest IH]; intros kd dl; simpl; [discriminate|].
  destruct (GetDeviceByID (cdID dev)) as [device|] eqn:E; [|discriminate].
  pose proof (appendBlockDevice_known dev device E) as Hb.
  pose proof (appendVhostUserBlkDevice_known dev device E) as Hv.
  destruct (DeviceType_of device).
  - destruct (appendBlockDevice GetDeviceByID driver dev) as [[k|]|];
      [apply IH | apply IH | congruence].
  - destruct (appendVhostUserBlkDevice GetDeviceByID dev) as [[k|]|];
      [apply IH | apply IH | congruence].
  - destruct kd; apply IH.
Qed.

Lemma appendDevicesLoop_unknown devices : forall kataDevice deviceList dev,
  In dev devices -> GetDeviceByID (cdID dev) = None ->
  appendDevicesLoop GetDeviceByID driver devices kataDevice deviceList = Some [].
Proof.
  induction devices as [|d rest IH]; intros kd dl dev Hin Hnone; [destruct Hin|].
  simpl.
  destruct (GetDeviceByID (cdID d)) as [device|] eqn:E; [|reflexivity].
  assert (Hrest : In dev rest).
  { destruct Hin as [-> | Hin]; [congruence | exact Hin]. }
  pose proof (appendBlockDevice_known d device E) as Hb.
  pose proof (appendVhostUserBlkDevice_known d device E) as Hv.
  destruct (DeviceType_of device).
  - destruct (appendBlockDevice GetDeviceByID driver d) as [[k|]|];
      [eapply IH; eassumption | eapply IH; eassumption | congruence].
  - destruct (appendVhostUserBlkDevice GetDeviceByID d) as [[k|]|];
      [eapply IH; eassumption | eapply IH; eassumption | congruence].
  - destruct kd; eapply IH; eassumption.
Qed.

Lemma appendDevicesLoop_convertible devices : forall kataDevice deviceList,
  Forall (convertible GetDeviceByID) devices ->
  appendDevicesLoop GetDeviceByID driver devices kataDevice deviceList
  = Some (deviceList
          ++ flat_map (convertedDevice GetDeviceByID driver) devices)%list.
Proof.
  induction devices as [|d rest IH]; intros kd dl Hall; simpl.
  - rewrite app_nil_r. reflexivity.
  - inversion Hall as [|? ? (device & E & Ht) Hrest]; subst.
    unfold convertedDevice at 1. rewrite E.
    pose proof (appendBlockDevice_known d device E) as Hb.
    pose proof (appendVhostUserBlkDevice_known d device E) as Hv.
    destruct (DeviceType_of device); [| |congruence].
    + destruct (appendBlockDevice GetDeviceByID driver d) as [[k|]|];
        [| |congruence]; rewrite (IH _ _ Hrest); [|reflexivity].
      rewrite <- app_assoc. reflexivity.
    + destruct (appendVhostUserBlkDevice GetDeviceByID d) as [[k|]|];
        [| |congruence]; rewrite (IH _ _ Hrest); [|reflexivity].
      rewrite <- app_assoc. reflexivity.
Qed.

End DevicesFacts.

(** X20. [appendDevices] never panics.  When every container device is
    known and is a block or vhost-user-blk device, the devices it yields
    are appended to the list in order (a drive that is malformed or
    persistent memory yields none).  One device id the manager does not
    know makes the result the nil list: the devices passed in and those
    converted so far are dropped, and no error is returned.  A known device
    of another type does not reset the loop variable, so the entry of the
    device right before it is appended a second time. *)
Theorem appendDevices_list (GetDeviceByID : string -> option apiDevice)
  (driver : BlockDeviceDriver) (deviceList : list grpcDevice)
  (devices : list ContainerDevice) :
  appendDevices GetDeviceByID driver deviceList devices <> None
  /\ (Forall (convertible GetDeviceByID) devices ->
      appendDevices GetDeviceByID driver deviceList devices
      = Some (deviceList
              ++ flat_map (convertedDevice GetDeviceByID driver) devices)%list)
  /\ (forall dev, In dev devices -> GetDeviceByID (cdID dev) = None ->
      appendDevices GetDeviceByID driver deviceList devices = Some [])
  /\ (forall d1 d2 kd other rest,
        devices = d1 :: d2 :: rest ->
        convertedDevice GetDeviceByID driver d1 = [kd] ->
        GetDeviceByID (cdID d2) = Some other ->
        DeviceType_of other = DeviceOtherType ->
        Forall (convertible GetDeviceByID) rest ->
        appendDevices GetDeviceByID driver deviceList devices
        = Some (deviceList ++ [kd; kd]
                ++ flat_map (convertedDevice GetDeviceByID driver) rest)%list).
Proof.
  unfold appendDevices.
  split; [apply appendDevicesLoop_total|].
  split; [apply appendDevicesLoop_convertible|].
  split; [intros dev; apply appendDevicesLoop_unknown|].
  intros d1 d2 kd other rest -> Hkd Hother Htype Hrest.
  simpl. unfold convertedDevice in Hkd.
  destruct (GetDeviceByID (cdID d1)) as [device|] eqn:E1; [|discriminate].
  destruct (DeviceType_of device).
  - destruct (appendBlockDevice GetDeviceByID driver d1) as [[k|]|];
      try discriminate.
    inversion Hkd; subst k. rewrite Hother, Htype.
    rewrite (appendDevicesLoop_convertible _ _ rest _ _ Hrest).
    rewrite <- !app_assoc. reflexivity.
  - destruct (appendVhostUserBlkDevice GetDeviceByID d1) as [[k|]|];
      try discriminate.
    inversion Hkd; subst k. rewrite Hother, Htype.
    rewrite (appendDevicesLoop_convertible _ _ rest _ _ Hrest).
    rewrite <- !app_assoc. reflexivity.
  - discriminate.
Qed.

Lemma appendDevices_list_witness :
  let blk := {| cdID := "blk0"; cdContainerPath := "/dev/xvda" |} in
  let vfio := {| cdID := "vfio0"; cdContainerPath := "/dev/vfio/3" |} in
  let gone := {| cdID := "missing"; cdContainerPath := "/dev/xvdb" |} in
  let kd := {| dId := "02"; dType := "blk"; dVmPath := "/dev/vda";
               dContainerPath := "/dev/xvda" |} in
  appendDevices sampleDevManager VirtioBlock [] [blk; vfio] = Some [kd; kd]
  /\ appendDevices sampleDevManager VirtioBlock [kd] [blk; gone] = Some []
  /\ appendDevices sampleDevManager VirtioBlock [] [blk; blk] = Some [kd; kd].
Proof.
  intros blk vfio gone kd.
  destruct (appendDevices_list sampleDevManager VirtioBlock [] [blk; vfio])
    as (_ & _ & _ & Hstale).
  destruct (appendDevices_list sampleDevManager VirtioBlock [kd] [blk; gone])
    as (_ & _ & Hgone & _).
  destruct (appendDevices_list sampleDevManager VirtioBlock [] [blk; blk])
    as (_ & Hconv & _).
  split; [|split].
  - exact (Hstale blk vfio kd _ [] eq_refl eq_refl eq_refl eq_refl (Forall_nil _)).
  - exact (Hgone gone (or_intror (or_introl eq_refl)) eq_refl).
  - apply Hconv. repeat constructor; eexists; (split; [reflexivity | discriminate]).
Defined.

(** X21. For a block drive that is not persistent memory, the rootfs
    storage of [buildContainerRootfs] and the volume storage of
    [handleDeviceBlockVolume] name the drive alike: same driver and same
    source under each of the four block drivers, and the same
    unknown-driver error otherwise.  The device entry of
    [appendBlockDevice] has that driver as its type and that source as its
    id, except under virtio-blk with a nil PCI path, where the storages
    fall back to the virtual path and the device entry does not. *)
Theorem block_drive_named_alike (GetDeviceByID : string -> option apiDevice)
  (driver : BlockDeviceDriver) (driverName : string)
  (m : vcMount) (dev : ContainerDevice)
  (fsType rootPathParent : string) (device : apiDevice) (bd : BlockDrive) :
  GetDeviceByID (cdID dev) = Some device ->
  GetDeviceInfo device = InfoBlockDrive (Some bd) ->
  Pmem bd = false ->
  match buildContainerRootfs_block GetDeviceByID driver driverName
          fsType (cdID dev) rootPathParent,
        handleDeviceBlockVolume driver driverName m device with
  | Ok rootfs, Ok vol =>
      Driver rootfs = Driver vol /\ stSource rootfs = stSource vol
      /\ MountPoint rootfs = rootPathParent /\ MountPoint vol = vmDestination m
      /\ exists kd,
           appendBlockDevice GetDeviceByID driver dev = Some (Some kd)
           /\ dType kd = Driver vol
           /\ (dId kd = stSource vol
               \/ (driver = VirtioBlock /\ PCIPath_IsNil bd = true
                   /\ dId kd = PCIPath_String bd
                   /\ stSource vol = VirtPath bd))
  | Err e1, Err e2 =>
      e1 = e2
      /\ e1 = fmtErrorf "Unknown block device driver: %s" [driverName]
      /\ (driver = Nvdimm \/ exists name, driver = OtherDriver name)
  | _, _ => False
  end.
Proof.
  intros Hdev Hinfo Hpmem.
  unfold buildContainerRootfs_block, handleDeviceBlockVolume, appendBlockDevice.
  rewrite Hdev, Hinfo, Hpmem.
  destruct driver; cbn.
  - repeat split; try reflexivity. eexists. repeat split; try reflexivity. left; reflexivity.
  - repeat split; try reflexivity. eexists. repeat split; try reflexivity. left; reflexivity.
  - repeat split; try reflexivity. eexists. split; [reflexivity|]. split; [reflexivity|].
    destruct (PCIPath_IsNil bd) eqn:E; cbn; [right | left]; repeat split; reflexivity.
  - repeat split; try reflexivity. eexists. repeat split; try reflexivity. left; reflexivity.
  - repeat split; try reflexivity. left; reflexivity.
  - repeat split; try reflexivity. right; eexists; reflexivity.
Qed.

Lemma block_drive_named_alike_witness :
  let blk := {| cdID := "blk0"; cdContainerPath := "/dev/xvda" |} in
  let m := {| vmSource := "/dev/loop0"; vmDestination := "/vol"; vmType := "ext4";
              vmOptions := ["rw"]; BlockDeviceID := "blk0" |} in
  buildContainerRootfs_block sampleDevManager VirtioSCSI "virtio-scsi"
    "xfs" "blk0" "/run/kata-containers/shared/containers/c1"
  = Ok {| Driver := "scsi"; stSource := "0:0";
          MountPoint := "/run/kata-containers/shared/containers/c1";
          Fstype := "xfs"; stOptions := ["nouuid"] |}
  /\ match buildContainerRootfs_block sampleDevManager VirtioSCSI "virtio-scsi"
             "xfs" (cdID blk) "/run/kata-containers/shared/containers/c1",
           handleDeviceBlockVolume VirtioSCSI "virtio-scsi" m
             {| DeviceType_of := DeviceBlock;
                GetDeviceInfo := InfoBlockDrive (Some (sampleDrive false)) |} with
     | Ok rootfs, Ok vol => Driver rootfs = Driver vol /\ stSource rootfs = stSource vol
     | _, _ => False
     end.
Proof.
  intros blk m. split; [reflexivity|].
  pose proof (block_drive_named_alike sampleDevManager VirtioSCSI "virtio-scsi"
                m blk "xfs" "/run/kata-containers/shared/containers/c1"
                _ (sampleDrive false) eq_refl eq_refl eq_refl) as H.
  cbn in H |- *. destruct H as (H1 & H2 & _). split; assumption.
Defined.

Section BlockVolumesFacts.

Variable GetDeviceByID : string -> option apiDevice.
Variable driver : BlockDeviceDriver.
Variable driverName : string.





End BlockVolumesFacts.



(* ===================================================================== *)
(** ** Sandbox storages                                                    *)
(* ===================================================================== *)

Lemma setupStorages_run_9p rootless sandbox g :
  shares9p sandbox = true ->
  exists rest,
    setupStorages_run rootless sandbox g
    = ({| Driver := kata9pDevType; stSource := mountGuestTag;
          MountPoint := kataGuestSharedDir rootless; Fstype := type9pFs;
          stOptions := (sharedDir9pOptions g ++ [msizeOption sandbox])%list |}
       :: rest,
       {| sharedDir9pOptions := (sharedDir9pOptions g ++ [msizeOption sandbox])%list;
          sharedDirVirtioFSOptions := sharedDirVirtioFSOptions g |}).
Proof.
  unfold shares9p, setupStorages_run. intros H.
  apply andb_true_iff in H as [H1 H2]. apply negb_true_iff in H2.
  rewrite H1, H2. destruct (shmSize sandbox >? 0); eexists; reflexivity.
Qed.

(** X23. [setupStorages] appends the msize option of the 9p shared volume
    to a package-level slice and never resets it.  So when sandboxes that
    share over 9p are set up one after another in one process, the shared
    volume of each carries the msize options of all sandboxes set up so
    far, its own last. *)
Theorem setupStorages_options_accumulate (rootless : option string)
  (sandboxes : list StorageConfig) (g : Globals) (i : nat)
  (sandbox : StorageConfig) :
  Forall (fun sb => shares9p sb = true) sandboxes ->
  nth_error sandboxes i = Some sandbox ->
  exists shared rest,
    nth_error (setupStorages_each rootless sandboxes g) i = Some (shared :: rest)
    /\ Driver shared = kata9pDevType
    /\ MountPoint shared = kataGuestSharedDir rootless
    /\ stOptions shared
       = (sharedDir9pOptions g ++ map msizeOption (firstn (S i) sandboxes))%list.
Proof.
  revert g i. induction sandboxes as [|sb rest IH]; intros g i Hall Hi.
  - destruct i; discriminate.
  - inversion Hall as [|? ? Hsb Hrest]; subst.
    destruct (setupStorages_run_9p rootless sb g Hsb) as [tail Hrun].
    simpl setupStorages_each. rewrite Hrun.
    destruct i as [|i].
    + inversion Hi; subst sandbox. eexists. exists tail.
      split; [reflexivity|]. repeat split; reflexivity.
    + simpl in Hi.
      destruct (IH {| sharedDir9pOptions :=
                        (sharedDir9pOptions g ++ [msizeOption sb])%list;
                      sharedDirVirtioFSOptions := sharedDirVirtioFSOptions g |}
                   i Hrest Hi) as (shared & rest' & Hn & Hd & Hm & Ho).
      exists shared, rest'. split; [exact Hn|]. split; [exact Hd|].
      split; [exact Hm|]. rewrite Ho. cbn [sharedDir9pOptions].
      rewrite <- app_assoc. reflexivity.
Qed.

Lemma setupStorages_options_accumulate_witness :
  exists shared rest,
    nth_error (setupStorages_each None [sandbox9p 8192; sandbox9p 4096]
                                  initialGlobals) 1
    = Some (shared :: rest)
    /\ stOptions shared
       = ["trans=virtio,version=9p2000.L,cache=mmap"; "nodev";
          "msize=8192"; "msize=4096"].
Proof.
  destruct (setupStorages_options_accumulate None
              [sandbox9p 8192; sandbox9p 4096] initialGlobals 1 (sandbox9p 4096)
              ltac:(repeat constructor) eq_refl)
    as (shared & rest & Hn & _ & _ & Ho).
  exists shared, rest. split; [exact Hn | exact Ho].
Defined.

(** X24. With a sandbox shm size above zero, [handleShm] turns every
    /dev/shm mount that is not ephemeral into a bind mount of the very
    directory at which [setupStorages] mounts the sandbox's shm tmpfs;
    with size zero such a mount becomes a tmpfs of its own and no sandbox
    shm storage exists. *)
Theorem handleShm_binds_sandbox_shm (rootless : option string)
  (sandbox : StorageConfig) (g : Globals) (DefaultShmSize : Z)
  (mounts : list Mount) (m : Mount) :
  In m (handleShm rootless (shmSize sandbox) DefaultShmSize mounts) ->
  Destination m = "/dev/shm" ->
  mType m <> KataEphemeralDevType ->
  (shmSize sandbox > 0 ->
     mType m = "bind" /\ mOptions m = ["rbind"]
     /\ exists st,
          In st (fst (setupStorages_run rootless sandbox g))
          /\ MountPoint st = Source m
          /\ Driver st = KataEphemeralDevType /\ Fstype st = "tmpfs")
  /\ (shmSize sandbox <= 0 ->
      mType m = "tmpfs" /\ Source m = "shm"
      /\ Forall (fun st => Driver st <> KataEphemeralDevType)
                (fst (setupStorages_run rootless sandbox g))).
Proof.
  intros Hin Hdest Htype.
  rewrite handleShm_map in Hin. apply in_map_iff in Hin as (m0 & Hm & _).
  simpl in Hm.
  destruct (string_eqb_cases (Destination m0) "/dev/shm") as [[E _] | [E Hne]];
    rewrite E in Hm; cbn [negb] in Hm.
  2:{ subst m0. contradiction. }
  destruct (string_eqb_cases (mType m0) KataEphemeralDevType)
    as [[E2 He] | [E2 _]]; rewrite E2 in Hm.
  { subst m0. contradiction. }
  split.
  - intros Hpos. assert (Hgt : (shmSize sandbox >? 0) = true)
      by (rewrite Z.gtb_ltb; apply Z.ltb_lt; lia).
    rewrite Hgt in Hm. subst m. cbn.
    split; [reflexivity|]. split; [reflexivity|].
    unfold setupStorages_run. rewrite Hgt.
    eexists. split.
    + destruct (IsFsSharingSupported sandbox);
        [destruct (SharedFS_isVirtioFS sandbox)|]; cbn [fst];
        apply in_or_app; right; left; reflexivity.
    + cbn. repeat split; reflexivity.
  - intros Hle. assert (Hgt : (shmSize sandbox >? 0) = false)
      by (rewrite Z.gtb_ltb; apply Z.ltb_ge; lia).
    rewrite Hgt in Hm. subst m. cbn.
    split; [reflexivity|]. split; [reflexivity|].
    unfold setupStorages_run. rewrite Hgt.
    destruct (IsFsSharingSupported sandbox);
      [destruct (SharedFS_isVirtioFS sandbox)|]; cbn [fst];
      repeat constructor; cbn; discriminate.
Qed.

Lemma handleShm_binds_sandbox_shm_witness :
  let m := {| Destination := "/dev/shm"; mType := "bind";
              Source := "/run/kata-containers/sandbox/shm";
              mOptions := ["rbind"] |} in
  handleShm None 67108864 65536 [sampleMount "/dev/shm" "/host/shm"] = [m]
  /\ exists st,
       In st (fst (setupStorages_run None (sandbox9p 8192) initialGlobals))
       /\ MountPoint st = Source m
       /\ Driver st = KataEphemeralDevType /\ Fstype st = "tmpfs".
Proof.
  intros m. split; [reflexivity|].
  refine (proj2 (proj2 (proj1 (handleShm_binds_sandbox_shm None (sandbox9p 8192)
            initialGlobals 65536 [sampleMount "/dev/shm" "/host/shm"] m
            (or_introl eq_refl) eq_refl _) _))).
  - discriminate.
  - reflexivity.
Defined.

(* ===================================================================== *)
(** ** Type translator: network types there and back                       *)
(* ===================================================================== *)

Lemma convertToIPFamily_back f :
  convertToIPFamily (convertToKataAgentIPFamily f)
  = if (f =? FAMILY_V4) || (f =? FAMILY_V6) then f else FAMILY_V4.
Proof.
  unfold convertToIPFamily, convertToKataAgentIPFamily.
  destruct (f =? FAMILY_V4) eqn:E4.
  - apply Z.eqb_eq in E4. subst. reflexivity.
  - destruct (f =? FAMILY_V6) eqn:E6; [|reflexivity].
    apply Z.eqb_eq in E6. subst. reflexivity.
Qed.

(** X25. Translating addresses to the agent's types and back drops the nil
    entries and keeps the order, the address and the mask.  The family is
    kept when it is IPv4 or IPv6; every other family comes back as IPv4.
    Routes come back as they were, without the nil entries. *)
Theorem convertToIPAddresses_round_trip (ipAddrs : list (option IPAddress))
  (routes : list (option Route)) :
  convertToIPAddresses (map Some (convertToKataAgentIPAddresses ipAddrs))
  = map (fun a => if (ipFamily a =? FAMILY_V4) || (ipFamily a =? FAMILY_V6)
                  then a else asV4 a) (present ipAddrs)
  /\ (Forall knownFamily (present ipAddrs) ->
      convertToIPAddresses (map Some (convertToKataAgentIPAddresses ipAddrs))
      = present ipAddrs)
  /\ convertToRoutes (map Some (convertToKataAgentRoutes routes)) = present routes.
Proof.
  assert (H1 : convertToIPAddresses
                 (map Some (convertToKataAgentIPAddresses ipAddrs))
               = map (fun a => if (ipFamily a =? FAMILY_V4)
                                  || (ipFamily a =? FAMILY_V6)
                               then a else asV4 a) (present ipAddrs)).
  { induction ipAddrs as [|[a|] rest IH]; simpl; [reflexivity| |exact IH].
    rewrite IH, convertToIPFamily_back. f_equal.
    destruct ((ipFamily a =? FAMILY_V4) || (ipFamily a =? FAMILY_V6));
      [destruct a|]; reflexivity. }
  split; [exact H1|]. split.
  - intros Hall. rewrite H1. rewrite <- (map_id (present ipAddrs)) at 2.
    apply map_ext_in. intros a Hin.
    rewrite Forall_forall in Hall. destruct (Hall a Hin) as [-> | ->]; reflexivity.
  - induction routes as [|[r|] rest IH]; simpl; [reflexivity| |exact IH].
    rewrite IH. reflexivity.
Qed.

Lemma convertToIPAddresses_round_trip_witness :
  let v6 := {| ipFamily := 10; ipAddress := "fe80::1"; ipMask := "64" |} in
  let odd := {| ipFamily := 17; ipAddress := "10.0.0.9"; ipMask := "8" |} in
  convertToIPAddresses (map Some (convertToKataAgentIPAddresses [Some v6; None]))
  = [v6]
  /\ convertToIPAddresses (map Some (convertToKataAgentIPAddresses [Some odd]))
     = [asV4 odd].
Proof.
  intros v6 odd. split.
  - apply (proj1 (proj2 (convertToIPAddresses_round_trip [Some v6; None] []))).
    constructor; [right; reflexivity | constructor].
  - exact (proj1 (convertToIPAddresses_round_trip [Some odd] [])).
Defined.

(* ===================================================================== *)
(** ** Mount resolver: block volumes that match a mount                    *)
(* ===================================================================== *)

Lemma rangeOCIMounts_spec uuid p (ociMounts : list Mount) : forall j index,
  let res := rangeOCIMounts uuid p ociMounts j index in
  map Destination (snd res) = map Destination ociMounts
  /\ (sourceAt p ociMounts = None -> snd (fst res) = None /\ snd res = ociMounts)
  /\ (sourceAt p ociMounts <> None ->
      snd (fst res) = Some (guestVolumePath uuid p)
      /\ sourceAt p (snd res) = Some (guestVolumePath uuid p))
  /\ (forall d, d <> p -> sourceAt d (snd res) = sourceAt d ociMounts).
Proof.
  induction ociMounts as [|m rest IH]; intros j index; cbn zeta.
  - simpl. split; [reflexivity|]. split; [intros _; split; reflexivity|].
    split; [intros H; exfalso; apply H; reflexivity | reflexivity].
  - simpl rangeOCIMounts. unfold sourceAt. simpl find.
    destruct (string_eqb_cases (Destination m) p) as [[E Heq] | [E Hne]];
      rewrite E; cbn [negb].
    + cbn [fst snd map]. split; [reflexivity|]. split; [discriminate|].
      split.
      * intros _. unfold guestVolumePath. rewrite Heq. split; [reflexivity|].
        cbn. rewrite E. reflexivity.
      * intros d Hd. cbn [find set_Source Destination].
        destruct (Destination m =? d)%string eqn:Ed; [|reflexivity].
        apply String.eqb_eq in Ed. congruence.
    + specialize (IH (j + 1) j). cbn zeta in IH.
      destruct (rangeOCIMounts uuid p rest (j + 1) j) as [[index' found] rest'].
      cbn [fst snd] in *. destruct IH as (Hd & Hn & Hs & Ho).
      split; [simpl; rewrite Hd; reflexivity|].
      split; [intros H; destruct (Hn H) as [-> ->]; split; reflexivity|].
      split.
      * intros H. destruct (Hs H) as [Hf Hp]. split; [exact Hf|].
        cbn [find]. rewrite E. exact Hp.
      * intros d Hdp. cbn [find].
        destruct (Destination m =? d)%string; [reflexivity|]. apply Ho. exact Hdp.
Qed.

Lemma replaceLoop_spec uuid_Generate (volumeStorages : list Storage) :
  forall (ociMounts : list Mount) index n,
    ociMounts <> [] ->
    NoDup (map MountPoint volumeStorages) ->
    let res := replaceLoop uuid_Generate ociMounts volumeStorages index n in
    map Destination (snd (fst res)) = map Destination ociMounts
    /\ Forall2 (volumeReplaced uuid_Generate ociMounts (snd (fst res)))
               volumeStorages (snd res)
    /\ (forall d, ~ In d (map MountPoint volumeStorages) ->
        sourceAt d (snd (fst res)) = sourceAt d ociMounts).
Proof.
  induction volumeStorages as [|v vs IH]; intros ociMounts index n Hne Hnd;
    cbn zeta.
  - simpl. split; [reflexivity|]. split; [constructor | reflexivity].
  - simpl replaceLoop. inversion Hnd as [|? ? Hnotin Hnd']; subst.
    pose proof (rangeOCIMounts_index (uuid_Generate n) (MountPoint v)
                  ociMounts 0 index Hne) as [Hidx Hlen].
    pose proof (rangeOCIMounts_spec (uuid_Generate n) (MountPoint v)
                  ociMounts 0 index) as Hspec. cbn zeta in Hspec.
    destruct (rangeOCIMounts (uuid_Generate n) (MountPoint v) ociMounts 0 index)
      as [[index' found] ociMounts'].
    cbn [fst snd] in *. destruct Hspec as (Hd & Hnone & Hsome & Hother).
    assert (Hneq : (index' =? llen ociMounts') = false).
    { apply Z.eqb_neq. unfold llen in *. lia. }
    rewrite Hneq.
    assert (Hne' : ociMounts' <> []).
    { destruct ociMounts', ociMounts; simpl in *; congruence. }
    specialize (IH ociMounts' index'
                   (match found with Some _ => S n | None => n end) Hne' Hnd').
    cbn zeta in IH.
    destruct (replaceLoop uuid_Generate ociMounts' vs index' _) as [[err ms] vs'].
    cbn [fst snd] in *. destruct IH as (Hd' & Hvs & Hkeep).
    split; [rewrite Hd', Hd; reflexivity|]. split.
    + constructor.
      * unfold volumeReplaced.
        destruct (sourceAt (MountPoint v) ociMounts) as [s|] eqn:Es.
        -- destruct Hsome as [Hf Hp]; [discriminate|]. subst found.
           exists n. split; [reflexivity|]. cbn [set_MountPoint MountPoint].
           rewrite (Hkeep _ Hnotin). exact Hp.
        -- destruct (Hnone eq_refl) as [-> _]. reflexivity.
      * clear - Hvs Hother Hnotin.
        induction Hvs as [|w w' ws ws' Hw Hws IHws]; constructor.
        -- unfold volumeReplaced in *.
           rewrite <- (Hother (MountPoint w)); [exact Hw|].
           intros Heq. apply Hnotin. left. exact Heq.
        -- apply IHws. intros Hin. apply Hnotin. right. exact Hin.
    + intros d Hnin. rewrite Hkeep by (intros Hin; apply Hnin; right; exact Hin).
      apply Hother. intros Heq. apply Hnin. left. symmetry. exact Heq.
Qed.

(** X26. With a non-empty mount list and volumes at pairwise distinct
    mount points, [replaceOCIMountsForStorages] returns nil and leaves
    every destination of the spec as it was.  A volume whose mount point is
    a destination of the spec is moved to a temporary path below the
    sandbox storage directory, named by a fresh identifier and the base
    name of the mount point, and the first mount at that destination gets
    this path as its source; a volume without such a mount is left as it
    was, and so are the sources of the mounts at other destinations. *)
Theorem replaceOCIMountsForStorages_matched_volumes
  (uuid_Generate : nat -> string) (specMounts : list Mount)
  (volumeStorages : list Storage) :
  specMounts <> [] ->
  NoDup (map MountPoint volumeStorages) ->
  let res := replaceOCIMountsForStorages uuid_Generate specMounts volumeStorages in
  fst (fst res) = None
  /\ map Destination (snd (fst res)) = map Destination specMounts
  /\ Forall2 (volumeReplaced uuid_Generate specMounts (snd (fst res)))
             volumeStorages (snd res)
  /\ (forall d, ~ In d (map MountPoint volumeStorages) ->
      sourceAt d (snd (fst res)) = sourceAt d specMounts).
Proof.
  intros Hne Hnd. cbn zeta. unfold replaceOCIMountsForStorages.
  split; [apply replaceLoop_never_fails; exact Hne|].
  exact (replaceLoop_spec uuid_Generate volumeStorages specMounts 0 0%nat Hne Hnd).
Qed.

Lemma replaceOCIMountsForStorages_matched_volumes_witness :
  let mounts := [sampleMount "/etc/hosts" "/host/hosts";
                 sampleMount "/vol" "/dev/loop0"] in
  let res := replaceOCIMountsForStorages (fun _ => "5e6f") mounts
               [sampleVolume "/vol"; sampleVolume "/nowhere"] in
  snd res = [sampleVolume "/run/kata-containers/sandbox/storage/5e6f-vol";
             sampleVolume "/nowhere"]
  /\ sourceAt "/vol" (snd (fst res))
     = Some "/run/kata-containers/sandbox/storage/5e6f-vol"
  /\ Forall2 (volumeReplaced (fun _ => "5e6f") mounts (snd (fst res)))
             [sampleVolume "/vol"; sampleVolume "/nowhere"] (snd res).
Proof.
  intros mounts res. split; [reflexivity|]. split; [reflexivity|].
  refine (proj1 (proj2 (proj2
            (replaceOCIMountsForStorages_matched_volumes (fun _ => "5e6f") mounts
               [sampleVolume "/vol"; sampleVolume "/nowhere"] _ _)))).
  - discriminate.
  - constructor; [|constructor; [|constructor]].
    + intros [H | []]. discriminate.
    + intros [].
Defined.

(* ===================================================================== *)
(** ** Sandbox orchestration: the resolver file                            *)
(* ===================================================================== *)

Lemma strings_Split_Join sep s :
  strings_Join (strings_Split sep s) (String sep EmptyString) = s.
Proof.
  unfold strings_Join. induction s as [|c s IH]; simpl; [reflexivity|].
  pose proof (strings_Split_nonempty sep s) as Hne.
  destruct (Ascii.eqb c sep) eqn:E.
  - apply Ascii.eqb_eq in E. subst c.
    destruct (strings_Split sep s) as [|f fs]; [congruence|].
    simpl in *. rewrite IH. reflexivity.
  - destruct (strings_Split sep s) as [|f fs]; [congruence|].
    destruct fs as [|f' fs']; simpl in *; rewrite <- IH; reflexivity.
Qed.

Lemma strings_Split_fields sep s :
  Forall (fun f => hasChar sep f = false) (strings_Split sep s).
Proof.
  induction s as [|c s IH]; simpl; [repeat constructor|].
  destruct (Ascii.eqb c sep) eqn:E.
  - constructor; [reflexivity | exact IH].
  - destruct (strings_Split sep s) as [|f fs]; [repeat constructor; simpl; rewrite E; reflexivity|].
    inversion IH; subst. constructor; [simpl; rewrite E; assumption | assumption].
Qed.

(** X27. When the sandbox spec has a mount at /etc/resolv.conf, [getDNS]
    reads the source of the first such mount and returns its content cut
    at the newlines: at least one entry, none containing a newline, and
    joined by newlines they give the content back (so a final newline
    leaves an empty last entry).  When the file cannot be read,
    [startSandbox] fails before anything is sent to the guest. *)
Theorem getDNS_lines (sb : Sandbox) (env : Env) (w : World)
  (mounts : list Mount) (m : Mount) :
  sbOCIMounts sb = Some mounts ->
  findDNSMount mounts = Some m ->
  (forall content, ioutil_ReadFile env (Source m) = Ok content ->
     exists lines,
       getDNS sb env w = (Ok (Some lines), w)
       /\ lines <> []
       /\ Forall (fun l => hasChar "010" l = false) lines
       /\ strings_Join lines (String "010" EmptyString)
          = string_of_list_byte content)
  /\ (forall e, ioutil_ReadFile env (Source m) = Err e ->
      getDNS sb env w
      = (Err (fmtErrorf "Could not read file %s: %s" [Source m; Error e]), w)
      /\ calls (log (snd (startSandbox sb env w))) = calls (log w)
      /\ fst (startSandbox sb env w) <> None).
Proof.
  intros Hm Hf. split.
  - intros content Hr. exists (strings_Split "010" (string_of_list_byte content)).
    split; [unfold getDNS; agent_unfold; rewrite Hm, Hf, Hr; reflexivity|].
    split; [apply strings_Split_nonempty|].
    split; [apply strings_Split_fields | apply strings_Split_Join].
  - intros e Hr.
    assert (Hdns : getDNS sb env w
                   = (Err (fmtErrorf "Could not read file %s: %s"
                                     [Source m; Error e]), w)).
    { unfold getDNS. agent_unfold. rewrite Hm, Hf, Hr. reflexivity. }
    split; [exact Hdns|].
    assert (Hdns' : forall w1, getDNS sb env w1
                   = (Err (fmtErrorf "Could not read file %s: %s"
                                     [Source m; Error e]), w1)).
    { intros w1. unfold getDNS. agent_unfold. rewrite Hm, Hf, Hr. reflexivity. }
    remember (startSandbox sb env w) as final eqn:Hfinal.
    unfold startSandbox in Hfinal. unfold bind at 1 in Hfinal.
    destruct (startProxy_no_calls sb env w) as (e0 & Hl0 & Hc0).
    destruct (startProxy sb env w) as [[pe|] w1]; cbn [snd] in Hl0.
    + unfold ret in Hfinal. subst final. cbn. split; [|discriminate].
      rewrite Hl0, calls_app, Hc0, app_nil_r. reflexivity.
    + unfold bind at 1 in Hfinal. unfold bind at 1 in Hfinal.
      rewrite Hdns' in Hfinal.
      unfold bind, ret, getAgent, proxyStop, io in Hfinal. cbn in Hfinal.
      subst final. cbn. split; [|discriminate].
      rewrite Hl0, !calls_app, Hc0. simpl. rewrite !app_nil_r. reflexivity.
Qed.

Lemma getDNS_lines_witness :
  getDNS dnsSandbox cooperativeEnv freshWorld
  = (Ok (Some ["kata"; ""]), freshWorld)
  /\ (exists lines,
        getDNS dnsSandbox cooperativeEnv freshWorld = (Ok (Some lines), freshWorld)
        /\ lines <> []
        /\ Forall (fun l => hasChar "010" l = false) lines
        /\ strings_Join lines (String "010" EmptyString)
           = string_of_list_byte [Byte.x6b; Byte.x61; Byte.x74; Byte.x61; Byte.x0a])
  /\ calls (log (snd (startSandbox dnsSandbox
                        (withReadFile (Err (errorsNew "permission denied"))
                                      cooperativeEnv) freshWorld))) = [].
Proof.
  split; [reflexivity|]. split.
  - exact (proj1 (getDNS_lines dnsSandbox cooperativeEnv freshWorld _ _
                    eq_refl eq_refl) _ eq_refl).
  - exact (proj1 (proj2 (proj2 (getDNS_lines dnsSandbox
             (withReadFile (Err (errorsNew "permission denied")) cooperativeEnv)
             freshWorld _ _ eq_refl eq_refl) _ eq_refl))).
Defined.

(* ===================================================================== *)
(** ** Sandbox orchestration: the proxy and the channel                    *)
(* ===================================================================== *)

(** X28. On a session with a proxy and no URL recorded, [startProxy]
    starts the proxy on the agent's URL and the sandbox console and
    records the pid and the URI the proxy returns.  The next [connect]
    then probes that pid and, when the probe succeeds, dials that URI;
    and a second [startProxy] on a session that does not keep its
    connection finds the URL recorded and does nothing. *)
Theorem startProxy_records_endpoint (sb : Sandbox) (env : Env) (w : World)
  (agentSock console uri : string) (pid : Z) :
  proxy (agent w) = true ->
  proxy_consoleWatched env (log w) = false ->
  URL (state (agent w)) = "" ->
  agentURL env = Ok agentSock ->
  getSandboxConsole env (sbId sb) = Ok console ->
  proxy_start env (log w) agentSock console = Ok (pid, uri) ->
  uri <> "" ->
  let w1 := snd (startProxy sb env w) in
  fst (startProxy sb env w) = None
  /\ w1 = {| agent := set_state {| ProxyPid := pid; URL := uri |}
                                (set_proxy true (agent w));
            log := (log w ++ [EvProxyStart agentSock console])%list |}
  /\ (dead (agent w) = false -> client (agent w) = None -> pid > 0 ->
      log (snd (connect env w1))
      = (log w1 ++ EvKill pid
           :: match sys_Kill env (log w1) pid with
              | None => [EvDial uri (proxyBuiltIn (agent w))]
              | Some _ => []
              end)%list)
  /\ (keepConn (agent w) = false ->
      proxy_consoleWatched env (log w1) = false ->
      startProxy sb env w1 = (None, w1)).
Proof.
  intros Hp Hw Hu Ha Hc Hs Huri w1.
  assert (Hne : (uri =? "")%string = false) by (apply String.eqb_neq; exact Huri).
  assert (Hrun : startProxy sb env w
                 = (None,
                    {| agent := set_state {| ProxyPid := pid; URL := uri |}
                                          (set_proxy true (agent w));
                       log := (log w ++ [EvProxyStart agentSock console])%list |})).
  { unfold startProxy, setProxy, proxyStop.
    unfold bind, ret, io, modify, getAgent, getEnv.
    repeat (cbn; rewrite ?Hp, ?Hw, ?Hu, ?Ha, ?Hc, ?Hs, ?Hne).
    reflexivity. }
  unfold w1. rewrite Hrun. cbn [fst snd].
  split; [reflexivity|]. split; [reflexivity|]. split.
  - intros Hd Hcl Hpid. unfold connect, installReqFunc. agent_unfold.
    rewrite Hd, Hcl.
    assert (Hgt : (pid >? 0) = true) by (rewrite Z.gtb_ltb; apply Z.ltb_lt; lia).
    rewrite Hgt. cbn.
    destruct (sys_Kill env (log w ++ [EvProxyStart agentSock console]) pid);
      cbn; [reflexivity|].
    destruct (NewAgentClient env _ uri (proxyBuiltIn (agent w))); cbn;
      rewrite <- app_assoc; reflexivity.
  - intros Hk Hw1. unfold startProxy.
    unfold bind, ret, io, modify, getAgent, getEnv.
    cbn in Hw1. repeat (cbn; rewrite ?Hw1, ?Hne, ?Hk).
    reflexivity.
Qed.

Lemma startProxy_records_endpoint_witness :
  let w1 := snd (startProxy (sampleSandbox "kata") cooperativeEnv freshWorld) in
  state (agent w1)
  = {| ProxyPid := 42; URL := "unix:///run/vc/sbs/sb/proxy.sock" |}
  /\ log (snd (connect cooperativeEnv w1))
     = [EvProxyStart "unix:///run/vc/vm/sb/kata.sock" "/run/vc/vm/sb/console.sock";
        EvKill 42; EvDial "unix:///run/vc/sbs/sb/proxy.sock" false]
  /\ startProxy (sampleSandbox "kata") cooperativeEnv w1 = (None, w1).
Proof.
  intros w1.
  destruct (startProxy_records_endpoint (sampleSandbox "kata") cooperativeEnv
              freshWorld "unix:///run/vc/vm/sb/kata.sock"
              "/run/vc/vm/sb/console.sock" "unix:///run/vc/sbs/sb/proxy.sock" 42
              eq_refl eq_refl eq_refl eq_refl eq_refl eq_refl ltac:(discriminate))
    as (_ & Hw1 & Hconn & Hagain).
  split; [reflexivity|].
  split; [exact (Hconn eq_refl eq_refl ltac:(lia)) | exact (Hagain eq_refl eq_refl)].
Defined.

(* ===================================================================== *)
(** ** File transfer: the chunks sent, and success when the guest answers  *)
(* ===================================================================== *)

(** A guest that answers: [connect] returns nil on a live session and
    leaves the client and the handler map set. *)
Lemma connect_answers env w :
  alwaysAnswers env -> dead (agent w) = false -> wired w ->
  exists c w1,
    connect env w = (None, w1)
    /\ client (agent w1) = Some c
    /\ reqHandlers (agent w1) = Some registeredRequests
    /\ dead (agent w1) = false.
Proof.
  intros (Hkill & Hdial & _) Hd Hw.
  destruct (client (agent w)) as [c|] eqn:Hc.
  - exists c, w. rewrite (connect_connected env w c Hd Hc).
    split; [reflexivity|]. split; [exact Hc|].
    split; [apply Hw; rewrite Hc; discriminate | exact Hd].
  - unfold connect, installReqFunc.
    unfold bind, ret, io, modify, getAgent, getEnv. rewrite Hd, Hc.
    destruct (ProxyPid (state (agent w)) >? 0); cbn [agent log].
    + rewrite Hkill. cbv beta iota. cbn [agent log].
      destruct (Hdial (log w ++ [EvKill (ProxyPid (state (agent w)))])%list
                  (URL (state (agent w))) (proxyBuiltIn (agent w))) as [c Hc'].
      rewrite Hc'. cbn [agent log]. exists c. eexists.
      split; [reflexivity|]. cbn. split; [reflexivity|].
      split; [reflexivity | exact Hd].
    + destruct (Hdial (log w) (URL (state (agent w))) (proxyBuiltIn (agent w)))
        as [c Hc'].
      rewrite Hc'. cbn [agent log]. exists c. eexists.
      split; [reflexivity|]. cbn. split; [reflexivity|].
      split; [reflexivity | exact Hd].
Qed.

Lemma afterClose_dead cerr k : dead (afterClose cerr k) = dead k.
Proof.
  unfold afterClose. destruct cerr as [err|]; [|reflexivity].
  destruct (Code_eqb (Convert_Code err) Canceled); reflexivity.
Qed.

(** A guest that answers: every request on a live session returns a
    response, and the session stays live. *)
Lemma sendReq_answers (r : Request) env w :
  alwaysAnswers env -> dead (agent w) = false -> wired w ->
  exists resp,
    fst (sendReq r env w) = Ok resp
    /\ dead (agent (snd (sendReq r env w))) = false
    /\ wired (snd (sendReq r env w)).
Proof.
  intros Hans Hd Hw.
  destruct (connect_answers env w Hans Hd Hw) as (c & w1 & Hconn & Hc & Hh & Hd1).
  destruct Hans as (_ & _ & Hcall).
  destruct (Hcall (log w1) c (getReqContext (MessageName r)) r) as [resp Hresp].
  exists resp. split; [|split].
  - rewrite (sendReq_after_connect r env w w1 c Hconn Hc Hh). exact Hresp.
  - rewrite (sendReq_after_connect r env w w1 c Hconn Hc Hh). cbn [snd agent].
    destruct (keepConn (agent w1)); [exact Hd1|].
    rewrite afterClose_dead. exact Hd1.
  - apply sendReq_preserves_wired. exact Hw.
Qed.

(** A guest that answers: the chunk loop returns nil. *)
Lemma copyLoop_succeeds (chunk : Z) :
  0 < chunk ->
  forall (fuel : nat) cpReq (b : list Byte.byte) off env w,
    alwaysAnswers env -> dead (agent w) = false -> wired w ->
    llen b <= maxInt64 ->
    chunkCount chunk (llen b) < Z.of_nat fuel ->
    fst (copyLoop fuel chunk cpReq b (llen b) off env w) = Some None.
Proof.
  intros Hchunk. unfold maxInt64.
  induction fuel as [|fuel IH]; intros cpReq b off env w Hans Hd Hw Hmax Hfuel;
    [pose proof (chunkCount_nonneg chunk (llen b) Hchunk (llen_nonneg b)); lia|].
  cbn [copyLoop].
  destruct (Z.gtb_spec (llen b) 0) as [Hpos|Hzero]; [|reflexivity].
  set (n := if llen b >? chunk then chunk else llen b) in *.
  set (cpReq' := set_Data_Offset (firstn (Z.to_nat n) b) off cpReq) in *.
  unfold bind.
  destruct (sendReq_answers (CopyFileRequest cpReq') env w Hans Hd Hw)
    as (resp & Hresp & Hd1 & Hw1).
  destruct (sendReq (CopyFileRequest cpReq') env w) as [r w1]; cbn [fst snd] in *.
  subst r.
  assert (Hn : 0 < n <= llen b) by (subst n; destruct (Z.gtb_spec (llen b) chunk); lia).
  assert (Hrem : wrap_s64 (llen b - n) = llen (skipn (Z.to_nat n) b)).
  { rewrite wrap_s64_small by lia. unfold llen in *. rewrite length_skipn. lia. }
  rewrite Hrem.
  apply IH; [exact Hans | exact Hd1 | exact Hw1 | |].
  - unfold llen in *. rewrite length_skipn. lia.
  - replace (llen (skipn (Z.to_nat n) b)) with (llen b - n)
      by (unfold llen in *; rewrite length_skipn; lia).
    destruct (Z.gtb_spec (llen b) chunk) as [Hgt|Hle].
    + assert (Hn' : n = chunk) by (subst n; destruct (Z.gtb_spec (llen b) chunk); lia).
      rewrite Hn'. pose proof (chunkCount_step chunk (llen b) ltac:(lia)). lia.
    + assert (Hn' : n = llen b) by (subst n; destruct (Z.gtb_spec (llen b) chunk); lia).
      rewrite Hn', Z.sub_diag, chunkCount_zero by exact Hchunk.
      pose proof (chunkCount_small chunk (llen b) ltac:(lia)). lia.
Qed.

(** [copyFile] for a package variable [grpcMaxDataSize] holding [chunk]. *)
Lemma copyFileWith_chunked (chunk : Z) (fuel : nat) (src dst : string)
  (env : Env) (w : World) (st : Stat_t) (b : list Byte.byte) :
  0 < chunk ->
  unix_Stat env src = Ok st ->
  ioutil_ReadFile env src = Ok b ->
  llen b <= maxInt64 ->
  chunkCount chunk (llen b) < Z.of_nat fuel ->
  exists evs reqs,
    log (snd (copyFileWith chunk fuel src dst env w)) = (log w ++ evs)%list
    /\ fst (copyFileWith chunk fuel src dst env w) <> None
    /\ (exists m, calls evs = map copyCall (firstn m reqs))
    /\ (fst (copyFileWith chunk fuel src dst env w) = Some None ->
        calls evs = map copyCall reqs)
    /\ (alwaysAnswers env -> dead (agent w) = false -> wired w ->
        fst (copyFileWith chunk fuel src dst env w) = Some None)
    /\ (llen b = 0 -> reqs = [copyFileHeader env dst st b])
    /\ (llen b > 0 -> reqs = copyChunks chunk (copyFileHeader env dst st b) b 0).
Proof.
  intros Hchunk Hst Hrd Hmax Hfuel.
  unfold copyFileWith, bind, getEnv. rewrite Hst, Hrd.
  fold (copyFileHeader env dst st b).
  destruct (Z.eqb_spec (llen b) 0) as [Hz|Hnz].
  - set (header := copyFileHeader env dst st b).
    destruct (sendReq_calls (CopyFileRequest header) env w)
      as (evs & Hlog & Hc & Hok).
    change (getReqContext (MessageName (CopyFileRequest header)), CopyFileRequest header)
      with (copyCall header) in *.
    exists evs, [header].
    assert (Hsucc : alwaysAnswers env -> dead (agent w) = false -> wired w ->
                    exists resp, fst (sendReq (CopyFileRequest header) env w) = Ok resp).
    { intros Hans Hd Hw.
      destruct (sendReq_answers (CopyFileRequest header) env w Hans Hd Hw)
        as (resp & Hresp & _). exists resp. exact Hresp. }
    destruct (sendReq (CopyFileRequest header) env w) as [[resp|err] w1];
      unfold ret; cbn [fst snd] in *.
    + split; [exact Hlog|]. split; [discriminate|]. split.
      * exists 1%nat. rewrite (Hok resp eq_refl). reflexivity.
      * split; [intros _; exact (Hok resp eq_refl)|].
        split; [intros _ _ _; reflexivity|]. split; [reflexivity|lia].
    + split; [exact Hlog|]. split; [discriminate|]. split.
      * destruct Hc as [Hc|Hc]; [exists 0%nat | exists 1%nat]; rewrite Hc; reflexivity.
      * split; [discriminate|]. split.
        -- intros Hans Hd Hw. destruct (Hsucc Hans Hd Hw) as [resp Hresp].
           discriminate Hresp.
        -- split; [reflexivity|lia].
  - destruct (copyLoop_calls chunk Hchunk fuel (copyFileHeader env dst st b)
                b 0 env w ltac:(lia) ltac:(lia) Hfuel)
      as (evs & m & Hlog & Hend & Hpre & Hall).
    exists evs, (copyChunks chunk (copyFileHeader env dst st b) b 0).
    split; [exact Hlog|]. split; [exact Hend|].
    split; [exists m; exact Hpre|]. split; [exact Hall|].
    split.
    + intros Hans Hd Hw. apply copyLoop_succeeds; assumption.
    + split; [lia | reflexivity].
Qed.

Lemma threeChunkFile_length : llen threeChunkFile = 2097157.
Proof.
  unfold threeChunkFile, llen. rewrite repeat_length.
  rewrite Nat2Z.inj_add, !Nat2Z.inj_mul. reflexivity.
Qed.

Lemma cooperativeEnv_answers : alwaysAnswers cooperativeEnv.
Proof.
  split; [intros; reflexivity|].
  split; [intros; exists 1%nat; reflexivity|].
  intros; exists EmptyResponse; reflexivity.
Qed.

Lemma withReadFile_answers outcome env :
  alwaysAnswers env -> alwaysAnswers (withReadFile outcome env).
Proof. intros H. exact H. Qed.

Lemma freshWorld_wired : wired freshWorld.
Proof. intros H. exfalso. apply H. reflexivity. Qed.

(** C2. [copyFile] on a file of [N] bytes, given fuel for its chunks, ends.
    The [CopyFile] calls it issues are an initial segment of the requests
    [reqs] below, and all of them when it returns nil.  When the guest
    answers every call and the session is live, it returns nil, so the
    calls are exactly [reqs].  For [N = 0], [reqs] is the single request
    without data.  For [N > 0] there are [ceil(N / grpcMaxDataSize)]
    requests (with [grpcMaxDataSize] 1 MiB), request [i] carrying offset
    [i * grpcMaxDataSize] and the bytes of the file from that position on,
    at most [grpcMaxDataSize] and at least one of them; the offsets
    increase strictly and the chunk sizes add up to [N]. *)
Theorem copyFile_chunked (fuel : nat) (src dst : string) (env : Env)
  (w : World) (st : Stat_t) (b : list Byte.byte) :
  unix_Stat env src = Ok st ->
  ioutil_ReadFile env src = Ok b ->
  llen b <= maxInt64 ->
  chunkCount grpcMaxDataSize (llen b) < Z.of_nat fuel ->
  exists evs reqs,
    log (snd (copyFile fuel src dst env w)) = (log w ++ evs)%list
    /\ fst (copyFile fuel src dst env w) <> None
    /\ (exists m, calls evs = map copyCall (firstn m reqs))
    /\ (fst (copyFile fuel src dst env w) = Some None ->
        calls evs = map copyCall reqs)
    /\ (alwaysAnswers env -> dead (agent w) = false -> wired w ->
        fst (copyFile fuel src dst env w) = Some None
        /\ calls evs = map copyCall reqs)
    /\ (llen b = 0 ->
        exists header, reqs = [header] /\ Data header = [] /\ Offset header = 0)
    /\ (llen b > 0 ->
        grpcMaxDataSize = 1024 * 1024
        /\ llen reqs = (llen b + grpcMaxDataSize - 1) / grpcMaxDataSize
        /\ llen b <= llen reqs * grpcMaxDataSize
        /\ (llen reqs - 1) * grpcMaxDataSize < llen b
        /\ (forall (i : nat) d, (i < length reqs)%nat ->
              Offset (nth i reqs d) = Z.of_nat i * grpcMaxDataSize
              /\ Data (nth i reqs d)
                 = firstn (Z.to_nat grpcMaxDataSize)
                          (skipn (i * Z.to_nat grpcMaxDataSize) b)
              /\ 0 < llen (Data (nth i reqs d)) <= grpcMaxDataSize)
        /\ (forall (i j : nat) d, (i < j < length reqs)%nat ->
              Offset (nth i reqs d) < Offset (nth j reqs d))
        /\ concat (map Data reqs) = b
        /\ Z.of_nat (list_sum (map (fun r => length (Data r)) reqs)) = llen b).
Proof.
  intros Hst Hrd Hmax Hfuel.
  assert (Hchunk : 0 < grpcMaxDataSize) by (rewrite grpcMaxDataSize_value; lia).
  destruct (copyFileWith_chunked grpcMaxDataSize fuel src dst env w st b
              Hchunk Hst Hrd Hmax Hfuel)
    as (evs & reqs & Hlog & Hend & Hpre & Hall & Hsucc & Hzero & Hpos).
  exists evs, reqs. fold copyFile in Hlog, Hend, Hall, Hsucc.
  split; [exact Hlog|]. split; [exact Hend|]. split; [exact Hpre|].
  split; [exact Hall|].
  split; [intros Hans Hd Hw; pose proof (Hsucc Hans Hd Hw) as Hs;
          split; [exact Hs | exact (Hall Hs)]|].
  split.
  - intros Hz. exists (copyFileHeader env dst st b).
    split; [exact (Hzero Hz)|]. split; reflexivity.
  - intros Hn. rewrite (Hpos Hn).
    set (header := copyFileHeader env dst st b).
    pose proof (copyChunks_length grpcMaxDataSize header b 0 Hchunk) as Hlen.
    pose proof (chunkCount_ceiling grpcMaxDataSize (llen b) Hchunk (llen_nonneg b))
      as [Hup Hlow].
    assert (Hnth : forall (i : nat) d,
               (i < length (copyChunks grpcMaxDataSize header b 0))%nat ->
               Offset (nth i (copyChunks grpcMaxDataSize header b 0) d)
               = Z.of_nat i * grpcMaxDataSize
               /\ Data (nth i (copyChunks grpcMaxDataSize header b 0) d)
                  = firstn (Z.to_nat grpcMaxDataSize)
                           (skipn (i * Z.to_nat grpcMaxDataSize) b)
               /\ 0 < llen (Data (nth i (copyChunks grpcMaxDataSize header b 0) d))
                  <= grpcMaxDataSize).
    { intros i d Hi. rewrite copyChunks_nth by exact Hi.
      split; [unfold copyChunk; cbn [Offset set_Data_Offset]; lia|].
      split; [reflexivity|].
      apply copyChunk_size; [exact Hchunk|].
      rewrite <- Hlen. unfold llen. lia. }
    split; [exact grpcMaxDataSize_value|].
    split; [exact Hlen|].
    split; [rewrite Hlen; exact Hup|].
    split; [rewrite Hlen; exact Hlow|].
    split; [exact Hnth|].
    split.
    { intros i j d [Hij Hj].
      destruct (Hnth i d ltac:(lia)) as [Hi _].
      destruct (Hnth j d Hj) as [Hj' _].
      rewrite Hi, Hj'. nia. }
    split; [apply copyChunks_concat; exact Hchunk|].
    apply copyChunks_sizes; exact Hchunk.
Qed.

Lemma copyFile_chunked_witness :
  (exists evs reqs,
      log (snd (copyFile 6 "/etc/hostname" "/run/hostname" cooperativeEnv freshWorld))
      = (log freshWorld ++ evs)%list
      /\ fst (copyFile 6 "/etc/hostname" "/run/hostname" cooperativeEnv freshWorld)
         = Some None
      /\ calls evs = map copyCall reqs
      /\ llen reqs = 1
      /\ Z.of_nat (list_sum (map (fun r => length (Data r)) reqs)) = 5)
  /\ (exists evs header,
        log (snd (copyFile 1 "/etc/empty" "/run/empty" unreachableEnv
                    {| agent := set_client (Some 1%nat)
                                  (set_reqHandlers (Some registeredRequests) freshAgent);
                       log := [] |}))
        = evs
        /\ calls evs = [copyCall header]
        /\ Data header = [] /\ Offset header = 0)
  /\ (exists evs reqs,
        log (snd (copyFile 4 "/var/lib/image" "/run/image"
                    (withReadFile (Ok threeChunkFile) cooperativeEnv) freshWorld))
        = (log freshWorld ++ evs)%list
        /\ fst (copyFile 4 "/var/lib/image" "/run/image"
                  (withReadFile (Ok threeChunkFile) cooperativeEnv) freshWorld)
           = Some None
        /\ calls evs = map copyCall reqs
        /\ llen reqs = 3
        /\ (forall d, Offset (nth 0 reqs d) = 0
                      /\ Offset (nth 1 reqs d) = 1048576
                      /\ Offset (nth 2 reqs d) = 2097152)
        /\ Z.of_nat (list_sum (map (fun r => length (Data r)) reqs)) = 2097157).
Proof.
  split; [|split].
  - destruct (copyFile_chunked 6 "/etc/hostname" "/run/hostname" cooperativeEnv
                freshWorld {| st_Mode := 420; st_Uid := 0; st_Gid := 0 |}
                [Byte.x6b; Byte.x61; Byte.x74; Byte.x61; Byte.x0a]
                eq_refl eq_refl ltac:(discriminate) eq_refl)
      as (evs & reqs & Hlog & _ & _ & _ & Hsucc & _ & Hpos).
    destruct (Hsucc cooperativeEnv_answers eq_refl freshWorld_wired) as [Hnil Hall].
    destruct (Hpos eq_refl) as (_ & Hlen & _ & _ & _ & _ & _ & Hsum).
    exists evs, reqs.
    split; [exact Hlog|]. split; [exact Hnil|]. split; [exact Hall|].
    split; [exact Hlen | exact Hsum].
  - destruct (copyFile_chunked 1 "/etc/empty" "/run/empty" unreachableEnv
                {| agent := set_client (Some 1%nat)
                              (set_reqHandlers (Some registeredRequests) freshAgent);
                   log := [] |}
                {| st_Mode := 420; st_Uid := 0; st_Gid := 0 |} []
                eq_refl eq_refl ltac:(discriminate) eq_refl)
      as (evs & reqs & Hlog & _ & _ & Hall & _ & Hzero & _).
    destruct (Hzero eq_refl) as (header & Hreqs & Hdata & Hoff).
    exists evs, header. simpl in Hlog.
    split; [exact Hlog|]. rewrite (Hall eq_refl), Hreqs.
    split; [reflexivity|]. split; [exact Hdata | exact Hoff].
  - assert (Hmax : llen threeChunkFile <= maxInt64)
      by (rewrite threeChunkFile_length; discriminate).
    assert (Hfuel : chunkCount grpcMaxDataSize (llen threeChunkFile) < Z.of_nat 4)
      by (rewrite threeChunkFile_length; reflexivity).
    destruct (copyFile_chunked 4 "/var/lib/image" "/run/image"
                (withReadFile (Ok threeChunkFile) cooperativeEnv)
                freshWorld {| st_Mode := 420; st_Uid := 0; st_Gid := 0 |}
                threeChunkFile eq_refl eq_refl Hmax Hfuel)
      as (evs & reqs & Hlog & _ & _ & _ & Hsucc & _ & Hpos).
    destruct (Hsucc (withReadFile_answers _ _ cooperativeEnv_answers) eq_refl
                freshWorld_wired) as [Hnil Hall].
    assert (Hn : llen threeChunkFile > 0)
      by (rewrite threeChunkFile_length; reflexivity).
    destruct (Hpos Hn) as (_ & Hlen & _ & _ & Hnth & _ & _ & Hsum).
    rewrite threeChunkFile_length in Hlen, Hsum.
    change ((2097157 + grpcMaxDataSize - 1) / grpcMaxDataSize) with 3 in Hlen.
    exists evs, reqs.
    split; [exact Hlog|]. split; [exact Hnil|]. split; [exact Hall|].
    split; [exact Hlen|]. split; [|exact Hsum].
    intros d. unfold llen in Hlen.
    destruct (Hnth 0%nat d ltac:(lia)) as [H0 _].
    destruct (Hnth 1%nat d ltac:(lia)) as [H1 _].
    destruct (Hnth 2%nat d ltac:(lia)) as [H2 _].
    split; [exact H0|]. split; [exact H1 | exact H2].
Defined.
